(** * BIT* vertex bookkeeping and the time-indexed validity check

    A shallow embedding of
    - [ompl::geometric::BITstar::Vertex] (Vertex.cpp): the parent / child
      bookkeeping of a BIT* search-tree node and its cost propagator
      [updateCostAndDepth];
    - [ompl::base::StateValidityChecker::isValid(state, time)]: the
      validity check against a time-indexed table of dynamic obstacles;
    - [ompl::base::StateValidityChecker::clearDynamicObstacles] and the
      checker of the multi-robot demo.

    Vertices live on the C++ heap and refer to each other through
    [shared_ptr] (parent) and [weak_ptr] (children).  The heap is a finite
    map from addresses to vertex objects; every member function is a
    computation over that heap which either returns or fails, and a failure
    keeps the heap as it was when the exception left the function.

    The owners of an object are not counted: the heap holds a vertex for
    as long as anything may still refer to it, and no member function takes
    an entry out of it.  A parent that loses its last owner when
    [removeParent] resets, or [addParent] overwrites, the parent pointer of
    its child is destroyed in the program and stays in the heap here; the
    statements below speak of the vertices that are alive after a call. *)

From Stdlib Require Import ZArith QArith Qabs Qpower String List Bool Lia Lqa.
From Stdlib Require Import Floats.SpecFloat.
From stdpp Require Import base option list gmap.

Local Open Scope Z_scope.

(** ** The cost helper (CostHelper.h, a collaborator of the vertex)

    CostHelper.h is not among the sources.  The vertex only ever asks its
    cost helper for the identity cost, the infinite cost and the
    combination of two costs, so these three are the interface. *)

Class CostHelper (Cost : Type) := {
  identityCost : Cost;
  infiniteCost : Cost;
  combineCosts : Cost -> Cost -> Cost
}.

(** ** Exceptions and outcomes *)

(** The [ompl::Exception]s thrown in Vertex.cpp, one constructor per
    message. *)
Inductive exn :=
| PrunedVertex
| DepthOfDisconnected
| ParentOfRoot
| ParentOfOrphan
| AddParentHasParent
| AddParentToRoot
| RemoveParentNoParent
| RemoveParentOfRoot
| ExpiredWhileCollecting
| ExpiredWhileRemoving
| ExpiredWhileUpdating
| ChildNotFound
| EdgeCostWithoutParent
| CascadeFromDisconnected.

Definition what (e : exn) : string :=
  match e with
  | PrunedVertex => "Attempting to access a pruned vertex."
  | DepthOfDisconnected =>
      "Attempting to get the depth of a vertex that does not have a parent yet is not root."
  | ParentOfRoot => "Attempting to access the parent of the root vertex."
  | ParentOfOrphan =>
      "Attempting to access the parent of a vertex that does not have one."
  | AddParentHasParent =>
      "Attempting to add a parent to a vertex that already has one."
  | AddParentToRoot =>
      "Attempting to add a parent to the root vertex, which cannot have a parent."
  | RemoveParentNoParent =>
      "Attempting to remove the parent of a vertex that does not have a parent."
  | RemoveParentOfRoot =>
      "Attempting to remove the parent of the root vertex, which cannot have a parent."
  | ExpiredWhileCollecting =>
      "A (weak) pointer to a child was found to have expired while collecting the children of a vertex."
  | ExpiredWhileRemoving =>
      "A (weak) pointer to a child was found to have expired while removing a child from a vertex."
  | ExpiredWhileUpdating =>
      "A (weak) pointer to a child has was found to have expired while updating the costs and depths of descendant vertices."
  | ChildNotFound =>
      "Attempting to remove a child vertex not present in the vector of children stored in the (supposed) parent vertex."
  | EdgeCostWithoutParent =>
      "Attempting to access the incoming-edge cost of a vertex without a parent."
  | CascadeFromDisconnected =>
      "Attempting to update descendants' costs and depths of a vertex that does not have a parent and is not root. This information would therefore be gibberish."
  end%string.

(** How a call can end other than by returning: an exception, a member
    call through an empty pointer (undefined behaviour in C++), or a
    recursion deeper than the bound given to the model. *)
Inductive failure :=
| Exception (e : exn)
| NullDereference
| FuelExhausted.

Inductive outcome (A : Type) :=
| Ok (a : A)
| Fail (f : failure).
Arguments Ok {A} a.
Arguments Fail {A} f.

(** Addresses of vertex objects. *)
Definition ptr := nat.

(** [operator bool] of a smart pointer and [empty()] of a vector. *)
Definition engaged {A} (p : option A) : bool :=
  match p with Some _ => true | None => false end.

Definition empty {A} (l : list A) : bool :=
  match l with [] => true | _ :: _ => false end.

(** [unsigned int] arithmetic of [depth_]. *)
Definition UINT_MODULUS : Z := 2 ^ 32.
Definition uint_succ (d : Z) : Z := (d + 1) mod UINT_MODULUS.

Section Vertex.

Context {Cost : Type} `{CostHelper Cost}.

(** The data members of [BITstar::Vertex], as Vertex.cpp reads and writes
    them (the class declaration, Vertex.h, is not among the sources).
    [state_] is the address of the state owned by the vertex; the space
    information and the cost helper are shared by all vertices and are not
    part of the record. *)
Record Vertex := mkVertex {
  vId_ : Z;
  state_ : nat;
  isRoot_ : bool;
  isNew_ : bool;
  hasBeenExpandedToSamples_ : bool;
  hasBeenExpandedToVertices_ : bool;
  isPruned_ : bool;
  depth_ : Z;
  parentSPtr_ : option ptr;
  edgeCost_ : Cost;
  cost_ : Cost;
  childWPtrs_ : list ptr
}.

Definition set_isNew (b : bool) (V : Vertex) : Vertex :=
  mkVertex (vId_ V) (state_ V) (isRoot_ V) b (hasBeenExpandedToSamples_ V)
    (hasBeenExpandedToVertices_ V) (isPruned_ V) (depth_ V) (parentSPtr_ V)
    (edgeCost_ V) (cost_ V) (childWPtrs_ V).
Definition set_hasBeenExpandedToSamples (b : bool) (V : Vertex) : Vertex :=
  mkVertex (vId_ V) (state_ V) (isRoot_ V) (isNew_ V) b
    (hasBeenExpandedToVertices_ V) (isPruned_ V) (depth_ V) (parentSPtr_ V)
    (edgeCost_ V) (cost_ V) (childWPtrs_ V).
Definition set_hasBeenExpandedToVertices (b : bool) (V : Vertex) : Vertex :=
  mkVertex (vId_ V) (state_ V) (isRoot_ V) (isNew_ V)
    (hasBeenExpandedToSamples_ V) b (isPruned_ V) (depth_ V) (parentSPtr_ V)
    (edgeCost_ V) (cost_ V) (childWPtrs_ V).
Definition set_isPruned (b : bool) (V : Vertex) : Vertex :=
  mkVertex (vId_ V) (state_ V) (isRoot_ V) (isNew_ V)
    (hasBeenExpandedToSamples_ V) (hasBeenExpandedToVertices_ V) b (depth_ V)
    (parentSPtr_ V) (edgeCost_ V) (cost_ V) (childWPtrs_ V).
Definition set_depth (d : Z) (V : Vertex) : Vertex :=
  mkVertex (vId_ V) (state_ V) (isRoot_ V) (isNew_ V)
    (hasBeenExpandedToSamples_ V) (hasBeenExpandedToVertices_ V) (isPruned_ V)
    d (parentSPtr_ V) (edgeCost_ V) (cost_ V) (childWPtrs_ V).
Definition set_parentSPtr (p : option ptr) (V : Vertex) : Vertex :=
  mkVertex (vId_ V) (state_ V) (isRoot_ V) (isNew_ V)
    (hasBeenExpandedToSamples_ V) (hasBeenExpandedToVertices_ V) (isPruned_ V)
    (depth_ V) p (edgeCost_ V) (cost_ V) (childWPtrs_ V).
Definition set_edgeCost (c : Cost) (V : Vertex) : Vertex :=
  mkVertex (vId_ V) (state_ V) (isRoot_ V) (isNew_ V)
    (hasBeenExpandedToSamples_ V) (hasBeenExpandedToVertices_ V) (isPruned_ V)
    (depth_ V) (parentSPtr_ V) c (cost_ V) (childWPtrs_ V).
Definition set_cost (c : Cost) (V : Vertex) : Vertex :=
  mkVertex (vId_ V) (state_ V) (isRoot_ V) (isNew_ V)
    (hasBeenExpandedToSamples_ V) (hasBeenExpandedToVertices_ V) (isPruned_ V)
    (depth_ V) (parentSPtr_ V) (edgeCost_ V) c (childWPtrs_ V).
Definition set_childWPtrs (l : list ptr) (V : Vertex) : Vertex :=
  mkVertex (vId_ V) (state_ V) (isRoot_ V) (isNew_ V)
    (hasBeenExpandedToSamples_ V) (hasBeenExpandedToVertices_ V) (isPruned_ V)
    (depth_ V) (parentSPtr_ V) (edgeCost_ V) (cost_ V) l.

(** The heap of vertex objects.  An address without an entry is an empty
    [shared_ptr] or an expired [weak_ptr].  Entries are never taken out:
    the release of the last owner of an object is not modelled. *)
Abbreviation heap := (gmap ptr Vertex).

(** ** Computations over the heap *)

Definition M (A : Type) : Type := heap -> heap * outcome A.

Definition ret {A} (a : A) : M A := fun h => (h, Ok a).
Definition failM {A} (f : failure) : M A := fun h => (h, Fail f).
Definition throw {A} (e : exn) : M A := failM (Exception e).
Definition bind {A B} (m : M A) (k : A -> M B) : M B :=
  fun h => match m h with
           | (h', Ok a) => k a h'
           | (h', Fail f) => (h', Fail f)
           end.

Notation "x <- m ;; k" := (bind m (fun x => k))
  (at level 100, m at next level, right associativity).
Notation "m ;;; k" := (bind m (fun _ => k))
  (at level 100, right associativity).

(** Reading and writing the object [this] points to. *)
Definition deref (this : ptr) : M Vertex :=
  fun h => match h !! this with
           | Some V => (h, Ok V)
           | None => (h, Fail NullDereference)
           end.

Definition modify (this : ptr) (f : Vertex -> Vertex) : M unit :=
  fun h => match h !! this with
           | Some V => (<[this := f V]> h, Ok tt)
           | None => (h, Fail NullDereference)
           end.

Definition when (b : bool) (m : M unit) : M unit := if b then m else ret tt.

(** A range-for over a vector of pointers. *)
Fixpoint forEach (body : ptr -> M unit) (l : list ptr) : M unit :=
  match l with
  | [] => ret tt
  | c :: l' => body c ;;; forEach body l'
  end.

(** ** Member functions of [BITstar::Vertex]

    [BITSTAR_DEBUG] is defined (or not) in BITstar.h; Vertex.cpp compiles
    its precondition checks, and the macro [ASSERT_NOT_PRUNED], only when it
    is.  The flag is a parameter of the model. *)

Variable BITSTAR_DEBUG : bool.

(** [assertNotPruned] (private). *)
Definition assertNotPruned (this : ptr) : M unit :=
  V <- deref this ;;
  if isPruned_ V then throw PrunedVertex else ret tt.

Definition ASSERT_NOT_PRUNED (this : ptr) : M unit :=
  when BITSTAR_DEBUG (assertNotPruned this).

Definition getId (this : ptr) : M Z :=
  ASSERT_NOT_PRUNED this ;;;
  V <- deref this ;; ret (vId_ V).

Definition stateConst (this : ptr) : M nat :=
  ASSERT_NOT_PRUNED this ;;;
  V <- deref this ;; ret (state_ V).

Definition state (this : ptr) : M nat :=
  ASSERT_NOT_PRUNED this ;;;
  V <- deref this ;; ret (state_ V).

Definition isRoot (this : ptr) : M bool :=
  ASSERT_NOT_PRUNED this ;;;
  V <- deref this ;; ret (isRoot_ V).

Definition hasParent (this : ptr) : M bool :=
  ASSERT_NOT_PRUNED this ;;;
  V <- deref this ;; ret (engaged (parentSPtr_ V)).

Definition isInTree (this : ptr) : M bool :=
  ASSERT_NOT_PRUNED this ;;;
  r <- isRoot this ;;
  if r then ret true else hasParent this.

Definition getDepth (this : ptr) : M Z :=
  ASSERT_NOT_PRUNED this ;;;
  when BITSTAR_DEBUG
    (r <- isRoot this ;;
     p <- (if r then ret true else hasParent this) ;;
     if p then ret tt else throw DepthOfDisconnected) ;;;
  V <- deref this ;; ret (depth_ V).

Definition getParentConst (this : ptr) : M (option ptr) :=
  ASSERT_NOT_PRUNED this ;;;
  when BITSTAR_DEBUG
    (p <- hasParent this ;;
     if p then ret tt
     else r <- isRoot this ;;
          if r then throw ParentOfRoot else throw ParentOfOrphan) ;;;
  V <- deref this ;; ret (parentSPtr_ V).

Definition getParent (this : ptr) : M (option ptr) :=
  ASSERT_NOT_PRUNED this ;;;
  when BITSTAR_DEBUG
    (p <- hasParent this ;;
     if p then ret tt
     else r <- isRoot this ;;
          if r then throw ParentOfRoot else throw ParentOfOrphan) ;;;
  V <- deref this ;; ret (parentSPtr_ V).

Definition hasChildren (this : ptr) : M bool :=
  ASSERT_NOT_PRUNED this ;;;
  V <- deref this ;; ret (negb (empty (childWPtrs_ V))).

Definition getCost (this : ptr) : M Cost :=
  ASSERT_NOT_PRUNED this ;;;
  V <- deref this ;; ret (cost_ V).

Definition getEdgeInCost (this : ptr) : M Cost :=
  ASSERT_NOT_PRUNED this ;;;
  when BITSTAR_DEBUG
    (p <- hasParent this ;;
     if p then ret tt else throw EdgeCostWithoutParent) ;;;
  V <- deref this ;; ret (edgeCost_ V).

(** [weak_ptr::expired]. *)
Definition expired (c : ptr) : M bool :=
  fun h => (h, Ok (negb (engaged (h !! c)))).

(** [getChildrenConst] and [getChildren] fill the vector their argument
    points to; the model returns that vector.  Without [BITSTAR_DEBUG] an
    expired child is locked into an empty pointer and pushed like the
    others. *)
Fixpoint collectChildren (l : list ptr) : M (list ptr) :=
  match l with
  | [] => ret []
  | c :: l' =>
      when BITSTAR_DEBUG
        (x <- expired c ;;
         if x then throw ExpiredWhileCollecting else ret tt) ;;;
      rest <- collectChildren l' ;;
      ret (c :: rest)
  end.

Definition getChildrenConst (this : ptr) : M (list ptr) :=
  ASSERT_NOT_PRUNED this ;;;
  V <- deref this ;; collectChildren (childWPtrs_ V).

Definition getChildren (this : ptr) : M (list ptr) :=
  ASSERT_NOT_PRUNED this ;;;
  V <- deref this ;; collectChildren (childWPtrs_ V).

(** *** The cost propagator (protected) *)

(** [parentSPtr_->]: the vertex the parent pointer owns. *)
Definition arrow_parentSPtr (this : ptr) : M ptr :=
  V <- deref this ;;
  match parentSPtr_ V with
  | Some parent => ret parent
  | None => failM NullDereference
  end.

(** Lines 502-533: the vertex recomputes its own cost and depth.  The cost
    is stored before the parent's depth is read. *)
Definition recompute (this : ptr) (cascadeUpdates : bool) : M unit :=
  r <- isRoot this ;;
  if r then
    modify this (set_cost identityCost) ;;;
    modify this (set_depth 0)
  else
    p <- hasParent this ;;
    if negb p then
      modify this (set_cost infiniteCost) ;;;
      modify this (set_depth 0) ;;;
      when BITSTAR_DEBUG
        (c <- hasChildren this ;;
         if c && cascadeUpdates then throw CascadeFromDisconnected
         else ret tt)
    else
      pc <- (parent <- arrow_parentSPtr this ;; getCost parent) ;;
      modify this (fun V => set_cost (combineCosts pc (edgeCost_ V)) V) ;;;
      pd <- (parent <- arrow_parentSPtr this ;; getDepth parent) ;;
      modify this (set_depth (uint_succ pd)).

(** The body of [updateCostAndDepth], with the recursive call on a child
    passed as [self]. *)
Definition updateCostAndDepth_body (self : ptr -> M unit)
    (this : ptr) (cascadeUpdates : bool) : M unit :=
  ASSERT_NOT_PRUNED this ;;;
  recompute this cascadeUpdates ;;;
  if cascadeUpdates then
    V <- deref this ;;
    forEach (fun childWPtr =>
               when BITSTAR_DEBUG
                 (x <- expired childWPtr ;;
                  if x then throw ExpiredWhileUpdating else ret tt) ;;;
               self childWPtr)
            (childWPtrs_ V)
  else ret tt.

(** [updateCostAndDepth].  [fuel] bounds the depth of the recursion into
    the children: the call itself always runs, and a descent deeper than
    [fuel] levels ends in [FuelExhausted]. *)
Fixpoint updateCostAndDepth (fuel : nat) (this : ptr) (cascadeUpdates : bool)
    {struct fuel} : M unit :=
  updateCostAndDepth_body
    (match fuel with
     | O => fun _ => failM FuelExhausted
     | S fuel' => fun child => updateCostAndDepth fuel' child true
     end)
    this cascadeUpdates.

(** *** Parent and child bookkeeping *)

(** A [VertexPtr] argument either owns a live vertex or is empty. *)
Definition shared (p : ptr) : M (option ptr) :=
  fun h => (h, Ok (if engaged (h !! p) then Some p else None)).

(** [addParent].  The assignment to [parentSPtr_] releases the parent the
    vertex had, if any (which the checks exclude where [BITSTAR_DEBUG] is
    defined); the object released stays in the heap. *)
Definition addParent (fuel : nat) (this newParent : ptr) (edgeInCost : Cost)
    (updateChildCosts : bool) : M unit :=
  ASSERT_NOT_PRUNED this ;;;
  when BITSTAR_DEBUG
    (p <- hasParent this ;;
     (if p then throw AddParentHasParent else ret tt) ;;;
     r <- isRoot this ;;
     if r then throw AddParentToRoot else ret tt) ;;;
  np <- shared newParent ;;
  modify this (set_parentSPtr np) ;;;
  modify this (set_edgeCost edgeInCost) ;;;
  updateCostAndDepth fuel this updateChildCosts.

(** [removeParent].  [parentSPtr_.reset()] releases the parent; the object
    stays in the heap, also when the vertex was its last owner. *)
Definition removeParent (fuel : nat) (this : ptr) (updateChildCosts : bool)
    : M unit :=
  ASSERT_NOT_PRUNED this ;;;
  when BITSTAR_DEBUG
    (p <- hasParent this ;;
     (if p then ret tt else throw RemoveParentNoParent) ;;;
     r <- isRoot this ;;
     if r then throw RemoveParentOfRoot else ret tt) ;;;
  modify this (set_parentSPtr None) ;;;
  updateCostAndDepth fuel this updateChildCosts.

Definition addChild (fuel : nat) (this newChild : ptr)
    (updateChildCosts : bool) : M unit :=
  ASSERT_NOT_PRUNED this ;;;
  modify this (fun V => set_childWPtrs (childWPtrs_ V ++ [newChild]) V) ;;;
  when updateChildCosts (updateCostAndDepth fuel newChild true).

(** [std::swap] of two slots of a vector and [pop_back]. *)
Definition swap (i j : nat) (l : list ptr) : list ptr :=
  match l !! i, l !! j with
  | Some a, Some b => <[j := a]> (<[i := b]> l)
  | _, _ => l
  end.

Definition pop_back (l : list ptr) : list ptr := take (pred (length l)) l.

Definition swap_and_pop (i : nat) (l : list ptr) : list ptr :=
  pop_back (if Nat.eqb i (pred (length l)) then l
            else swap i (pred (length l)) l).

(** The scan of [removeChild] from slot [i] on; [rest] holds the slots not
    yet visited.  Returns [foundChild].  The loop stops at the first child
    whose id is the one of [oldChild].  The two calls of [getId] in the
    comparison are unsequenced in C++; the model makes the left one
    first. *)
Fixpoint scanChildren (this oldChild : ptr) (i : nat) (rest : list ptr)
    : M bool :=
  match rest with
  | [] => ret false
  | childIter :: rest' =>
      when BITSTAR_DEBUG
        (x <- expired childIter ;;
         if x then throw ExpiredWhileRemoving else ret tt) ;;;
      cid <- getId childIter ;;
      oid <- getId oldChild ;;
      if Z.eqb cid oid then
        modify this (fun V => set_childWPtrs (swap_and_pop i (childWPtrs_ V)) V) ;;;
        ret true
      else scanChildren this oldChild (S i) rest'
  end.

Definition removeChild (fuel : nat) (this oldChild : ptr)
    (updateChildCosts : bool) : M unit :=
  ASSERT_NOT_PRUNED this ;;;
  V <- deref this ;;
  foundChild <- scanChildren this oldChild 0 (childWPtrs_ V) ;;
  when updateChildCosts (updateCostAndDepth fuel oldChild true) ;;;
  when BITSTAR_DEBUG
    (if foundChild then ret tt else throw ChildNotFound).

(** *** Lifecycle flags *)

Definition isNew (this : ptr) : M bool :=
  ASSERT_NOT_PRUNED this ;;;
  V <- deref this ;; ret (isNew_ V).

Definition markNew (this : ptr) : M unit :=
  ASSERT_NOT_PRUNED this ;;; modify this (set_isNew true).

Definition markOld (this : ptr) : M unit :=
  ASSERT_NOT_PRUNED this ;;; modify this (set_isNew false).

Definition hasBeenExpandedToSamples (this : ptr) : M bool :=
  ASSERT_NOT_PRUNED this ;;;
  V <- deref this ;; ret (hasBeenExpandedToSamples_ V).

Definition markExpandedToSamples (this : ptr) : M unit :=
  ASSERT_NOT_PRUNED this ;;; modify this (set_hasBeenExpandedToSamples true).

Definition markUnexpandedToSamples (this : ptr) : M unit :=
  ASSERT_NOT_PRUNED this ;;; modify this (set_hasBeenExpandedToSamples false).

Definition hasBeenExpandedToVertices (this : ptr) : M bool :=
  ASSERT_NOT_PRUNED this ;;;
  V <- deref this ;; ret (hasBeenExpandedToVertices_ V).

Definition markExpandedToVertices (this : ptr) : M unit :=
  ASSERT_NOT_PRUNED this ;;; modify this (set_hasBeenExpandedToVertices true).

Definition markUnexpandedToVertices (this : ptr) : M unit :=
  ASSERT_NOT_PRUNED this ;;; modify this (set_hasBeenExpandedToVertices false).

Definition isPruned (this : ptr) : M bool :=
  V <- deref this ;; ret (isPruned_ V).

Definition markPruned (this : ptr) : M unit :=
  ASSERT_NOT_PRUNED this ;;; modify this (set_isPruned true).

Definition markUnpruned (this : ptr) : M unit :=
  modify this (set_isPruned false).

(** *** The public interface as data

    One constructor per public member function, with its arguments, and the
    value a call returns. *)

Inductive operation :=
| OpGetId
| OpStateConst
| OpState
| OpIsRoot
| OpHasParent
| OpIsInTree
| OpGetDepth
| OpGetParentConst
| OpGetParent
| OpAddParent (newParent : ptr) (edgeInCost : Cost) (updateChildCosts : bool)
| OpRemoveParent (updateChildCosts : bool)
| OpHasChildren
| OpGetChildrenConst
| OpGetChildren
| OpAddChild (newChild : ptr) (updateChildCosts : bool)
| OpRemoveChild (oldChild : ptr) (updateChildCosts : bool)
| OpGetCost
| OpGetEdgeInCost
| OpIsNew
| OpMarkNew
| OpMarkOld
| OpHasBeenExpandedToSamples
| OpMarkExpandedToSamples
| OpMarkUnexpandedToSamples
| OpHasBeenExpandedToVertices
| OpMarkExpandedToVertices
| OpMarkUnexpandedToVertices
| OpIsPruned
| OpMarkPruned
| OpMarkUnpruned.

Inductive value :=
| VVoid
| VBool (b : bool)
| VId (i : Z)
| VState (s : nat)
| VDepth (d : Z)
| VPtr (p : option ptr)
| VPtrs (l : list ptr)
| VCost (c : Cost).

Definition returning {A} (inj : A -> value) (m : M A) : M value :=
  x <- m ;; ret (inj x).

Definition call (fuel : nat) (this : ptr) (op : operation) : M value :=
  match op with
  | OpGetId => returning VId (getId this)
  | OpStateConst => returning VState (stateConst this)
  | OpState => returning VState (state this)
  | OpIsRoot => returning VBool (isRoot this)
  | OpHasParent => returning VBool (hasParent this)
  | OpIsInTree => returning VBool (isInTree this)
  | OpGetDepth => returning VDepth (getDepth this)
  | OpGetParentConst => returning VPtr (getParentConst this)
  | OpGetParent => returning VPtr (getParent this)
  | OpAddParent p e b => returning (fun _ => VVoid) (addParent fuel this p e b)
  | OpRemoveParent b => returning (fun _ => VVoid) (removeParent fuel this b)
  | OpHasChildren => returning VBool (hasChildren this)
  | OpGetChildrenConst => returning VPtrs (getChildrenConst this)
  | OpGetChildren => returning VPtrs (getChildren this)
  | OpAddChild c b => returning (fun _ => VVoid) (addChild fuel this c b)
  | OpRemoveChild c b => returning (fun _ => VVoid) (removeChild fuel this c b)
  | OpGetCost => returning VCost (getCost this)
  | OpGetEdgeInCost => returning VCost (getEdgeInCost this)
  | OpIsNew => returning VBool (isNew this)
  | OpMarkNew => returning (fun _ => VVoid) (markNew this)
  | OpMarkOld => returning (fun _ => VVoid) (markOld this)
  | OpHasBeenExpandedToSamples =>
      returning VBool (hasBeenExpandedToSamples this)
  | OpMarkExpandedToSamples =>
      returning (fun _ => VVoid) (markExpandedToSamples this)
  | OpMarkUnexpandedToSamples =>
      returning (fun _ => VVoid) (markUnexpandedToSamples this)
  | OpHasBeenExpandedToVertices =>
      returning VBool (hasBeenExpandedToVertices this)
  | OpMarkExpandedToVertices =>
      returning (fun _ => VVoid) (markExpandedToVertices this)
  | OpMarkUnexpandedToVertices =>
      returning (fun _ => VVoid) (markUnexpandedToVertices this)
  | OpIsPruned => returning VBool (isPruned this)
  | OpMarkPruned => returning (fun _ => VVoid) (markPruned this)
  | OpMarkUnpruned => returning (fun _ => VVoid) (markUnpruned this)
  end.

(** The operations a pruned vertex still answers. *)
Definition flag_operation (op : operation) : bool :=
  match op with
  | OpIsPruned | OpMarkUnpruned => true
  | _ => false
  end.

End Vertex.

Arguments Vertex Cost : clear implicits.
Arguments operation Cost : clear implicits.
Arguments value Cost : clear implicits.
Arguments M Cost A : clear implicits.

Notation "x <- m ;; k" := (bind m (fun x => k))
  (at level 100, m at next level, right associativity).
Notation "m ;;; k" := (bind m (fun _ => k))
  (at level 100, right associativity).

(** ** The cost-cascade invariant, as a predicate on heaps *)

Section CascadeSpec.

Context {Cost : Type} `{CostHelper Cost}.

(** The cost [c] and depth [d] a vertex must carry given what its parent
    carries: identity cost and depth 0 at the root, infinite cost and depth
    0 when disconnected, the parent's cost combined with the edge cost and
    the parent's depth plus one ([unsigned int] arithmetic) otherwise. *)
Definition expected (h : gmap ptr (Vertex Cost)) (V : Vertex Cost)
    (c : Cost) (d : Z) : Prop :=
  if isRoot_ V then c = identityCost ∧ d = 0
  else match parentSPtr_ V with
       | None => c = infiniteCost ∧ d = 0
       | Some p =>
           ∃ P, h !! p = Some P
                ∧ c = combineCosts (cost_ P) (edgeCost_ V)
                ∧ d = uint_succ (depth_ P)
       end.

Definition consistent (h : gmap ptr (Vertex Cost)) (V : Vertex Cost) : Prop :=
  expected h V (cost_ V) (depth_ V).

Definition cost_cascade_invariant_at (h : gmap ptr (Vertex Cost)) (v : ptr)
    : Prop :=
  ∀ V, h !! v = Some V → consistent h V.

(** [w] is [u] or can be reached from [u] by following child lists: the
    vertices a cascade started at [u] visits. *)
Inductive reaches (h : gmap ptr (Vertex Cost)) : ptr → ptr → Prop :=
| reaches_refl u : reaches h u u
| reaches_child u U c w :
    h !! u = Some U → c ∈ childWPtrs_ U → reaches h c w → reaches h u w.

(** Every vertex whose parent a cascade from [u] visits is listed among
    the children of that parent. *)
Definition registered (h : gmap ptr (Vertex Cost)) (u : ptr) : Prop :=
  ∀ x X p, h !! x = Some X → parentSPtr_ X = Some p → reaches h u p →
           ∃ P, h !! p = Some P ∧ x ∈ childWPtrs_ P.

(** [w] is [v] or a descendant of [v] in the tree: linked from [v] through
    child lists whose members name the listing vertex as their parent. *)
Inductive in_subtree (h : gmap ptr (Vertex Cost)) (v : ptr) : ptr → Prop :=
| in_subtree_self : in_subtree h v v
| in_subtree_child u U w W :
    in_subtree h v u → h !! u = Some U → w ∈ childWPtrs_ U →
    h !! w = Some W → parentSPtr_ W = Some u → isRoot_ W = false →
    in_subtree h v w.


(** Two heaps hold the same objects up to their [cost_] and [depth_]. *)
Definition same_links (V V' : Vertex Cost) : Prop :=
  V' = set_depth (depth_ V') (set_cost (cost_ V') V).

Definition same_shape (h h' : gmap ptr (Vertex Cost)) : Prop :=
  ∀ q, match h !! q, h' !! q with
       | Some V, Some V' => same_links V V'
       | None, None => True
       | _, _ => False
       end.

(** The ids of the vertices a child list points to. *)
Definition child_ids (h : gmap ptr (Vertex Cost)) (l : list ptr)
    : list (option Z) :=
  (λ c, vId_ <$> h !! c) <$> l.

(** The child list of [v] in [h2] is as long as in [h] and points to
    vertices with the same ids, as a multiset. *)
Definition children_restored (h h2 : gmap ptr (Vertex Cost)) (v : ptr)
    : Prop :=
  ∃ V V2, h !! v = Some V ∧ h2 !! v = Some V2
          ∧ length (childWPtrs_ V2) = length (childWPtrs_ V)
          ∧ child_ids h2 (childWPtrs_ V2) ≡ₚ child_ids h (childWPtrs_ V).

(** The slot at which [removeChild]'s scan stops when it looks for the id
    [id]: the first child that carries it. *)
Fixpoint first_match (h : gmap ptr (Vertex Cost)) (id : Z) (l : list ptr)
    : option nat :=
  match l with
  | [] => None
  | x :: l' =>
      match h !! x with
      | Some X => if Z.eqb (vId_ X) id then Some O
                  else S <$> first_match h id l'
      | None => S <$> first_match h id l'
      end
  end.

(** A child that [removeChild]'s scan can inspect: the pointer has not
    expired and, where the pruned-vertex assertion is compiled in, the child
    is not pruned. *)
Definition inspectable (debug : bool) (h : gmap ptr (Vertex Cost)) (c : ptr)
    : Prop :=
  ∃ C, h !! c = Some C ∧ (debug = true → isPruned_ C = false).

(** The mutators that end in a cascading [updateCostAndDepth], and the
    vertex the cascade starts from. *)
Inductive mutation :=
| MutAddParent (v newParent : ptr) (edgeInCost : Cost)
| MutRemoveParent (v : ptr)
| MutAddChild (v newChild : ptr)
| MutRemoveChild (v oldChild : ptr)
| MutUpdateCostAndDepth (v : ptr).

Definition mutate (debug : bool) (fuel : nat) (m : mutation) : M Cost unit :=
  match m with
  | MutAddParent v p e => addParent debug fuel v p e true
  | MutRemoveParent v => removeParent debug fuel v true
  | MutAddChild v c => addChild debug fuel v c true
  | MutRemoveChild v c => removeChild debug fuel v c true
  | MutUpdateCostAndDepth v => updateCostAndDepth debug fuel v true
  end.

Definition cascade_root (m : mutation) : ptr :=
  match m with
  | MutAddParent v _ _ => v
  | MutRemoveParent v => v
  | MutAddChild _ c => c
  | MutRemoveChild _ c => c
  | MutUpdateCostAndDepth v => v
  end.

(** *** What a cascade establishes

    [cascades run]: a run of [run] from [c] that returns leaves the
    invariant at every vertex where it held and at every vertex reachable
    from [c]. *)

Definition cascades (run : ptr → M Cost unit) : Prop :=
  ∀ c h h', registered h c → run c h = (h', Ok tt) →
    ∀ w, cost_cascade_invariant_at h w ∨ reaches h c w →
         cost_cascade_invariant_at h' w.

Definition shape_preserving (run : ptr → M Cost unit) : Prop :=
  ∀ c h h' r, run c h = (h', r) → same_shape h h'.

(** A vertex whose cost and depth [recompute] can compute: it is the
    root, or it has no parent (and, where the cascade from such a vertex is
    refused, no children), or it has a live parent whose cost and depth
    the getters hand out. *)
Definition recomputable (debug : bool) (h : gmap ptr (Vertex Cost))
    (U : Vertex Cost) : Prop :=
  isRoot_ U = true
  ∨ (parentSPtr_ U = None ∧ (debug = true → childWPtrs_ U = []))
  ∨ ∃ p P, parentSPtr_ U = Some p ∧ h !! p = Some P
           ∧ (debug = true →
              isPruned_ P = false
              ∧ (isRoot_ P = true ∨ is_Some (parentSPtr_ P))).

(** The child lists below [u] form a tree of height at most [n] of live
    vertices that can be recomputed. *)
Fixpoint cascadable (debug : bool) (h : gmap ptr (Vertex Cost)) (n : nat)
    (u : ptr) : Prop :=
  ∃ U, h !! u = Some U
       ∧ (debug = true → isPruned_ U = false)
       ∧ recomputable debug h U
       ∧ match n with
         | O => childWPtrs_ U = []
         | S n' => Forall (cascadable debug h n') (childWPtrs_ U)
         end.

(** The vertex [v] is disconnected and carries the infinite cost and depth
    0. *)
Definition pinned (v : ptr) (h : gmap ptr (Vertex Cost)) : Prop :=
  ∃ V, h !! v = Some V ∧ isRoot_ V = false ∧ parentSPtr_ V = None
       ∧ cost_ V = infiniteCost ∧ depth_ V = 0.

(** Two heaps hold the same objects up to everything but their ids and
    pruned flags. *)
Definition same_identity (h h' : gmap ptr (Vertex Cost)) : Prop :=
  ∀ q, match h !! q, h' !! q with
       | Some X, Some X' => vId_ X' = vId_ X ∧ isPruned_ X' = isPruned_ X
       | None, None => True
       | _, _ => False
       end.

(** Every vertex with a parent is listed in the child list of that
    parent. *)
Definition fully_registered (h : gmap ptr (Vertex Cost)) : bool :=
  forallb (λ xX : ptr * Vertex Cost,
             match parentSPtr_ xX.2 with
             | None => true
             | Some p =>
                 match h !! p with
                 | Some P => bool_decide (xX.1 ∈ childWPtrs_ P)
                 | None => false
                 end
             end)
          (map_to_list h).

End CascadeSpec.

Arguments mutation Cost : clear implicits.

(** ** The time-indexed validity check (StateValidityChecker)

    [isValid(state)] and [areStatesValid(state, other)] are virtual and
    supplied by the user of the library; the checker stores the dynamic
    obstacles by integer time key and the factor that scales a time into a
    key.  Times are IEEE 754 binary64 numbers. *)

Definition double := spec_float.
Definition double_mul : double → double → double := SFmul 53 1024.

(** [std::round]: the nearest integral value, halfway cases away from
    zero.  [None] stands for the values that have none (NaN, infinities). *)
Definition std_round (x : double) : option Z :=
  match x with
  | S754_zero _ => Some 0
  | S754_finite s m e =>
      Some (cond_Zopp s
              (if 0 <=? e then Z.pos m * 2 ^ e
               else (Z.pos m + 2 ^ (- e - 1)) / 2 ^ (- e)))
  | S754_infinity _ | S754_nan => None
  end.

Definition INT_MIN : Z := - 2 ^ 31.
Definition INT_MAX : Z := 2 ^ 31 - 1.

(** Conversion of an integral [double] to [int]; the behaviour is undefined
    ([None]) when the value does not fit. *)
Definition to_int (r : option Z) : option Z :=
  match r with
  | Some z => if (INT_MIN <=? z) && (z <=? INT_MAX) then Some z else None
  | None => None
  end.



Section StateValidityChecker.

Context {State SpaceInformationPtr : Type}.

(** Modelled from the spec: the data members of the checker, whose class
    declaration (StateValidityChecker.h) is not among the sources.  The
    dynamic obstacles are a map from integer time keys to the obstacles
    (space information and state of another robot) present at that time;
    [isValid] and [areStatesValid] are the two virtual functions. *)
Record StateValidityChecker := mkChecker {
  isValid : State → bool;
  areStatesValid : State → SpaceInformationPtr * State → bool;
  dynObstacles_ : gmap Z (list (SpaceInformationPtr * State));
  scalingFactor_ : double
}.

(** [int t_key = std::round(time * scalingFactor_)]. *)
Definition t_key (c : StateValidityChecker) (time : double) : option Z :=
  to_int (std_round (double_mul time (scalingFactor_ c))).

(** The loop over the obstacles stored under one key. *)
Fixpoint obstaclesValid (c : StateValidityChecker) (state : State)
    (obs : list (SpaceInformationPtr * State)) : bool :=
  match obs with
  | [] => true
  | st :: obs' =>
      if negb (areStatesValid c state st) then false
      else obstaclesValid c state obs'
  end.

(** [isValid(state, time)].  The result is [None] when the key conversion
    has undefined behaviour. *)
Definition isValid_time (c : StateValidityChecker) (state : State)
    (time : double) : option bool :=
  if bool_decide (dynObstacles_ c = ∅) then Some (isValid c state)
  else if isValid c state then
    match t_key c time with
    | None => None
    | Some k =>
        match dynObstacles_ c !! k with
        | Some obsAtTime => Some (obstaclesValid c state obsAtTime)
        | None => Some true
        end
    end
  else Some false.

End StateValidityChecker.

Arguments StateValidityChecker State SpaceInformationPtr : clear implicits.

(** ** What the operations read and write

    Relations between the heap before and the heap after a call, and the
    shapes of the child lists that matter to the cascade. *)

Section Footprints.

Context {Cost : Type} `{CostHelper Cost}.

(** The operations that return a value: the getters and the queries of
    the flags. *)
Definition query_operation (op : operation Cost) : bool :=
  match op with
  | OpGetId | OpStateConst | OpState | OpIsRoot | OpHasParent | OpIsInTree
  | OpGetDepth | OpGetParentConst | OpGetParent | OpHasChildren
  | OpGetChildrenConst | OpGetChildren | OpGetCost | OpGetEdgeInCost
  | OpIsNew | OpHasBeenExpandedToSamples | OpHasBeenExpandedToVertices
  | OpIsPruned => true
  | _ => false
  end.

(** The operations that set or clear a lifecycle flag. *)
Definition mark_operation (op : operation Cost) : bool :=
  match op with
  | OpMarkNew | OpMarkOld | OpMarkExpandedToSamples
  | OpMarkUnexpandedToSamples | OpMarkExpandedToVertices
  | OpMarkUnexpandedToVertices | OpMarkPruned | OpMarkUnpruned => true
  | _ => false
  end.

(** [writes R m]: every run of [m], however it ends, takes a heap to a
    heap that [R] relates to it. *)
Definition writes {A} (R : relation (gmap ptr (Vertex Cost)))
    (m : M Cost A) : Prop :=
  ∀ h h' r, m h = (h', r) → R h h'.

(** [V'] is [V] up to its links and flags: the id, the state, the root
    flag, the cost and the depth are the same. *)
Definition same_core (V V' : Vertex Cost) : Prop :=
  vId_ V' = vId_ V ∧ state_ V' = state_ V ∧ isRoot_ V' = isRoot_ V
  ∧ cost_ V' = cost_ V ∧ depth_ V' = depth_ V.

(** What a call on [v] can change in the heap of the model: the entries
    stay, no id, state or root flag changes, and a vertex other than [v]
    changes in its cost and depth at most. *)
Definition footprint (v : ptr) (h h' : gmap ptr (Vertex Cost)) : Prop :=
  ∀ q, match h !! q, h' !! q with
       | Some X, Some X' =>
           vId_ X' = vId_ X ∧ state_ X' = state_ X ∧ isRoot_ X' = isRoot_ X
           ∧ (q ≠ v → same_links X X')
       | None, None => True
       | _, _ => False
       end.

(** [X'] is [X] up to the lifecycle flags [isNew_],
    [hasBeenExpandedToSamples_], [hasBeenExpandedToVertices_] and
    [isPruned_]. *)
Definition same_tree (X X' : Vertex Cost) : Prop :=
  vId_ X' = vId_ X ∧ state_ X' = state_ X ∧ isRoot_ X' = isRoot_ X
  ∧ depth_ X' = depth_ X ∧ parentSPtr_ X' = parentSPtr_ X
  ∧ edgeCost_ X' = edgeCost_ X ∧ cost_ X' = cost_ X
  ∧ childWPtrs_ X' = childWPtrs_ X.

(** The heaps differ in the lifecycle flags of [v] at most. *)
Definition flags_only (v : ptr) (h h' : gmap ptr (Vertex Cost)) : Prop :=
  ∀ q, match h !! q, h' !! q with
       | Some X, Some X' => same_tree X X' ∧ (q ≠ v → X' = X)
       | None, None => True
       | _, _ => False
       end.

(** [u] can be reached from one of its own children through the child
    lists. *)
Definition on_cycle (h : gmap ptr (Vertex Cost)) (u : ptr) : Prop :=
  ∃ U c, h !! u = Some U ∧ c ∈ childWPtrs_ U ∧ reaches h c u.

(** [descends h r w n c]: [w] is [n] levels below the root [r], along
    child lists whose members name the listing vertex as their parent, and
    [c] is the identity cost combined with the edge costs on the way down
    to [w]. *)
Inductive descends (h : gmap ptr (Vertex Cost)) (r : ptr)
    : ptr → nat → Cost → Prop :=
| descends_root R :
    h !! r = Some R → isRoot_ R = true → descends h r r 0 identityCost
| descends_child u U w W n c :
    descends h r u n c → h !! u = Some U → w ∈ childWPtrs_ U →
    h !! w = Some W → parentSPtr_ W = Some u → isRoot_ W = false →
    descends h r w (S n) (combineCosts c (edgeCost_ W)).

(** Every root carries the identity cost and depth 0. *)
Definition roots_normal (h : gmap ptr (Vertex Cost)) : Prop :=
  ∀ w W, h !! w = Some W → isRoot_ W = true →
         cost_ W = identityCost ∧ depth_ W = 0.

End Footprints.

(** ** Construction of a vertex (Vertex.cpp, lines 81-98) *)

Section Constructor.

Context {Cost : Type} `{CostHelper Cost}.

Variable BITSTAR_DEBUG : bool.

(** The members that the constructor does not mention take the value of
    their default member initializer in Vertex.h, which is not among the
    sources; these values are a parameter. *)
Record member_initializers := mkInitializers {
  init_isNew : bool;
  init_hasBeenExpandedToSamples : bool;
  init_hasBeenExpandedToVertices : bool;
  init_isPruned : bool;
  init_depth : Z
}.

(** The object after the member initializer list: the id is the one the
    id generator handed out and the state the one [si_->allocState()]
    returned (IdGenerator.h and the space information are not among the
    sources, so both are arguments); both costs are infinite; the parent
    pointer and the vector of children are default-constructed, that is
    empty. *)
Definition initialized (inits : member_initializers) (newId : Z)
    (newState : nat) (root : bool) : Vertex Cost :=
  mkVertex newId newState root (init_isNew inits)
    (init_hasBeenExpandedToSamples inits)
    (init_hasBeenExpandedToVertices inits) (init_isPruned inits)
    (init_depth inits) None infiniteCost infiniteCost [].

(** [BITstar::Vertex::Vertex(si, costHelpPtr, root)], run on the storage
    at the address [this]: after the member initializers the body asks
    [isRoot()] and gives a root the identity cost.  An exception that leaves
    the constructor leaves no object behind. *)
Definition Vertex_Vertex (inits : member_initializers) (this : ptr)
    (newId : Z) (newState : nat) (root : bool) : M Cost unit :=
  fun h =>
    match (r <- isRoot BITSTAR_DEBUG this ;;
           if r then modify this (set_cost identityCost) else ret tt)
            (<[this := initialized inits newId newState root]> h) with
    | (h', Ok a) => (h', Ok a)
    | (h', Fail f) => (delete this h', Fail f)
    end.

End Constructor.

(** ** Clearing the dynamic obstacles (StateValidityChecker) *)

Section ClearDynamicObstacles.

Context {State SpaceInformationPtr : Type}.

(** [clearDynamicObstacles()]: every stored state is freed through the
    space information stored with it, then the table is cleared.  The
    result is the list of the calls [si->freeState(state)] made, entry by
    entry in the order in which the table hands out its keys, and the
    checker with the empty table. *)
Definition clearDynamicObstacles
    (c : StateValidityChecker State SpaceInformationPtr)
    : list (SpaceInformationPtr * State)
      * StateValidityChecker State SpaceInformationPtr :=
  (mjoin (snd <$> map_to_list (dynObstacles_ c)),
   mkChecker (isValid c) (areStatesValid c) ∅ (scalingFactor_ c)).

End ClearDynamicObstacles.

(** A [double] that is a number: neither NaN nor infinite. *)
Definition finite_double (x : double) : bool :=
  match x with
  | S754_zero _ | S754_finite _ _ _ => true
  | S754_infinity _ | S754_nan => false
  end.

(** ** The checker of the multi-robot demo
    (MultiRobotRigidBodyPlanning.cpp, class MyDemoStateValidityChecker)

    The two virtual functions of the demo compare addresses only.  A state
    is the address of a state object; [component state i] is the address
    of its [i]-th component ([state->as<T>(i)] of a compound state, whose
    class is not among the sources). *)

Section MyDemoStateValidityChecker.

Context {SpaceInformationPtr : Type}.

Variable component : ptr → nat → ptr.

(** [isValid(state)]: [(const void* )rot != (const void* )pos], where [pos]
    is component 0 and [rot] component 1 of the state. *)
Definition MyDemo_isValid (state : ptr) : bool :=
  let pos := component state 0 in
  let rot := component state 1 in
  negb (Nat.eqb rot pos).

(** [areStatesValid(state1, state2)]:
    [(const void* )robot1_state != (const void* )robot2_state]. *)
Definition MyDemo_areStatesValid (state1 : ptr)
    (state2 : SpaceInformationPtr * ptr) : bool :=
  let robot1_state := state1 in
  let robot2_state := state2.2 in
  negb (Nat.eqb robot1_state robot2_state).

Definition MyDemoStateValidityChecker
    (dynObstacles : gmap Z (list (SpaceInformationPtr * ptr)))
    (scalingFactor : double) : StateValidityChecker ptr SpaceInformationPtr :=
  mkChecker MyDemo_isValid MyDemo_areStatesValid dynObstacles scalingFactor.

End MyDemoStateValidityChecker.

(** ** Concrete costs, heaps and checkers

    Additive costs with a point at infinity, a small search tree and a
    validity checker for a robot on the integer line. *)

Inductive ecost := Finite (n : Z) | Infinite.

#[export] Instance additive_costs : CostHelper ecost := {
  identityCost := Finite 0;
  infiniteCost := Infinite;
  combineCosts a b :=
    match a, b with
    | Finite x, Finite y => Finite (x + y)
    | _, _ => Infinite
    end
}.

Definition example_vertex (id : Z) (root : bool) (parent : option ptr)
    (edge cost : ecost) (depth : Z) (children : list ptr) (pruned : bool)
    : Vertex ecost :=
  mkVertex id 0%nat root true false false pruned depth parent edge cost
    children.

Definition tree_heap : gmap ptr (Vertex ecost) :=
  <[1%nat := example_vertex 1 true None Infinite (Finite 0) 0 [2%nat] false]>
  (<[2%nat := example_vertex 2 false (Some 1%nat) (Finite 3) (Finite 3) 1
                             [3%nat] false]>
  (<[3%nat := example_vertex 3 false (Some 2%nat) (Finite 4) (Finite 7) 2
                             [] false]>
  (<[4%nat := example_vertex 4 true None Infinite (Finite 0) 0 [] false]> ∅))).

Definition tree_after : gmap ptr (Vertex ecost) :=
  <[1%nat := example_vertex 1 true None Infinite (Finite 0) 0 [2%nat] false]>
  (<[2%nat := example_vertex 2 false None (Finite 3) Infinite 0
                             [3%nat] false]>
  (<[3%nat := example_vertex 3 false (Some 2%nat) (Finite 4) Infinite 1
                             [] false]>
  (<[4%nat := example_vertex 4 true None Infinite (Finite 0) 0 [] false]> ∅))).

(** Four vertices as the constructor leaves them: two roots (at 1 and 4)
    and two disconnected vertices (at 2 and 3). *)
Definition fresh_heap : gmap ptr (Vertex ecost) :=
  <[1%nat := example_vertex 1 true None Infinite (Finite 0) 0 [] false]>
  (<[2%nat := example_vertex 2 false None Infinite Infinite 0 [] false]>
  (<[3%nat := example_vertex 3 false None Infinite Infinite 0 [] false]>
  (<[4%nat := example_vertex 4 true None Infinite (Finite 0) 0 [] false]> ∅))).

(** The calls a planner makes to hang the vertex at 2 below the root at 1
    with edge cost 3 and the vertex at 3 below it with edge cost 4, and
    the calls that move the vertex at 2 below the root at 4 with edge cost
    1. *)
Definition build_tree (debug : bool) : M ecost unit :=
  addChild debug 5 1%nat 2%nat false ;;;
  addParent debug 5 2%nat 1%nat (Finite 3) true ;;;
  addChild debug 5 2%nat 3%nat false ;;;
  addParent debug 5 3%nat 2%nat (Finite 4) true.

Definition rewire (debug : bool) : M ecost unit :=
  removeChild debug 5 1%nat 2%nat false ;;;
  removeParent debug 5 2%nat false ;;;
  addChild debug 5 4%nat 2%nat false ;;;
  addParent debug 5 2%nat 4%nat (Finite 1) true.

(** [tree_heap] with the vertex at address 2 marked as pruned. *)
Definition pruned_heap : gmap ptr (Vertex ecost) :=
  <[2%nat := example_vertex 2 false (Some 1%nat) (Finite 3) (Finite 3) 1
                            [3%nat] true]> tree_heap.

(** [tree_heap] with an out-of-date cost and depth at address 3. *)
Definition stale_heap : gmap ptr (Vertex ecost) :=
  <[3%nat := example_vertex 3 false (Some 2%nat) (Finite 4) (Finite 100) 9
                            [] false]> tree_heap.

(** The vertex at 2 detached from the root at 1 and listed as a child of
    the root at 4, before [addParent] is called on it. *)
Definition reparent_heap : gmap ptr (Vertex ecost) :=
  <[1%nat := example_vertex 1 true None Infinite (Finite 0) 0 [] false]>
  (<[2%nat := example_vertex 2 false None (Finite 3) Infinite 0
                             [3%nat] false]>
  (<[3%nat := example_vertex 3 false (Some 2%nat) (Finite 4) Infinite 1
                             [] false]>
  (<[4%nat := example_vertex 4 true None Infinite (Finite 0) 0 [2%nat] false]>
   ∅))).

Definition reparented_heap : gmap ptr (Vertex ecost) :=
  <[1%nat := example_vertex 1 true None Infinite (Finite 0) 0 [] false]>
  (<[2%nat := example_vertex 2 false (Some 4%nat) (Finite 1) (Finite 1) 1
                             [3%nat] false]>
  (<[3%nat := example_vertex 3 false (Some 2%nat) (Finite 4) (Finite 5) 2
                             [] false]>
  (<[4%nat := example_vertex 4 true None Infinite (Finite 0) 0 [2%nat] false]>
   ∅))).

(** The vertex at 3 names the vertex at 2 as its parent, but the vertex at
    2 does not list it as a child ([addParent] without [addChild]). *)
Definition unregistered_heap : gmap ptr (Vertex ecost) :=
  <[2%nat := example_vertex 2 false None Infinite Infinite 0 [] false]>
  (<[3%nat := example_vertex 3 false (Some 2%nat) (Finite 4) Infinite 1
                             [] false]>
  (<[4%nat := example_vertex 4 true None Infinite (Finite 0) 0 [] false]> ∅)).

Definition unregistered_after : gmap ptr (Vertex ecost) :=
  <[2%nat := example_vertex 2 false (Some 4%nat) (Finite 1) (Finite 1) 1
                            [] false]>
  (<[3%nat := example_vertex 3 false (Some 2%nat) (Finite 4) Infinite 1
                             [] false]>
  (<[4%nat := example_vertex 4 true None Infinite (Finite 0) 0 [] false]> ∅)).

(** Binary64 numbers: 0.37, 10 and 1. *)
Definition double_0_37 : double := S754_finite false 6665327448508334 (-54).
Definition double_10 : double := S754_finite false 5629499534213120 (-49).

(** A robot on the integer line that must not share its position with
    another robot; the other robot is at 7 at time key 4. *)
Definition example_checker : StateValidityChecker Z nat :=
  mkChecker (λ _, true) (λ s other, negb (s =? other.2))
            {[ 4 := [(1%nat, 7)] ]} double_10.

Definition static_checker : StateValidityChecker Z nat :=
  mkChecker (λ s, 0 <=? s) (λ s other, negb (s =? other.2)) ∅ double_10.

(** A root at 1 with the children 2, 3 and 4, listed in this order. *)
Definition star_heap : gmap ptr (Vertex ecost) :=
  <[1%nat := example_vertex 1 true None Infinite (Finite 0) 0
                            [2%nat; 3%nat; 4%nat] false]>
  (<[2%nat := example_vertex 2 false (Some 1%nat) (Finite 3) (Finite 3) 1
                             [] false]>
  (<[3%nat := example_vertex 3 false (Some 1%nat) (Finite 4) (Finite 4) 1
                             [] false]>
  (<[4%nat := example_vertex 4 false (Some 1%nat) (Finite 5) (Finite 5) 1
                             [] false]> ∅))).

(** [star_heap] after the vertex at 3 has been destroyed: the root still
    lists it. *)
Definition dangling_heap : gmap ptr (Vertex ecost) := delete 3%nat star_heap.

(** The root at 1 lists the vertex at 2, which lists the root. *)
Definition cyclic_heap : gmap ptr (Vertex ecost) :=
  <[1%nat := example_vertex 1 true None Infinite (Finite 0) 0 [2%nat] false]>
  (<[2%nat := example_vertex 2 false (Some 1%nat) (Finite 3) (Finite 3) 1
                             [1%nat] false]> ∅).


(** The default member initializers of a vertex that is new, not expanded,
    not pruned and at depth 0. *)
Definition example_initializers : member_initializers :=
  mkInitializers true false false false 0.

(** [example_checker] with one more obstacle, stored under key 9. *)
Definition crowded_checker : StateValidityChecker Z nat :=
  mkChecker (λ _, true) (λ s other, negb (s =? other.2))
            {[ 4 := [(1%nat, 7)]; 9 := [(2%nat, 8)] ]} double_10.

(** * Proofs *)

Ltac run_ops :=
  unfold addParent, removeParent, markPruned, markUnpruned, isPruned,
    getDepth, isInTree, hasParent, isRoot, hasChildren, getCost, getId,
    arrow_parentSPtr, expired,
    ASSERT_NOT_PRUNED, assertNotPruned, when, bind, deref, modify, shared,
    ret, throw, failM.

Ltac mred :=
  repeat match goal with
    | E : ?h !! ?v = _ |- context [?h !! ?v] => rewrite E
    | E : isPruned_ ?V = _ |- context [isPruned_ ?V] => rewrite E
    | E : isRoot_ ?V = _ |- context [isRoot_ ?V] => rewrite E
    | E : parentSPtr_ ?V = _ |- context [parentSPtr_ ?V] => rewrite E
    | |- _ => progress cbn [engaged empty negb andb orb]
    | |- _ => progress cbn beta iota
    end.

(** ** Pruned vertices and preconditions *)

Section PrunedVertices.

Context {Cost : Type} `{CostHelper Cost}.

Implicit Types (h : gmap ptr (Vertex Cost)) (V : Vertex Cost).

Lemma ASSERT_NOT_PRUNED_release v h :
  ASSERT_NOT_PRUNED false v h = (h, Ok tt).
Proof. reflexivity. Qed.

Lemma ASSERT_NOT_PRUNED_pruned v h V :
  h !! v = Some V → isPruned_ V = true →
  ASSERT_NOT_PRUNED true v h = (h, Fail (Exception PrunedVertex)).
Proof.
  intros Hv Hp. unfold ASSERT_NOT_PRUNED, when, assertNotPruned, bind, deref.
  rewrite Hv, Hp. reflexivity.
Qed.

Lemma ASSERT_NOT_PRUNED_live debug v h V :
  h !! v = Some V → (debug = true → isPruned_ V = false) →
  ASSERT_NOT_PRUNED debug v h = (h, Ok tt).
Proof.
  intros Hv Hp. destruct debug; [|reflexivity].
  unfold ASSERT_NOT_PRUNED, when, assertNotPruned, bind, deref.
  rewrite Hv, Hp by reflexivity. reflexivity.
Qed.

Lemma guarded_pruned {A} v h V (k : unit → M Cost A) :
  h !! v = Some V → isPruned_ V = true →
  bind (ASSERT_NOT_PRUNED true v) k h = (h, Fail (Exception PrunedVertex)).
Proof.
  intros Hv Hp. unfold bind at 1.
  rewrite (ASSERT_NOT_PRUNED_pruned v h V Hv Hp). reflexivity.
Qed.

Lemma returning_fail {A} (inj : A → value Cost) (m : M Cost A) h h' f :
  m h = (h', Fail f) → returning inj m h = (h', Fail f).
Proof. intros E. unfold returning, bind. rewrite E. reflexivity. Qed.

Lemma returning_ok {A} (inj : A → value Cost) (m : M Cost A) h h' a :
  m h = (h', Ok a) → returning inj m h = (h', Ok (inj a)).
Proof. intros E. unfold returning, bind. rewrite E. reflexivity. Qed.

(** Claim C2, as amended: where [BITSTAR_DEBUG] is defined, every public
    operation on a pruned vertex other than [isPruned] and [markUnpruned]
    throws the pruned-vertex exception and leaves the heap as it was;
    [isPruned] returns true and [markUnpruned] clears the flag. *)
Theorem pruned_vertex_inert_debug fuel v h V :
  h !! v = Some V → isPruned_ V = true →
  (∀ op, flag_operation op = false →
         call true fuel v op h = (h, Fail (Exception PrunedVertex)))
  ∧ call true fuel v OpIsPruned h = (h, Ok (VBool true))
  ∧ call true fuel v OpMarkUnpruned h
    = (<[v := set_isPruned false V]> h, Ok VVoid).
Proof.
  intros Hv Hp. split; [|split].
  - intros op Hop.
    destruct op; try discriminate Hop; cbn [call];
      apply returning_fail; eapply guarded_pruned; eassumption.
  - cbn [call]. apply returning_ok. unfold isPruned, bind, deref.
    rewrite Hv, Hp. reflexivity.
  - cbn [call]. unfold returning, bind, markUnpruned, modify.
    rewrite Hv. reflexivity.
Qed.

(** Claim C9, as amended: where [BITSTAR_DEBUG] is defined, [markPruned]
    on a pruned vertex throws the pruned-vertex exception and on any other
    vertex sets the flag; [markUnpruned] clears the flag of every vertex,
    pruned or not, in every build. *)
Theorem markPruned_guarded_debug v h V :
  h !! v = Some V →
  (isPruned_ V = true →
   markPruned true v h = (h, Fail (Exception PrunedVertex)))
  ∧ (isPruned_ V = false →
     markPruned true v h = (<[v := set_isPruned true V]> h, Ok tt))
  ∧ markUnpruned v h = (<[v := set_isPruned false V]> h, Ok tt).
Proof.
  intros Hv. repeat split.
  - intros Hp. run_ops. mred. reflexivity.
  - intros Hp. run_ops. mred. reflexivity.
  - run_ops. mred. reflexivity.
Qed.

(** Claim C7, as amended: where [BITSTAR_DEBUG] is defined, [addParent] on
    a vertex that is the root or already has a parent throws an exception
    and leaves the heap as it was: no parent is replaced, none is attached
    to the root. *)
Theorem addParent_precondition_debug fuel v newParent edgeInCost b h V :
  h !! v = Some V →
  isRoot_ V = true ∨ is_Some (parentSPtr_ V) →
  ∃ e, addParent true fuel v newParent edgeInCost b h
       = (h, Fail (Exception e))
       ∧ (e = PrunedVertex ∨ e = AddParentHasParent ∨ e = AddParentToRoot).
Proof.
  intros Hv Hpre.
  destruct (isPruned_ V) eqn:Hp.
  - exists PrunedVertex. split; [|auto].
    unfold addParent. eapply guarded_pruned; eassumption.
  - destruct (parentSPtr_ V) as [p|] eqn:Hpar.
    + exists AddParentHasParent. split; [|auto].
      run_ops. mred. reflexivity.
    + destruct Hpre as [Hr|[p Hs]]; [|discriminate Hs].
      exists AddParentToRoot. split; [|auto].
      run_ops. mred. reflexivity.
Qed.

End PrunedVertices.

(** ** The cost propagator *)

Section Recompute.

Context {Cost : Type} `{CostHelper Cost}.
Variable debug : bool.

Implicit Types (h : gmap ptr (Vertex Cost)) (V W P : Vertex Cost).

Lemma bind_inv {A B} (m : M Cost A) (k : A → M Cost B) h h' r :
  bind m k h = (h', r) →
  (∃ f, m h = (h', Fail f) ∧ r = Fail f)
  ∨ (∃ h1 a, m h = (h1, Ok a) ∧ k a h1 = (h', r)).
Proof.
  unfold bind. destruct (m h) as [h1 [a|f]].
  - intros E. right. eauto.
  - intros [= <- <-]. left. eauto.
Qed.

Lemma bind_ok_inv {A B} (m : M Cost A) (k : A → M Cost B) h h' b :
  bind m k h = (h', Ok b) →
  ∃ h1 a, m h = (h1, Ok a) ∧ k a h1 = (h', Ok b).
Proof.
  intros E. apply bind_inv in E as [(f & _ & ?)|E]; [discriminate|exact E].
Qed.

Lemma when_inv (b : bool) (m : M Cost unit) h h' r :
  when b m h = (h', r) →
  (b = false ∧ h' = h ∧ r = Ok tt) ∨ (b = true ∧ m h = (h', r)).
Proof. destruct b; cbn; [eauto|]. intros [= <- <-]. eauto. Qed.

(** The getters do not write, and what they return is read off the
    object. *)
Lemma isRoot_inv v h h' r :
  isRoot debug v h = (h', r) →
  h' = h ∧ ∀ b, r = Ok b → ∃ V, h !! v = Some V ∧ b = isRoot_ V.
Proof.
  run_ops. destruct (h !! v) as [V|] eqn:Hv, debug; mred;
    try destruct (isPruned_ V); mred; intros [= <- <-];
    (split; [reflexivity|]); intros b [=]; subst; eauto.
Qed.

Lemma hasParent_inv v h h' r :
  hasParent debug v h = (h', r) →
  h' = h ∧ ∀ b, r = Ok b → ∃ V, h !! v = Some V ∧ b = engaged (parentSPtr_ V).
Proof.
  run_ops. destruct (h !! v) as [V|] eqn:Hv, debug; mred;
    try destruct (isPruned_ V); mred; intros [= <- <-];
    (split; [reflexivity|]); intros b [=]; subst; eauto.
Qed.

Lemma hasChildren_inv v h h' r :
  hasChildren debug v h = (h', r) →
  h' = h ∧ ∀ b, r = Ok b → ∃ V, h !! v = Some V ∧ b = negb (empty (childWPtrs_ V)).
Proof.
  run_ops. destruct (h !! v) as [V|] eqn:Hv, debug; mred;
    try destruct (isPruned_ V); mred; intros [= <- <-];
    (split; [reflexivity|]); intros b [=]; subst; eauto.
Qed.

Lemma getCost_inv v h h' r :
  getCost debug v h = (h', r) →
  h' = h ∧ ∀ c, r = Ok c → ∃ V, h !! v = Some V ∧ c = cost_ V.
Proof.
  run_ops. destruct (h !! v) as [V|] eqn:Hv, debug; mred;
    try destruct (isPruned_ V); mred; intros [= <- <-];
    (split; [reflexivity|]); intros b [=]; subst; eauto.
Qed.

Lemma getDepth_inv v h h' r :
  getDepth debug v h = (h', r) →
  h' = h ∧ ∀ d, r = Ok d → ∃ V, h !! v = Some V ∧ d = depth_ V.
Proof.
  run_ops. destruct (h !! v) as [V|] eqn:Hv, debug; mred;
    try destruct (isPruned_ V) eqn:?, (isRoot_ V) eqn:?,
                 (parentSPtr_ V) eqn:?; mred;
    intros [= <- <-];
    (split; [reflexivity|]); intros b [=]; subst; eauto.
Qed.

Lemma getId_inv v h h' r :
  getId debug v h = (h', r) →
  h' = h ∧ ∀ i, r = Ok i → ∃ V, h !! v = Some V ∧ i = vId_ V.
Proof.
  run_ops. destruct (h !! v) as [V|] eqn:Hv, debug; mred;
    try destruct (isPruned_ V); mred; intros [= <- <-];
    (split; [reflexivity|]); intros b [=]; subst; eauto.
Qed.

Lemma arrow_parentSPtr_inv v h h' r :
  arrow_parentSPtr v h = (h', r) →
  h' = h ∧ ∀ p, r = Ok p → ∃ V, h !! v = Some V ∧ parentSPtr_ V = Some p.
Proof.
  run_ops. destruct (h !! v) as [V|] eqn:Hv; mred;
    try destruct (parentSPtr_ V) eqn:?; mred; intros [= <- <-];
    (split; [reflexivity|]); intros b [=]; subst; eauto.
Qed.

Lemma modify_inv v f h h' r :
  modify v f h = (h', r) →
  (∃ V, h !! v = Some V ∧ h' = <[v := f V]> h ∧ r = Ok tt)
  ∨ (h !! v = None ∧ h' = h ∧ r = Fail NullDereference).
Proof.
  unfold modify. destruct (h !! v) as [V|]; intros [= <- <-]; eauto.
Qed.

Lemma recompute_cases w b h h1 r :
  recompute debug w b h = (h1, r) →
  (h1 = h ∧ r ≠ Ok tt)
  ∨ ∃ W c d, h !! w = Some W
      ∧ h1 = <[w := set_depth d (set_cost c W)]> h
      ∧ (expected h W c d
         ∨ (r ≠ Ok tt ∧ isRoot_ W = false ∧ is_Some (parentSPtr_ W)
            ∧ d = depth_ W)).
Proof.
  intros E. unfold recompute in E.
  apply bind_inv in E as [(f & E1 & ->)|(h0 & r0 & E1 & E)];
    apply isRoot_inv in E1 as [-> Hr].
  { left. split; congruence. }
  destruct (Hr _ eq_refl) as (W & Hw & ->). clear Hr.
  destruct (isRoot_ W) eqn:Hroot.
  { right. exists W, identityCost, 0.
    unfold bind, modify in E. rewrite Hw in E. cbn in E.
    rewrite lookup_insert_eq, insert_insert_eq in E.
    injection E as <- <-. repeat split; [done|].
    left. unfold expected. rewrite Hroot. done. }
  apply bind_inv in E as [(f & E1 & ->)|(h0 & p0 & E1 & E)];
    apply hasParent_inv in E1 as [-> Hp].
  { left. split; congruence. }
  destruct (Hp _ eq_refl) as (W' & Hw' & ->). clear Hp.
  assert (W' = W) as -> by congruence. clear Hw'.
  destruct (parentSPtr_ W) as [p|] eqn:Hpar; cbn [engaged negb] in E.
  - (* the vertex has a parent *)
    apply bind_inv in E as [(f & E1 & ->)|(h0 & pc & E1 & E)].
    { apply bind_inv in E1 as [(f' & E1 & _)|(h0 & p' & E1 & E2)].
      - apply arrow_parentSPtr_inv in E1 as [-> _]. left. split; congruence.
      - apply arrow_parentSPtr_inv in E1 as [-> _].
        apply getCost_inv in E2 as [-> _]. left. split; congruence. }
    apply bind_ok_inv in E1 as (h0' & p' & E1 & E2).
    apply arrow_parentSPtr_inv in E1 as [-> Hp'].
    destruct (Hp' _ eq_refl) as (W' & Hw' & Hpar'). clear Hp'.
    assert (W' = W) as -> by congruence. clear Hw'.
    assert (p' = p) as -> by congruence. clear Hpar'.
    apply getCost_inv in E2 as [-> Hc].
    destruct (Hc _ eq_refl) as (P & HP & ->). clear Hc.
    right. exists W, (combineCosts (cost_ P) (edgeCost_ W)).
    unfold bind at 1 in E. unfold modify at 1 in E. rewrite Hw in E.
    set (W1 := set_cost (combineCosts (cost_ P) (edgeCost_ W)) W) in *.
    assert (Hw1 : <[w := W1]> h !! w = Some W1) by apply lookup_insert_eq.
    apply bind_inv in E as [(f & E1 & ->)|(h0 & pd & E1 & E)].
    { exists (depth_ W). split; [done|]. split.
      - apply bind_inv in E1 as [(f' & E1 & _)|(h0 & p' & E1 & E2)].
        + apply arrow_parentSPtr_inv in E1 as [-> _]. done.
        + apply arrow_parentSPtr_inv in E1 as [-> _].
          apply getDepth_inv in E2 as [-> _]. done.
      - right. rewrite Hpar. split; [congruence|]. eauto. }
    apply bind_ok_inv in E1 as (h0' & p' & E1 & E2).
    apply arrow_parentSPtr_inv in E1 as [-> Hp'].
    destruct (Hp' _ eq_refl) as (W' & Hw' & Hpar'). clear Hp'.
    assert (W' = W1) as -> by congruence.
    assert (p' = p) as -> by (cbn in Hpar'; congruence).
    apply getDepth_inv in E2 as [-> Hd].
    destruct (Hd _ eq_refl) as (P2 & HP2 & ->). clear Hd.
    unfold modify in E. rewrite Hw1 in E. injection E as <- <-.
    rewrite insert_insert_eq.
    exists (uint_succ (depth_ P2)). split; [done|]. split; [done|].
    left. unfold expected. rewrite Hroot, Hpar. exists P.
    split; [done|]. split; [done|].
    destruct (decide (p = w)) as [->|Hne].
    + rewrite Hw1 in HP2. injection HP2 as <-.
      assert (P = W) as -> by congruence. done.
    + rewrite lookup_insert_ne in HP2 by congruence.
      assert (P2 = P) as -> by congruence. done.
  - (* disconnected *)
    right. exists W, infiniteCost, 0. split; [done|].
    unfold bind at 1 2 in E. unfold modify in E. rewrite Hw in E. cbn in E.
    rewrite lookup_insert_eq, insert_insert_eq in E.
    split.
    + apply when_inv in E as [(_ & -> & _)|[_ E]]; [done|].
      apply bind_inv in E as [(f & E1 & ->)|(h0 & c & E1 & E)];
        apply hasChildren_inv in E1 as [-> _]; [done|].
      destruct (c && b); by injection E as <- <-.
    + left. unfold expected. rewrite Hroot, Hpar. done.
Qed.

Lemma ASSERT_NOT_PRUNED_inv v h h' r :
  ASSERT_NOT_PRUNED debug v h = (h', r) →
  h' = h ∧ (r = Ok tt →
            debug = true → ∃ V, h !! v = Some V ∧ isPruned_ V = false).
Proof.
  run_ops. destruct debug; [|intros [= <- <-]; split; [done|congruence]].
  destruct (h !! v) as [V|] eqn:Hv; mred;
    [destruct (isPruned_ V) eqn:?|]; mred; intros [= <- <-];
    (split; [done|]); intros; try discriminate; eauto.
Qed.

Lemma deref_inv v h h' r :
  deref v h = (h', r) → h' = h ∧ ∀ V, r = Ok V → h !! v = Some V.
Proof.
  unfold deref. destruct (h !! v); intros [= <- <-];
    (split; [done|]); congruence.
Qed.

Lemma check_expired_inv e c h h' r :
  bind (expired c) (λ x, if x then throw e else ret tt) h = (h', r) →
  h' = h ∧ (r = Ok tt → is_Some (h !! c)).
Proof.
  unfold bind, expired, throw, failM, ret.
  destruct (h !! c); cbn; intros [= <- <-]; (split; [done|]); eauto.
  discriminate.
Qed.

(** *** Invariants of the propagator

    A property of heaps that every run of [recompute] keeps is kept by the
    whole cascade, however it ends. *)

Section Preservation.

Variable J : gmap ptr (Vertex Cost) → Prop.

Hypothesis recompute_keeps :
  ∀ w b h h1 r, recompute debug w b h = (h1, r) → J h → J h1.

Lemma forEach_keeps (body : ptr → M Cost unit) :
  (∀ c h h' r, body c h = (h', r) → J h → J h') →
  ∀ l h h' r, forEach body l h = (h', r) → J h → J h'.
Proof.
  intros Hbody. induction l as [|c l IH]; intros h h' r E Hj.
  - by injection E as <- <-.
  - cbn [forEach] in E.
    apply bind_inv in E as [(f & E1 & ->)|(h0 & [] & E1 & E)]; eauto.
Qed.

Lemma updateCostAndDepth_body_keeps self :
  (∀ c h h' r, self c h = (h', r) → J h → J h') →
  ∀ u b h h' r,
    updateCostAndDepth_body debug self u b h = (h', r) → J h → J h'.
Proof.
  intros Hself u b h h' r E Hj. unfold updateCostAndDepth_body in E.
  apply bind_inv in E as [(f & E1 & ->)|(h0 & [] & E1 & E)];
    apply ASSERT_NOT_PRUNED_inv in E1 as [-> _]; [done|].
  apply bind_inv in E as [(f & E1 & ->)|(h0 & [] & E1 & E)];
    apply recompute_keeps in E1; try done.
  destruct b; [|by injection E as <- <-].
  apply bind_inv in E as [(f & E2 & ->)|(h2 & U & E2 & E)];
    apply deref_inv in E2 as [-> _]; [done|].
  revert E E1. apply forEach_keeps. clear -Hself.
  intros c h h' r E Hj.
  apply bind_inv in E as [(f & E1 & ->)|(h0 & [] & E1 & E)].
  - apply when_inv in E1 as [(_ & -> & _)|[_ E1]]; [done|].
    by apply check_expired_inv in E1 as [-> _].
  - apply when_inv in E1 as [(_ & -> & _)|[_ E1]]; [eauto|].
    apply check_expired_inv in E1 as [-> _]. eauto.
Qed.

Lemma updateCostAndDepth_keeps fuel :
  ∀ u b h h' r,
    updateCostAndDepth debug fuel u b h = (h', r) → J h → J h'.
Proof.
  induction fuel as [|fuel IH]; intros u b h h' r; cbn [updateCostAndDepth];
    apply updateCostAndDepth_body_keeps.
  - by intros c h0 h0' r0 [= <- <-].
  - intros c h0 h0' r0. apply IH.
Qed.

End Preservation.

(** *** The cascade writes costs and depths only *)

Lemma same_links_refl V : same_links V V.
Proof. by destruct V. Qed.

Lemma same_shape_refl h : same_shape h h.
Proof. intros q. destruct (h !! q); [apply same_links_refl|done]. Qed.

Lemma same_shape_trans h1 h2 h3 :
  same_shape h1 h2 → same_shape h2 h3 → same_shape h1 h3.
Proof.
  intros H12 H23 q. specialize (H12 q). specialize (H23 q).
  destruct (h1 !! q) as [V1|], (h2 !! q) as [V2|], (h3 !! q) as [V3|];
    try done.
  unfold same_links in *. rewrite H23, H12. by destruct V1.
Qed.

Lemma same_shape_sym h1 h2 : same_shape h1 h2 → same_shape h2 h1.
Proof.
  intros H12 q. specialize (H12 q).
  destruct (h1 !! q) as [V1|], (h2 !! q) as [V2|]; try done.
  unfold same_links in *. rewrite H12. by destruct V1.
Qed.

Lemma same_shape_write h w W c d :
  h !! w = Some W → same_shape h (<[w := set_depth d (set_cost c W)]> h).
Proof.
  intros Hw q. destruct (decide (w = q)) as [<-|Hne].
  - rewrite Hw, lookup_insert_eq. done.
  - rewrite lookup_insert_ne by done.
    destruct (h !! q); [apply same_links_refl|done].
Qed.

Lemma recompute_same_shape h0 w b h h1 r :
  recompute debug w b h = (h1, r) → same_shape h0 h → same_shape h0 h1.
Proof.
  intros E Hs. apply recompute_cases in E as [[-> _]|(W & c & d & Hw & -> & _)];
    [done|].
  eapply same_shape_trans; [exact Hs|]. by apply same_shape_write.
Qed.

Lemma updateCostAndDepth_same_shape fuel u b h h' r :
  updateCostAndDepth debug fuel u b h = (h', r) → same_shape h h'.
Proof.
  intros E.
  eapply (updateCostAndDepth_keeps (same_shape h)); [|exact E|].
  - intros. eapply recompute_same_shape; eauto.
  - apply same_shape_refl.
Qed.

(** *** What a heap of the same shape shares *)

Lemma same_links_fields V V' :
  same_links V V' →
  isRoot_ V' = isRoot_ V ∧ parentSPtr_ V' = parentSPtr_ V
  ∧ childWPtrs_ V' = childWPtrs_ V ∧ edgeCost_ V' = edgeCost_ V
  ∧ vId_ V' = vId_ V ∧ isPruned_ V' = isPruned_ V.
Proof. unfold same_links. intros ->. done. Qed.

Lemma same_shape_lookup h h' q V :
  same_shape h h' → h !! q = Some V →
  ∃ V', h' !! q = Some V' ∧ same_links V V'.
Proof.
  intros Hs Hq. specialize (Hs q). rewrite Hq in Hs.
  destruct (h' !! q) as [V'|]; [eauto|done].
Qed.

Lemma reaches_same_shape h h' u w :
  same_shape h h' → reaches h u w → reaches h' u w.
Proof.
  intros Hs. induction 1 as [u|u U c w HU Hc _ IH]; [constructor|].
  destruct (same_shape_lookup _ _ _ _ Hs HU) as (U' & HU' & Hl).
  apply same_links_fields in Hl as (_ & _ & Hch & _).
  eapply reaches_child; [exact HU'| |exact IH]. by rewrite Hch.
Qed.

Lemma reaches_trans h u v w : reaches h u v → reaches h v w → reaches h u w.
Proof.
  induction 1 as [u|u U c v HU Hc _ IH]; [done|].
  intros Hvw. eapply reaches_child; eauto.
Qed.

Lemma registered_same_shape h h' u :
  same_shape h h' → registered h u → registered h' u.
Proof.
  intros Hs Hreg x X' p Hx Hpar Hr.
  pose proof (same_shape_sym _ _ Hs) as Hs'.
  destruct (same_shape_lookup _ _ _ _ Hs' Hx) as (X & HX & Hl).
  apply same_links_fields in Hl as (_ & Hp & _).
  destruct (Hreg x X p HX) as (P & HP & Hin).
  - congruence.
  - by eapply reaches_same_shape.
  - destruct (same_shape_lookup _ _ _ _ Hs HP) as (P' & HP' & Hl).
    apply same_links_fields in Hl as (_ & _ & Hch & _).
    exists P'. split; [done|]. by rewrite Hch.
Qed.

Lemma registered_child h u U c :
  h !! u = Some U → c ∈ childWPtrs_ U → registered h u → registered h c.
Proof.
  intros HU Hc Hreg x X p Hx Hpar Hr. eapply Hreg; eauto.
  eapply reaches_child; eauto.
Qed.

Lemma forEach_cascades self u :
  cascades self → shape_preserving self →
  ∀ rest h h',
    registered h u →
    (∃ U, h !! u = Some U ∧ ∀ c, c ∈ rest → c ∈ childWPtrs_ U) →
    forEach (λ childWPtr,
               when debug
                 (x <- expired childWPtr ;;
                  if x then throw ExpiredWhileUpdating else ret tt) ;;;
               self childWPtr) rest h = (h', Ok tt) →
    ∀ w, cost_cascade_invariant_at h w ∨ (∃ c, c ∈ rest ∧ reaches h c w) →
         cost_cascade_invariant_at h' w.
Proof.
  intros Hself Hshape.
  induction rest as [|c rest IH]; intros h h' Hreg (U & HU & Hsub) E w Hw.
  - injection E as <-. destruct Hw as [Hw|(c & Hc & _)]; [done|].
    by apply elem_of_nil in Hc.
  - cbn [forEach] in E. apply bind_ok_inv in E as (h2 & [] & E1 & E).
    apply bind_ok_inv in E1 as (h1 & [] & E0 & E1).
    assert (h1 = h) as ->.
    { apply when_inv in E0 as [(_ & -> & _)|[_ E0]]; [done|].
      by apply check_expired_inv in E0 as [-> _]. }
    pose proof (Hshape _ _ _ _ E1) as Hs.
    assert (Hc : c ∈ childWPtrs_ U) by (apply Hsub; left).
    pose proof (Hself c h h2 (registered_child _ _ _ _ HU Hc Hreg) E1) as Hpost.
    destruct (same_shape_lookup _ _ _ _ Hs HU) as (U2 & HU2 & Hl).
    apply same_links_fields in Hl as (_ & _ & Hch & _).
    apply (IH h2 h').
    + by eapply registered_same_shape.
    + exists U2. split; [done|]. intros c' Hc'. rewrite Hch.
      apply Hsub. by right.
    + exact E.
    + destruct Hw as [Hw|(c' & Hc' & Hr)].
      * left. apply Hpost. by left.
      * apply elem_of_cons in Hc' as [->|Hc'].
        -- left. apply Hpost. by right.
        -- right. exists c'. split; [done|]. by eapply reaches_same_shape.
Qed.

Lemma consistent_write h u U c d W :
  h !! u = Some U → parentSPtr_ W ≠ Some u →
  consistent h W → consistent (<[u := set_depth d (set_cost c U)]> h) W.
Proof.
  intros HU Hne. unfold consistent, expected.
  destruct (isRoot_ W); [done|].
  destruct (parentSPtr_ W) as [p|]; [|done].
  intros (P & HP & Hc). exists P. split; [|done].
  rewrite lookup_insert_ne; [done|congruence].
Qed.

Lemma updateCostAndDepth_body_cascades self :
  cascades self → shape_preserving self →
  cascades (λ u, updateCostAndDepth_body debug self u true).
Proof.
  intros Hself Hshape u h h' Hreg E w Hw.
  unfold updateCostAndDepth_body in E.
  apply bind_ok_inv in E as (h0 & [] & E0 & E).
  apply ASSERT_NOT_PRUNED_inv in E0 as [-> _].
  apply bind_ok_inv in E as (h1 & [] & E1 & E).
  apply recompute_cases in E1
    as [[_ ?]|(U & c & d & HU & -> & [Hexp|[? _]])]; [done| |done].
  apply bind_ok_inv in E as (h2 & U' & E2 & E).
  apply deref_inv in E2 as [-> HU']. specialize (HU' _ eq_refl).
  rewrite lookup_insert_eq in HU'. injection HU' as <-.
  set (U' := set_depth d (set_cost c U)) in *.
  pose proof (same_shape_write h u U c d HU) as Hs. fold U' in Hs.
  revert E. revert w Hw.
  assert (Hgoal : ∀ w, cost_cascade_invariant_at h w ∨ reaches h u w →
            cost_cascade_invariant_at (<[u:=U']> h) w
            ∨ ∃ c0, c0 ∈ childWPtrs_ U' ∧ reaches (<[u:=U']> h) c0 w).
  { (* the vertices broken by the write to [u] are children of [u] *)
    assert (Hu : cost_cascade_invariant_at (<[u:=U']> h) u
                 ∨ ∃ c0, c0 ∈ childWPtrs_ U' ∧ reaches (<[u:=U']> h) c0 u).
    { destruct (decide (parentSPtr_ U = Some u)) as [Hself_parent|Hne].
      - right. exists u. split; [|constructor].
        destruct (Hreg u U u HU Hself_parent (reaches_refl _ _))
          as (P & HP & Hin). by assert (P = U) as -> by congruence.
      - left. intros V HV. rewrite lookup_insert_eq in HV.
        injection HV as <-. unfold consistent, expected in *. cbn.
        destruct (isRoot_ U); [done|].
        destruct (parentSPtr_ U) as [p|]; [|done].
        destruct Hexp as (P & HP & Hc). exists P. split; [|done].
        rewrite lookup_insert_ne; [done|congruence]. }
    intros w [Hw|Hr].
    - destruct (decide (w = u)) as [->|Hwu]; [done|].
      destruct (h !! w) as [W|] eqn:HW.
      + destruct (decide (parentSPtr_ W = Some u)) as [Hpar|Hne].
        * right. exists w. split; [|constructor].
          destruct (Hreg w W u HW Hpar (reaches_refl _ _)) as (P & HP & Hin).
          by assert (P = U) as -> by congruence.
        * left. intros W' HW'. rewrite lookup_insert_ne in HW' by done.
          assert (W' = W) as -> by congruence.
          apply consistent_write; auto.
      + left. intros W' HW'. rewrite lookup_insert_ne in HW' by done.
        congruence.
    - inversion Hr as [|u0 U0 c0 w0 HU0 Hc0 Hr0]; subst; [done|].
      assert (U0 = U) as -> by congruence.
      right. exists c0. split; [done|]. by eapply reaches_same_shape. }
  intros w Hw E. specialize (Hgoal w Hw).
  eapply (forEach_cascades self u Hself Hshape); [| |exact E|exact Hgoal].
  - by eapply registered_same_shape.
  - exists U'. split; [apply lookup_insert_eq|done].
Qed.

(** A cascade that returns leaves the invariant at every vertex it reached
    and wherever it held before, when the children it passes are listed
    by their parents. *)
Theorem updateCostAndDepth_cascades fuel :
  cascades (λ u, updateCostAndDepth debug fuel u true).
Proof.
  induction fuel as [|fuel IH]; cbn [updateCostAndDepth];
    apply updateCostAndDepth_body_cascades.
  - by intros c h h' _ [=].
  - by intros c h h' r [= <- _]; apply same_shape_refl.
  - exact IH.
  - intros c h h' r. apply updateCostAndDepth_same_shape.
Qed.

(** *** The cascade returns on a finite tree *)

Lemma recompute_returns u b h U :
  h !! u = Some U → (debug = true → isPruned_ U = false) →
  recomputable debug h U →
  ∃ h1, recompute debug u b h = (h1, Ok tt).
Proof.
  intros HU Hp Hrec. unfold recompute. run_ops.
  destruct (isRoot_ U) eqn:Hroot.
  { destruct debug; [specialize (Hp eq_refl)|]; mred;
      repeat (rewrite ?lookup_insert_eq; mred); eauto. }
  destruct Hrec as [?|[[Hpar Hch]|(p & P & Hpar & HP & HpP)]]; [congruence|..].
  - destruct debug; [specialize (Hp eq_refl); specialize (Hch eq_refl)|];
      mred;
      repeat (rewrite ?lookup_insert_eq;
              cbn [isPruned_ childWPtrs_ set_depth set_cost]; mred); eauto.
    rewrite Hch. cbn. eauto.
  - destruct (decide (p = u)) as [->|Hne].
    + assert (P = U) as -> by congruence.
      destruct debug; [specialize (Hp eq_refl)|]; mred;
        repeat (rewrite ?lookup_insert_eq;
                cbn [isPruned_ isRoot_ parentSPtr_ set_depth set_cost]; mred);
        eauto.
    + destruct debug; [specialize (Hp eq_refl)|]; mred;
        [destruct (HpP eq_refl) as [HpP1 HpP2];
         destruct (isRoot_ P) eqn:HrP;
         [|destruct HpP2 as [|[q Hq]]; [done|]]|];
        mred;
        repeat (rewrite ?lookup_insert_eq, ?lookup_insert_ne by done;
                cbn [isPruned_ isRoot_ parentSPtr_ set_depth set_cost]; mred);
        eauto.
Qed.

Lemma recomputable_same_shape h h' U U' :
  same_shape h h' → same_links U U' →
  recomputable debug h U → recomputable debug h' U'.
Proof.
  intros Hs Hl Hrec.
  apply same_links_fields in Hl as (Hr & Hp & Hch & _).
  unfold recomputable. rewrite Hr, Hp, Hch.
  destruct Hrec as [?|[?|(p & P & Hpar & HP & HpP)]]; [auto..|].
  right. right.
  destruct (same_shape_lookup _ _ _ _ Hs HP) as (P' & HP' & Hl').
  apply same_links_fields in Hl' as (Hr' & Hp' & _ & _ & _ & Hpr').
  exists p, P'. rewrite Hr', Hp', Hpr'. done.
Qed.

Lemma cascadable_same_shape h h' n :
  same_shape h h' → ∀ u, cascadable debug h n u → cascadable debug h' n u.
Proof.
  intros Hs. induction n as [|n IH]; intros u (U & HU & Hp & Hrec & Hch);
    destruct (same_shape_lookup _ _ _ _ Hs HU) as (U' & HU' & Hl);
    pose proof (same_links_fields _ _ Hl) as (_ & _ & Hch' & _ & _ & Hpr');
    exists U'; rewrite Hch', Hpr';
    (split; [done|]); (split; [done|]);
    (split; [by eapply recomputable_same_shape|]).
  - done.
  - eapply Forall_impl; [exact Hch|]. exact IH.
Qed.

Lemma cascadable_live h n u : cascadable debug h n u → is_Some (h !! u).
Proof. destruct n; intros (U & HU & _); eauto. Qed.

Lemma forEach_returns (self : ptr → M Cost unit) (Q : ptr → Prop) h0 :
  (∀ c h, same_shape h0 h → Q c →
          ∃ h', self c h = (h', Ok tt) ∧ same_shape h h') →
  (∀ c, Q c → is_Some (h0 !! c)) →
  ∀ rest h, same_shape h0 h → Forall Q rest →
    ∃ h', forEach (λ childWPtr,
                     when debug
                       (x <- expired childWPtr ;;
                        if x then throw ExpiredWhileUpdating else ret tt) ;;;
                     self childWPtr) rest h = (h', Ok tt).
Proof.
  intros Hself Hlive. induction rest as [|c rest IH]; intros h Hs HF.
  - eexists. reflexivity.
  - apply Forall_cons in HF as [Hc HF]. cbn [forEach].
    destruct (Hlive c Hc) as [C0 HC0].
    destruct (same_shape_lookup _ _ _ _ Hs HC0) as (C & HC & _).
    destruct (Hself c h Hs Hc) as (h1 & E & Hs1).
    destruct (IH h1) as (h' & E'); [by eapply same_shape_trans|done|].
    exists h'. unfold bind at 1. unfold bind at 1.
    assert (Hchk : when debug
                     (x <- expired c ;;
                      if x then throw ExpiredWhileUpdating else ret tt) h
                   = (h, Ok tt)).
    { destruct debug; [|done]. cbn [when]. unfold bind, expired.
      by rewrite HC. }
    rewrite Hchk, E. exact E'.
Qed.

(** With as much fuel as the tree below [u] is high, the cascade from [u]
    returns. *)
Theorem updateCostAndDepth_returns n :
  ∀ u h, cascadable debug h n u →
         ∃ h', updateCostAndDepth debug n u true h = (h', Ok tt).
Proof.
  induction n as [|n IH]; intros u h (U & HU & Hp & Hrec & Hch);
    cbn [updateCostAndDepth]; unfold updateCostAndDepth_body;
    unfold bind at 1; rewrite (ASSERT_NOT_PRUNED_live debug u h U HU Hp);
    destruct (recompute_returns u true h U HU Hp Hrec) as (h1 & E1);
    pose proof (recompute_same_shape h _ _ _ _ _ E1 (same_shape_refl h))
      as Hs1;
    unfold bind at 1; rewrite E1;
    destruct (same_shape_lookup _ _ _ _ Hs1 HU) as (U1 & HU1 & Hl1);
    apply same_links_fields in Hl1 as (_ & _ & Hch1 & _);
    unfold bind at 1, deref; rewrite HU1, Hch1.
  - rewrite Hch. eexists. reflexivity.
  - eapply (forEach_returns _ (cascadable debug h n) h);
      [|apply cascadable_live|exact Hs1|exact Hch].
    intros c h2 Hs2 Hc.
    destruct (IH c h2) as (h' & E); [by eapply cascadable_same_shape|].
    exists h'. split; [exact E|]. by eapply updateCostAndDepth_same_shape.
Qed.

End Recompute.

(** *** A cascade from a disconnected vertex

    Where the infinite cost is absorbing, a cascade that returns carries
    the infinite cost of a disconnected vertex down its subtree; where the
    checks are compiled in it is refused. *)

Section Severed.
Context {Cost : Type} `{CostHelper Cost}.
Variable debug : bool.
Hypothesis absorbing : ∀ c : Cost, combineCosts infiniteCost c = infiniteCost.
Implicit Types (h ha hb : gmap ptr (Vertex Cost)).









End Severed.

Section Refused.
Context {Cost : Type} `{CostHelper Cost}.
Implicit Types (h : gmap ptr (Vertex Cost)).

End Refused.

(** ** Mutators *)

Section Mutations.

Context {Cost : Type} `{CostHelper Cost}.
Variable debug : bool.

Implicit Types (h : gmap ptr (Vertex Cost)) (V W P : Vertex Cost).

(** A write to [v] that keeps its cost and depth does not disturb the
    invariant at a vertex whose own links it leaves alone. *)
Lemma invariant_at_rewrite h v V V1 w :
  h !! v = Some V →
  cost_ V1 = cost_ V → depth_ V1 = depth_ V →
  (w = v → isRoot_ V1 = isRoot_ V ∧ parentSPtr_ V1 = parentSPtr_ V
           ∧ edgeCost_ V1 = edgeCost_ V) →
  cost_cascade_invariant_at h w →
  cost_cascade_invariant_at (<[v := V1]> h) w.
Proof.
  intros Hv Hc Hd Hsame Hw W1 HW1.
  assert (∃ W, h !! w = Some W ∧ isRoot_ W1 = isRoot_ W
               ∧ parentSPtr_ W1 = parentSPtr_ W ∧ edgeCost_ W1 = edgeCost_ W
               ∧ cost_ W1 = cost_ W ∧ depth_ W1 = depth_ W)
    as (W & HW & Hr & Hp & He & Hcw & Hdw).
  { destruct (decide (w = v)) as [->|Hne].
    - rewrite lookup_insert_eq in HW1. injection HW1 as <-.
      destruct (Hsame eq_refl) as (? & ? & ?). exists V. done.
    - rewrite lookup_insert_ne in HW1 by done. exists W1. done. }
  specialize (Hw W HW). unfold consistent, expected in *.
  rewrite Hr, Hp, He, Hcw, Hdw.
  destruct (isRoot_ W); [done|].
  destruct (parentSPtr_ W) as [p|]; [|done].
  destruct Hw as (P & HP & Hw).
  destruct (decide (p = v)) as [->|Hne].
  - exists V1. rewrite lookup_insert_eq. split; [done|].
    assert (P = V) as -> by congruence. by rewrite Hc, Hd.
  - exists P. by rewrite lookup_insert_ne.
Qed.

Lemma invariant_at_relink h v V V1 w :
  h !! v = Some V →
  cost_ V1 = cost_ V → depth_ V1 = depth_ V →
  w ≠ v →
  cost_cascade_invariant_at h w →
  cost_cascade_invariant_at (<[v := V1]> h) w.
Proof. intros. eapply invariant_at_rewrite; eauto. done. Qed.

(** The scan of [removeChild] writes at most the child list of [this]. *)
Lemma scanChildren_writes v c rest :
  ∀ i h h1 r,
    scanChildren debug v c i rest h = (h1, r) →
    h1 = h ∨ ∃ V l, h !! v = Some V ∧ h1 = <[v := set_childWPtrs l V]> h.
Proof.
  induction rest as [|x rest IH]; intros i h h1 r E; cbn [scanChildren] in E.
  - injection E as <- _. by left.
  - apply bind_inv in E as [(f & E1 & ->)|(h0 & [] & E1 & E)];
      (apply when_inv in E1 as [(_ & -> & _)|[_ E1]];
       [|apply check_expired_inv in E1 as [-> _]]); try by left.
    all: apply bind_inv in E as [(f & E1 & ->)|(h0 & cid & E1 & E)];
         apply getId_inv in E1 as [-> _]; try by left.
    all: apply bind_inv in E as [(f & E1 & ->)|(h0 & oid & E1 & E)];
         apply getId_inv in E1 as [-> _]; try by left.
    all: destruct (cid =? oid); [|by eapply IH].
    all: apply bind_inv in E as [(f & E1 & ->)|(h0 & [] & E1 & E)];
         apply modify_inv in E1
           as [(V & HV & -> & ?)|(_ & -> & ?)]; try discriminate;
         try by left.
    all: injection E as <- _; right; eauto.
Qed.

(** The run of a mutator up to its cascade: the heap [h1] the cascade
    starts from holds the costs and depths of [h], and the links of every
    vertex but the one the cascade starts at. *)
Lemma mutate_inv fuel m h h' :
  mutate debug fuel m h = (h', Ok tt) →
  ∃ h1, updateCostAndDepth debug fuel (cascade_root m) true h1 = (h', Ok tt)
        ∧ (∀ w, w ≠ cascade_root m →
                cost_cascade_invariant_at h w →
                cost_cascade_invariant_at h1 w)
        ∧ (∀ v p e, m = MutAddParent v p e →
             ∀ V, h !! v = Some V → is_Some (h !! p) →
                  h1 !! v = Some (set_edgeCost e (set_parentSPtr (Some p) V))).
Proof.
  destruct m as [v p e|v|v c|v c|v]; cbn [mutate cascade_root]; intros E.
  - unfold addParent in E.
    apply bind_ok_inv in E as (h0 & [] & E0 & E).
    apply ASSERT_NOT_PRUNED_inv in E0 as [-> _].
    apply bind_ok_inv in E as (h0 & [] & E0 & E).
    assert (h0 = h) as ->.
    { apply when_inv in E0 as [(_ & -> & _)|[_ E0]]; [done|].
      apply bind_ok_inv in E0 as (h1 & b1 & E1 & E0).
      apply hasParent_inv in E1 as [-> _].
      apply bind_ok_inv in E0 as (h1 & [] & E1 & E0).
      assert (h1 = h) as -> by (by destruct b1; injection E1 as <-).
      apply bind_ok_inv in E0 as (h1 & b2 & E2 & E0).
      apply isRoot_inv in E2 as [-> _].
      by destruct b2; injection E0 as <-. }
    apply bind_ok_inv in E as (h0 & np & Enp & E).
    injection Enp as <- <-.
    apply bind_ok_inv in E as (h1 & [] & E1 & E).
    apply modify_inv in E1 as [(V & HV & -> & _)|(_ & _ & ?)]; [|done].
    apply bind_ok_inv in E as (h2 & [] & E2 & E).
    apply modify_inv in E2 as [(V' & HV' & -> & _)|(_ & _ & ?)]; [|done].
    rewrite lookup_insert_eq in HV'. injection HV' as <-.
    rewrite insert_insert_eq in E.
    eexists. split; [exact E|]. split.
    + intros w Hne. by eapply invariant_at_relink.
    + intros v' p' e' [= -> -> ->] V0 HV0 [P HP].
      rewrite lookup_insert_eq, HP. cbn. congruence.
  - unfold removeParent in E.
    apply bind_ok_inv in E as (h0 & [] & E0 & E).
    apply ASSERT_NOT_PRUNED_inv in E0 as [-> _].
    apply bind_ok_inv in E as (h0 & [] & E0 & E).
    assert (h0 = h) as ->.
    { apply when_inv in E0 as [(_ & -> & _)|[_ E0]]; [done|].
      apply bind_ok_inv in E0 as (h1 & b1 & E1 & E0).
      apply hasParent_inv in E1 as [-> _].
      apply bind_ok_inv in E0 as (h1 & [] & E1 & E0).
      assert (h1 = h) as -> by (by destruct b1; injection E1 as <-).
      apply bind_ok_inv in E0 as (h1 & b2 & E2 & E0).
      apply isRoot_inv in E2 as [-> _].
      by destruct b2; injection E0 as <-. }
    apply bind_ok_inv in E as (h1 & [] & E1 & E).
    apply modify_inv in E1 as [(V & HV & -> & _)|(_ & _ & ?)]; [|done].
    eexists. split; [exact E|]. split; [|done].
    intros w Hne. by eapply invariant_at_relink.
  - unfold addChild in E.
    apply bind_ok_inv in E as (h0 & [] & E0 & E).
    apply ASSERT_NOT_PRUNED_inv in E0 as [-> _].
    apply bind_ok_inv in E as (h1 & [] & E1 & E).
    apply modify_inv in E1 as [(V & HV & -> & _)|(_ & _ & ?)]; [|done].
    cbn [when] in E.
    eexists. split; [exact E|]. split; [|done].
    intros w _. by eapply invariant_at_rewrite.
  - unfold removeChild in E.
    apply bind_ok_inv in E as (h0 & [] & E0 & E).
    apply ASSERT_NOT_PRUNED_inv in E0 as [-> _].
    apply bind_ok_inv in E as (h0 & V & E0 & E).
    apply deref_inv in E0 as [-> _].
    apply bind_ok_inv in E as (h1 & found & E1 & E).
    apply bind_ok_inv in E as (h2 & [] & E2 & E).
    cbn [when] in E2.
    assert (h2 = h') as ->.
    { apply when_inv in E as [(_ & -> & _)|[_ E]]; [done|].
      by destruct found; injection E as <-. }
    eexists. split; [exact E2|]. split; [|done].
    intros w _ Hw.
    apply scanChildren_writes in E1 as [->|(V1 & l & HV1 & ->)]; [done|].
    by eapply invariant_at_rewrite.
  - eexists. split; [exact E|]. split; [|done]. done.
Qed.

Lemma mutate_same_shape fuel m h h' :
  mutate debug fuel m h = (h', Ok tt) →
  ∃ h1, updateCostAndDepth debug fuel (cascade_root m) true h1 = (h', Ok tt)
        ∧ same_shape h1 h'.
Proof.
  intros E. apply mutate_inv in E as (h1 & E & _).
  exists h1. split; [done|]. by eapply updateCostAndDepth_same_shape.
Qed.

(** After a mutator whose cascade returned, the invariant holds wherever
    it held before and at every vertex the cascade reached. *)
Lemma mutate_cascades fuel m h h' :
  mutate debug fuel m h = (h', Ok tt) →
  registered h' (cascade_root m) →
  ∀ w, cost_cascade_invariant_at h w ∨ reaches h' (cascade_root m) w →
       cost_cascade_invariant_at h' w.
Proof.
  intros E Hreg w Hw.
  apply mutate_inv in E as (h1 & E & Hkeep & _).
  pose proof (updateCostAndDepth_same_shape _ _ _ _ _ _ _ E) as Hs.
  pose proof (same_shape_sym _ _ Hs) as Hs'.
  eapply (updateCostAndDepth_cascades debug fuel); [|exact E|].
  - by eapply registered_same_shape.
  - destruct Hw as [Hw|Hr].
    + destruct (decide (w = cascade_root m)) as [->|Hne].
      * right. constructor.
      * left. by apply Hkeep.
    + right. by eapply reaches_same_shape.
Qed.

Lemma in_subtree_reaches h v w : in_subtree h v w → reaches h v w.
Proof.
  induction 1 as [|u U w W _ IH HU Hw _ _ _]; [constructor|].
  eapply reaches_trans; [exact IH|].
  eapply reaches_child; [exact HU|exact Hw|constructor].
Qed.

(** A disconnected vertex that is not the root is given the infinite cost
    and depth 0, whether or not the cascade is then refused; it is refused
    only where [BITSTAR_DEBUG] is defined, a cascade is asked for and the
    vertex has children. *)
Lemma recompute_orphan v b h V :
  h !! v = Some V → isRoot_ V = false → parentSPtr_ V = None →
  (debug = true → isPruned_ V = false) →
  ∃ r, recompute debug v b h
       = (<[v := set_depth 0 (set_cost infiniteCost V)]> h, r)
       ∧ (b = false → r = Ok tt).
Proof.
  intros Hv Hroot Hpar Hp. unfold recompute. run_ops.
  destruct debug; [specialize (Hp eq_refl)|clear Hp]; mred;
    repeat (rewrite ?lookup_insert_eq, ?insert_insert_eq;
            cbn [isPruned_ childWPtrs_ set_depth set_cost]; mred); eauto.
  destruct b; [|rewrite andb_false_r; eauto].
  destruct (_ && _); eexists; (split; [reflexivity|done]).
Qed.

Lemma recompute_keeps_pinned v w b h h1 r :
  recompute debug w b h = (h1, r) → pinned v h → pinned v h1.
Proof.
  intros E (V & HV & Hroot & Hpar & Hc & Hd).
  apply recompute_cases in E as [[-> _]|(W & c & d & HW & -> & Hcase)].
  { exists V. done. }
  destruct (decide (w = v)) as [->|Hne].
  - assert (W = V) as -> by congruence.
    eexists. split; [apply lookup_insert_eq|]. cbn.
    destruct Hcase as [Hexp|(_ & _ & [p Hp] & _)]; [|congruence].
    unfold expected in Hexp. rewrite Hroot, Hpar in Hexp.
    destruct Hexp as [-> ->]. done.
  - exists V. by rewrite lookup_insert_ne.
Qed.

Lemma updateCostAndDepth_from_orphan fuel v b h h' r V :
  h !! v = Some V → isRoot_ V = false → parentSPtr_ V = None →
  (debug = true → isPruned_ V = false) →
  updateCostAndDepth debug fuel v b h = (h', r) →
  pinned v h'.
Proof.
  intros Hv Hroot Hpar Hp E.
  assert (Hself : ∀ c h0 h0' r0,
             match fuel with
             | O => λ _, failM FuelExhausted
             | S fuel' => λ child, updateCostAndDepth debug fuel' child true
             end c h0 = (h0', r0) → pinned v h0 → pinned v h0').
  { destruct fuel as [|fuel]; intros c h0 h0' r0.
    - by intros [= <- _].
    - apply updateCostAndDepth_keeps. intros.
      by eapply recompute_keeps_pinned. }
  assert (E' : updateCostAndDepth_body debug
                 match fuel with
                 | O => λ _, failM FuelExhausted
                 | S fuel' => λ child, updateCostAndDepth debug fuel' child true
                 end v b h = (h', r)) by (by destruct fuel).
  clear E. unfold updateCostAndDepth_body in E'.
  apply bind_inv in E' as [(f & E1 & ->)|(h0 & [] & E1 & E)].
  { exfalso. rewrite (ASSERT_NOT_PRUNED_live debug v h V Hv Hp) in E1.
    discriminate. }
  apply ASSERT_NOT_PRUNED_inv in E1 as [-> _].
  destruct (recompute_orphan v b h V Hv Hroot Hpar Hp) as (r1 & Hrec & _).
  assert (Hpin : pinned v (<[v := set_depth 0 (set_cost infiniteCost V)]> h)).
  { eexists. split; [apply lookup_insert_eq|]. done. }
  unfold bind at 1 in E. rewrite Hrec in E.
  destruct r1 as [[]|f]; [|by injection E as <- _].
  destruct b; [|by injection E as <- _].
  apply bind_inv in E as [(f & E2 & ->)|(h2 & U & E2 & E)];
    apply deref_inv in E2 as [-> _]; [done|].
  revert E Hpin. apply forEach_keeps.
  intros c h0 h0' r0 E Hj.
  apply bind_inv in E as [(f & E1 & ->)|(h1 & [] & E1 & E)].
  - apply when_inv in E1 as [(_ & -> & _)|[_ E1]]; [done|].
    by apply check_expired_inv in E1 as [-> _].
  - assert (h1 = h0) as ->.
    { apply when_inv in E1 as [(_ & -> & _)|[_ E1]]; [done|].
      by apply check_expired_inv in E1 as [-> _]. }
    eauto.
Qed.

(** Claim C1, as amended: the cost-cascade invariant after a mutator.
    Let a mutator run with the cascade flag set ([addParent],
    [removeParent], [addChild], [removeChild] or [updateCostAndDepth])
    return normally, and let every vertex whose parent the cascade visits
    be listed among the children of that parent.  Then every vertex the
    cascade reached, and every vertex at which the invariant held before,
    carries the identity cost and depth 0 if it is the root, the infinite
    cost and depth 0 if it has no parent, and otherwise the cost of its
    parent combined with its edge cost and the depth of its parent plus
    one modulo 2^32.  In particular, after [v.addParent(p, e)] on a vertex
    [v] that is not the root, [v.cost = combineCosts(p.cost, e)] and
    [v.depth = p.depth + 1] modulo 2^32. *)
Theorem cost_cascade_after_mutation fuel m h h' :
  mutate debug fuel m h = (h', Ok tt) →
  registered h' (cascade_root m) →
  (∀ w, cost_cascade_invariant_at h w ∨ reaches h' (cascade_root m) w →
        cost_cascade_invariant_at h' w)
  ∧ (∀ v p e V P,
       m = MutAddParent v p e →
       h !! v = Some V → isRoot_ V = false → h !! p = Some P →
       ∃ V' P', h' !! v = Some V' ∧ h' !! p = Some P'
                ∧ parentSPtr_ V' = Some p
                ∧ cost_ V' = combineCosts (cost_ P') e
                ∧ depth_ V' = uint_succ (depth_ P')).
Proof.
  intros E Hreg. split; [by apply (mutate_cascades fuel)|].
  intros v p e V P -> HV Hroot HP.
  pose proof (mutate_cascades fuel _ _ _ E Hreg v
                (or_intror (reaches_refl _ _))) as Hinv.
  apply mutate_inv in E as (h1 & E & _ & Hlinks).
  specialize (Hlinks v p e eq_refl V HV (ex_intro _ P HP)).
  apply updateCostAndDepth_same_shape in E as Hs.
  destruct (same_shape_lookup _ _ _ _ Hs Hlinks) as (V' & HV' & Hl).
  apply same_links_fields in Hl as (Hr & Hp & _ & He & _).
  cbn in Hr, Hp, He.
  specialize (Hinv V' HV'). unfold consistent, expected in Hinv.
  rewrite Hr, Hroot, Hp, He in Hinv.
  destruct Hinv as (P' & HP' & Hc & Hd). exists V', P'. done.
Qed.

Lemma updateCostAndDepth_no_cascade_returns fuel v h V :
  h !! v = Some V → isRoot_ V = false → parentSPtr_ V = None →
  (debug = true → isPruned_ V = false) →
  ∃ h', updateCostAndDepth debug fuel v false h = (h', Ok tt).
Proof.
  intros Hv Hroot Hpar Hp.
  destruct (recompute_orphan v false h V Hv Hroot Hpar Hp) as (r1 & Hrec & Hr).
  rewrite (Hr eq_refl) in Hrec.
  destruct fuel; cbn [updateCostAndDepth]; unfold updateCostAndDepth_body;
    unfold bind at 1; rewrite (ASSERT_NOT_PRUNED_live debug v h V Hv Hp);
    unfold bind; rewrite Hrec; eexists; reflexivity.
Qed.

(** [removeParent] up to its call of the propagator. *)
Lemma removeParent_unfold fuel v b h V :
  h !! v = Some V → isRoot_ V = false → is_Some (parentSPtr_ V) →
  (debug = true → isPruned_ V = false) →
  removeParent debug fuel v b h
  = updateCostAndDepth debug fuel v b (<[v := set_parentSPtr None V]> h).
Proof.
  intros HV Hroot [p Hpar] Hp. unfold removeParent. unfold bind at 1.
  rewrite (ASSERT_NOT_PRUNED_live debug v h V HV Hp).
  assert (Hchk : when debug
                   (p <- hasParent debug v ;;
                    (if p then ret tt else throw RemoveParentNoParent) ;;;
                    r <- isRoot debug v ;;
                    if r then throw RemoveParentOfRoot else ret tt) h
                 = (h, Ok tt)).
  { destruct debug; [|done]. specialize (Hp eq_refl). cbn [when].
    run_ops. mred. done. }
  unfold bind at 1. rewrite Hchk.
  unfold bind, modify. by rewrite HV.
Qed.


End Mutations.

(** ** The child list *)

(** *** Swap-and-pop on the child vector *)

Lemma pop_back_snoc (l : list ptr) c : pop_back (l ++ [c]) = l.
Proof.
  unfold pop_back. rewrite length_app. cbn.
  replace (pred (length l + 1))%nat with (length l) by lia.
  by rewrite take_app_length.
Qed.

Lemma swap_and_pop_last (l : list ptr) c :
  swap_and_pop (length l) (l ++ [c]) = l.
Proof.
  unfold swap_and_pop. rewrite length_app. cbn.
  replace (pred (length l + 1))%nat with (length l) by lia.
  rewrite Nat.eqb_refl. apply pop_back_snoc.
Qed.

Lemma swap_and_pop_inner (l : list ptr) c j x :
  l !! j = Some x → swap_and_pop j (l ++ [c]) = <[j := c]> l.
Proof.
  intros Hj. pose proof (lookup_lt_Some _ _ _ Hj) as Hlt.
  unfold swap_and_pop. rewrite length_app. cbn.
  replace (pred (length l + 1))%nat with (length l) by lia.
  destruct (Nat.eqb_spec j (length l)) as [->|_]; [lia|].
  unfold swap. rewrite lookup_app_l, Hj by done.
  rewrite lookup_app_r, Nat.sub_diag by done. cbn.
  rewrite insert_app_l by done.
  rewrite insert_app_r_alt by (by rewrite length_insert).
  rewrite length_insert, Nat.sub_diag. cbn.
  apply pop_back_snoc.
Qed.

Section ChildList.

Context {Cost : Type} `{CostHelper Cost}.
Variable debug : bool.

Implicit Types (h : gmap ptr (Vertex Cost)) (V W P : Vertex Cost).

Lemma getId_ok x h X :
  h !! x = Some X → (debug = true → isPruned_ X = false) →
  getId debug x h = (h, Ok (vId_ X)).
Proof.
  intros HX Hp. unfold getId, bind.
  rewrite (ASSERT_NOT_PRUNED_live debug x h X HX Hp).
  unfold deref, ret. by rewrite HX.
Qed.

Lemma check_expired_live e x h X :
  h !! x = Some X →
  when debug (b <- expired x ;; if b then throw e else ret tt) h = (h, Ok tt).
Proof.
  intros HX. destruct debug; [|done]. cbn [when].
  unfold bind, expired. by rewrite HX.
Qed.

(** The scan stops at the first slot that carries the id looked for. *)
Lemma scanChildren_run v c Cc h :
  h !! c = Some Cc → (debug = true → isPruned_ Cc = false) →
  ∀ rest i,
    Forall (inspectable debug h) rest →
    scanChildren debug v c i rest h
    = match first_match h (vId_ Cc) rest with
      | Some j =>
          (modify v (λ V, set_childWPtrs
                            (swap_and_pop (i + j) (childWPtrs_ V)) V) ;;;
           ret true) h
      | None => (h, Ok false)
      end.
Proof.
  intros Hc Hpc. induction rest as [|x rest IH]; intros i HF; [done|].
  apply Forall_cons in HF as [(X & HX & HpX) HF].
  cbn [scanChildren first_match]. rewrite HX.
  unfold bind at 1. rewrite (check_expired_live _ x h X HX).
  unfold bind at 1. rewrite (getId_ok x h X HX HpX).
  unfold bind at 1. rewrite (getId_ok c h Cc Hc Hpc).
  destruct (vId_ X =? vId_ Cc).
  - by rewrite Nat.add_0_r.
  - rewrite (IH (S i) HF). destruct (first_match _ _ rest) as [j|]; [|done].
    cbn. by replace (i + S j)%nat with (S (i + j)) by lia.
Qed.


Lemma first_match_Some h id rest j :
  first_match h id rest = Some j →
  ∃ x X, rest !! j = Some x ∧ h !! x = Some X ∧ vId_ X = id.
Proof.
  revert j. induction rest as [|x rest IH]; intros j; [done|].
  cbn [first_match].
  destruct (h !! x) as [X|] eqn:HX.
  - destruct (Z.eqb_spec (vId_ X) id) as [<-|_].
    + intros [= <-]. exists x, X. done.
    + destruct (first_match h id rest) as [j'|]; [|done].
      intros [= <-]. destruct (IH j' eq_refl) as (y & Y & ? & ? & ?).
      exists y, Y. done.
  - destruct (first_match h id rest) as [j'|]; [|done].
    intros [= <-]. destruct (IH j' eq_refl) as (y & Y & ? & ? & ?).
    exists y, Y. done.
Qed.

Lemma first_match_snoc h c Cc l :
  h !! c = Some Cc →
  ∃ j, first_match h (vId_ Cc) (l ++ [c]) = Some j ∧ (j ≤ length l)%nat.
Proof.
  intros Hc. induction l as [|x l (j & IH & Hle)]; cbn [first_match app].
  - rewrite Hc, Z.eqb_refl. exists O. done.
  - rewrite IH. cbn.
    destruct (h !! x) as [X|]; [destruct (vId_ X =? vId_ Cc)|].
    + exists O. split; [done|lia].
    + exists (S j). split; [done|cbn; lia].
    + exists (S j). split; [done|cbn; lia].
Qed.




Lemma same_identity_trans h1 h2 h3 :
  same_identity h1 h2 → same_identity h2 h3 → same_identity h1 h3.
Proof.
  intros H12 H23 q. specialize (H12 q). specialize (H23 q).
  destruct (h1 !! q), (h2 !! q), (h3 !! q); try done.
  destruct H12, H23. split; congruence.
Qed.

Lemma same_shape_identity h h' : same_shape h h' → same_identity h h'.
Proof.
  intros Hs q. specialize (Hs q).
  destruct (h !! q), (h' !! q); try done.
  by apply same_links_fields in Hs as (_ & _ & _ & _ & ? & ?).
Qed.

Lemma same_identity_children h v V l :
  h !! v = Some V → same_identity h (<[v := set_childWPtrs l V]> h).
Proof.
  intros HV q. destruct (decide (v = q)) as [<-|Hne].
  - rewrite HV, lookup_insert_eq. split; reflexivity.
  - rewrite lookup_insert_ne by done. by destruct (h !! q).
Qed.

Lemma inspectable_same_identity h h' c :
  same_identity h h' → inspectable debug h c → inspectable debug h' c.
Proof.
  intros Hs (C & HC & Hp). specialize (Hs c). rewrite HC in Hs.
  destruct (h' !! c) as [C'|] eqn:HC'; [|done]. destruct Hs as [_ Hpr].
  exists C'. split; [done|]. intros Hd. rewrite Hpr. auto.
Qed.

Lemma child_ids_same_identity h h' l :
  same_identity h h' → child_ids h' l = child_ids h l.
Proof.
  intros Hs. unfold child_ids. apply list_fmap_ext. intros _ q _.
  specialize (Hs q). destruct (h !! q), (h' !! q); try done.
  cbn. f_equal. apply Hs.
Qed.

(** The scan, when it returns: it stopped at a slot whose child carries
    the id of [c] and popped that slot, or it wrote nothing and every
    child carries another id. *)
Lemma scanChildren_ok_inv v c rest :
  ∀ i h h1 found,
    scanChildren debug v c i rest h = (h1, Ok found) →
    if found then
      ∃ j x X Cc V,
        rest !! j = Some x ∧ h !! x = Some X ∧ h !! c = Some Cc
        ∧ vId_ X = vId_ Cc ∧ h !! v = Some V
        ∧ h1 = <[v := set_childWPtrs
                         (swap_and_pop (i + j) (childWPtrs_ V)) V]> h
    else
      h1 = h
      ∧ Forall (λ x, ∃ X Cc, h !! x = Some X ∧ h !! c = Some Cc
                             ∧ vId_ X ≠ vId_ Cc) rest.
Proof.
  induction rest as [|x rest IH]; intros i h h1 found E;
    cbn [scanChildren] in E.
  - injection E as <- <-. split; [done|constructor].
  - apply bind_ok_inv in E as (h0 & [] & E0 & E).
    assert (h0 = h) as ->.
    { apply when_inv in E0 as [(_ & -> & _)|[_ E0]]; [done|].
      by apply check_expired_inv in E0 as [-> _]. }
    apply bind_ok_inv in E as (h0 & cid & E1 & E).
    apply getId_inv in E1 as [-> Hcid].
    destruct (Hcid _ eq_refl) as (X & HX & ->).
    apply bind_ok_inv in E as (h0 & oid & E1 & E).
    apply getId_inv in E1 as [-> Hoid].
    destruct (Hoid _ eq_refl) as (Cc & HCc & ->).
    destruct (Z.eqb_spec (vId_ X) (vId_ Cc)) as [Heq|Hne].
    + apply bind_ok_inv in E as (h2 & [] & E1 & E). injection E as <- <-.
      apply modify_inv in E1 as [(V & HV & -> & _)|(_ & _ & ?)]; [|done].
      exists O, x, X, Cc, V. rewrite Nat.add_0_r. done.
    + specialize (IH _ _ _ _ E). destruct found.
      * destruct IH as (j & y & Y & Cc' & V & ? & ? & ? & ? & ? & ->).
        exists (S j), y, Y, Cc', V.
        replace (i + S j)%nat with (S i + j)%nat by lia. done.
      * destruct IH as [-> HF]. split; [done|]. constructor; [eauto|done].
Qed.

(** Popping the slot of a child that carries the id of the child pushed
    last leaves the ids of the list before the push. *)
Lemma popped_list_restored h h1 h2 v V V1 c j x X Cc :
  h !! v = Some V → same_identity h h1 → h1 !! v = Some V1 →
  (childWPtrs_ V ++ [c]) !! j = Some x →
  h1 !! x = Some X → h1 !! c = Some Cc → vId_ X = vId_ Cc →
  same_shape
    (<[v := set_childWPtrs (swap_and_pop j (childWPtrs_ V ++ [c])) V1]> h1)
    h2 →
  children_restored h h2 v.
Proof.
  intros HV Hid1 HV1 Hx HX HCc Hidx Hs2.
  set (l := childWPtrs_ V) in *.
  destruct (same_shape_lookup _ _ v _ Hs2 (lookup_insert_eq _ _ _))
    as (V2 & HV2 & Hl2).
  apply same_links_fields in Hl2 as (_ & _ & Hch2 & _). cbn in Hch2.
  exists V, V2. split; [done|]. split; [done|]. rewrite Hch2. fold l.
  assert (Hid2 : same_identity h h2).
  { eapply same_identity_trans; [exact Hid1|].
    eapply same_identity_trans;
      [by apply (same_identity_children h1 v V1
                   (swap_and_pop j (l ++ [c])))|].
    by apply same_shape_identity. }
  rewrite (child_ids_same_identity _ _ _ Hid2).
  pose proof (lookup_lt_Some _ _ _ Hx) as Hlt.
  rewrite length_app in Hlt. cbn in Hlt.
  destruct (decide (j = length l)) as [->|Hne].
  - rewrite swap_and_pop_last. done.
  - assert (Hxl : l !! j = Some x).
    { rewrite lookup_app_l in Hx by lia. done. }
    rewrite (swap_and_pop_inner l c j x Hxl).
    rewrite length_insert. split; [done|].
    unfold child_ids. rewrite list_fmap_insert.
    rewrite list_insert_id; [done|].
    rewrite list_lookup_fmap, Hxl. cbn. f_equal.
    pose proof (Hid1 x) as Hix. pose proof (Hid1 c) as Hic.
    rewrite HX in Hix. rewrite HCc in Hic.
    destruct (h !! x) as [X0|], (h !! c) as [C0|]; try done.
    cbn. f_equal. destruct Hix as [Hix _], Hic as [Hic _]. congruence.
Qed.

(** Claim C6: whenever [addChild(c)] and then [removeChild(c)] on a vertex
    both return normally, the child list of the vertex has the length it
    had before and the ids of the children are the ids before the two
    calls, as a multiset.  When the children and [c] can be inspected
    (they are live and, where [BITSTAR_DEBUG] is defined, not pruned) the
    child list is restored however [removeChild] ends, and [removeChild]
    returns normally when no cascade is asked for. *)
Theorem addChild_removeChild_restores fuel v c b1 b2 h h1 h2 r V :
  h !! v = Some V →
  addChild debug fuel v c b1 h = (h1, Ok tt) →
  removeChild debug fuel v c b2 h1 = (h2, r) →
  (r = Ok tt → children_restored h h2 v)
  ∧ (Forall (inspectable debug h) (childWPtrs_ V) → inspectable debug h c →
     children_restored h h2 v ∧ (b2 = false → r = Ok tt)).
Proof.
  intros HV Eadd Erem.
  set (l := childWPtrs_ V) in *.
  (* addChild *)
  unfold addChild in Eadd.
  apply bind_ok_inv in Eadd as (h0 & [] & E0 & Eadd).
  apply ASSERT_NOT_PRUNED_inv in E0 as [-> HpV]. specialize (HpV eq_refl).
  apply bind_ok_inv in Eadd as (ha & [] & E1 & Eadd).
  unfold modify in E1. rewrite HV in E1. injection E1 as <-.
  fold l in Eadd.
  set (Va := set_childWPtrs (l ++ [c]) V) in *.
  assert (Hs1 : same_shape (<[v := Va]> h) h1).
  { destruct b1; cbn [when] in Eadd.
    - by eapply updateCostAndDepth_same_shape.
    - injection Eadd as <-. apply same_shape_refl. }
  assert (Hid1 : same_identity h h1).
  { eapply same_identity_trans;
      [by apply (same_identity_children h v V (l ++ [c]))|].
    by apply same_shape_identity. }
  destruct (same_shape_lookup _ _ v Va Hs1 (lookup_insert_eq _ _ _))
    as (V1 & HV1 & Hl1).
  apply same_links_fields in Hl1 as (_ & _ & Hch1 & _ & _ & Hpr1).
  cbn in Hch1, Hpr1.
  split.
  - (* both calls returned *)
    intros ->. unfold removeChild in Erem.
    apply bind_ok_inv in Erem as (h0 & [] & E0 & Erem).
    apply ASSERT_NOT_PRUNED_inv in E0 as [-> _].
    apply bind_ok_inv in Erem as (h0 & V1' & E0 & Erem).
    apply deref_inv in E0 as [-> HV1']. specialize (HV1' _ eq_refl).
    assert (V1' = V1) as -> by congruence. rewrite Hch1 in Erem.
    apply bind_ok_inv in Erem as (h1' & found & Escan & Erem).
    apply bind_ok_inv in Erem as (h2' & [] & Eupd & Erem).
    assert (h2' = h2) as ->.
    { apply when_inv in Erem as [(_ & -> & _)|[_ Erem]]; [done|].
      by destruct found; injection Erem as <-. }
    assert (Hs2 : same_shape h1' h2).
    { destruct b2; cbn [when] in Eupd.
      - by eapply updateCostAndDepth_same_shape.
      - injection Eupd as <-. apply same_shape_refl. }
    apply scanChildren_ok_inv in Escan. destruct found.
    + destruct Escan as (j & x & X & Cc & V1' & Hx & HX & HCc & Hidx & HV1''
                         & ->).
      assert (V1' = V1) as -> by congruence. rewrite Hch1 in Hs2.
      cbn [Nat.add] in Hs2. by eapply popped_list_restored.
    + destruct Escan as [_ HF]. apply Forall_app in HF as [_ HF].
      apply Forall_singleton in HF as (X & Cc & HX & HCc & Hne). congruence.
  - (* the children can be inspected *)
    intros HF Hc.
    unfold removeChild in Erem. unfold bind at 1 in Erem.
    rewrite (ASSERT_NOT_PRUNED_live debug v h1 V1 HV1) in Erem.
    2:{ intros Hd. rewrite Hpr1. destruct (HpV Hd) as (V' & HV' & ?).
        congruence. }
    unfold bind at 1, deref in Erem. rewrite HV1, Hch1 in Erem.
    destruct (inspectable_same_identity _ _ _ Hid1 Hc) as (Cc & HCc & HpCc).
    unfold bind at 1 in Erem.
    rewrite (scanChildren_run v c Cc h1 HCc HpCc) in Erem.
    2:{ apply Forall_app. split.
        - eapply Forall_impl; [exact HF|]. intros x.
          by apply inspectable_same_identity.
        - apply Forall_singleton. by exists Cc. }
    destruct (first_match_snoc h1 c Cc l HCc) as (j & Hj & Hle).
    rewrite Hj in Erem.
    apply first_match_Some in Hj as (x & X & Hx & HX & Hidx).
    unfold bind at 1, modify in Erem. rewrite HV1, Hch1 in Erem.
    cbn in Erem.
    set (h1' := <[v := set_childWPtrs (swap_and_pop j (l ++ [c])) V1]> h1)
      in *.
    assert (Hs2 : same_shape h1' h2 ∧ (b2 = false → r = Ok tt)).
    { apply bind_inv in Erem as [(f & E & ->)|(h0 & [] & E & Erem)].
      - destruct b2; [|discriminate E]. cbn [when] in E. split; [|done].
        by eapply updateCostAndDepth_same_shape.
      - assert (h2 = h0 ∧ r = Ok tt) as [-> ->].
        { by destruct debug; injection Erem as <- <-. }
        split; [|done]. destruct b2; cbn [when] in E.
        + by eapply updateCostAndDepth_same_shape.
        + injection E as <-. apply same_shape_refl. }
    destruct Hs2 as [Hs2 Hr]. split; [|exact Hr].
    by eapply popped_list_restored.
Qed.

End ChildList.

(** ** The time-indexed validity check *)

(** *** Rounding to the nearest integer *)






Section ValidityProofs.

Context {State SpaceInformationPtr : Type}.

Implicit Types (c : StateValidityChecker State SpaceInformationPtr)
  (s : State) (t : double).

Lemma obstaclesValid_false c s obs :
  obstaclesValid c s obs = false
  ↔ ∃ st, st ∈ obs ∧ areStatesValid c s st = false.
Proof.
  induction obs as [|st obs IH]; cbn [obstaclesValid].
  - split; [done|]. intros (st & Hin & _). by apply elem_of_nil in Hin.
  - destruct (areStatesValid c s st) eqn:Hst; cbn [negb].
    + rewrite IH. split.
      * intros (st' & Hin & Hv). exists st'. split; [by right|done].
      * intros (st' & Hin & Hv).
        apply elem_of_cons in Hin as [->|Hin]; [congruence|eauto].
    + split; [|done]. intros _. exists st. split; [left|done].
Qed.




End ValidityProofs.

(** ** Footprints of the operations *)

Section WritesClosure.

Context {Cost : Type} `{CostHelper Cost}.

Implicit Types (h : gmap ptr (Vertex Cost)) (V W P : Vertex Cost).

Section Closure.

Variable R : relation (gmap ptr (Vertex Cost)).
Context `{!PreOrder R}.

Lemma writes_ret {A} (a : A) : writes R (ret a).
Proof. intros h h' r [= <- _]. reflexivity. Qed.

Lemma writes_failM {A} f : writes R (failM (A := A) f).
Proof. intros h h' r [= <- _]. reflexivity. Qed.

Lemma writes_throw {A} e : writes R (throw (A := A) e).
Proof. apply writes_failM. Qed.

Lemma writes_deref v : writes R (deref v).
Proof. intros h h' r E. apply deref_inv in E as [-> _]. reflexivity. Qed.

Lemma writes_expired c : writes R (expired c).
Proof. intros h h' r [= <- _]. reflexivity. Qed.

Lemma writes_shared p : writes R (shared p).
Proof. intros h h' r [= <- _]. reflexivity. Qed.

Lemma writes_bind {A B} (m : M Cost A) (k : A → M Cost B) :
  writes R m → (∀ a, writes R (k a)) → writes R (bind m k).
Proof.
  intros Hm Hk h h' r E.
  apply bind_inv in E as [(f & E & _)|(h1 & a & E1 & E2)]; [eauto|].
  etransitivity; [exact (Hm _ _ _ E1)|exact (Hk a _ _ _ E2)].
Qed.

Lemma writes_when b (m : M Cost unit) : writes R m → writes R (when b m).
Proof. intros Hm. destruct b; [exact Hm|apply writes_ret]. Qed.

Lemma writes_modify v f :
  (∀ h V, h !! v = Some V → R h (<[v := f V]> h)) → writes R (modify v f).
Proof.
  intros Hf h h' r E.
  apply modify_inv in E as [(V & HV & -> & _)|(_ & -> & _)];
    [eauto|reflexivity].
Qed.

Lemma writes_forEach (body : ptr → M Cost unit) l :
  (∀ c, writes R (body c)) → writes R (forEach body l).
Proof.
  intros Hb. induction l as [|c l IH]; cbn [forEach].
  - apply writes_ret.
  - apply writes_bind; [apply Hb|]. intros _. exact IH.
Qed.

End Closure.

End WritesClosure.

(** Takes a computation apart along its binds and branches. *)
Ltac writes_tac :=
  repeat first
    [ apply writes_ret; try exact _ | apply writes_throw; try exact _
    | apply writes_failM; try exact _
    | apply writes_deref; try exact _ | apply writes_expired; try exact _
    | apply writes_shared; try exact _
    | apply writes_when; try exact _
    | apply writes_bind; try exact _; [|intros ?]
    | match goal with
      | |- writes _ (if ?b then _ else _) => destruct b
      | |- writes _ (match ?x with _ => _ end) => destruct x
      end ].

Section FootprintProofs.

Context {Cost : Type} `{CostHelper Cost}.
Variable debug : bool.

Implicit Types (h : gmap ptr (Vertex Cost)) (V W P : Vertex Cost).

Section QueryClosure.

Variable R : relation (gmap ptr (Vertex Cost)).
Context `{!PreOrder R}.

Lemma writes_collectChildren l : writes R (collectChildren debug l).
Proof.
  induction l as [|c l IH]; cbn [collectChildren]; [apply writes_ret; exact _|].
  apply writes_bind; try exact _; [writes_tac|]. intros _.
  apply writes_bind; try exact _; [exact IH|]. intros ?. apply writes_ret; exact _.
Qed.

Lemma writes_getId v : writes R (getId debug v).
Proof. unfold getId, ASSERT_NOT_PRUNED, assertNotPruned. writes_tac. Qed.

(** A query leaves the heap where it was, as far as any preorder can
    tell. *)
Lemma writes_query fuel v op :
  query_operation op = true → writes R (call debug fuel v op).
Proof.
  destruct op; try discriminate; intros _; cbn [call];
    unfold returning, getId, stateConst, state, isInTree, getDepth,
      getParentConst, getParent, hasChildren, getChildrenConst, getChildren,
      getCost, getEdgeInCost, isNew, hasBeenExpandedToSamples,
      hasBeenExpandedToVertices, isPruned, hasParent, isRoot,
      ASSERT_NOT_PRUNED, assertNotPruned;
    repeat first [ apply writes_collectChildren; try exact _
                 | apply writes_bind; try exact _; [|intros ?]
                 | progress writes_tac ].
Qed.

End QueryClosure.

Section Operations.

Variable R : relation (gmap ptr (Vertex Cost)).
Context `{!PreOrder R}.
Variable v : ptr.

Hypothesis direct :
  ∀ h V V', h !! v = Some V → same_core V V' → R h (<[v := V']> h).
Hypothesis recomputed : ∀ w b, writes R (recompute debug w b).

Lemma writes_updateCostAndDepth fuel u b :
  writes R (updateCostAndDepth debug fuel u b).
Proof.
  intros h h' r E.
  eapply (updateCostAndDepth_keeps debug (R h)); [|exact E|reflexivity].
  intros w b0 h1 h2 r0 E0 HR. etransitivity; [exact HR|].
  by eapply recomputed.
Qed.

Lemma writes_set f : (∀ V, same_core V (f V)) → writes R (modify v f).
Proof.
  intros Hf. apply (writes_modify R _).
  intros h V HV. by apply (direct h V).
Qed.

Lemma writes_scanChildren c rest : ∀ i, writes R (scanChildren debug v c i rest).
Proof.
  induction rest as [|x rest IH]; intros i; cbn [scanChildren].
  - apply writes_ret; exact _.
  - apply writes_bind; try exact _; [writes_tac|]. intros _.
    apply writes_bind; try exact _; [by apply writes_getId|]. intros cid.
    apply writes_bind; try exact _; [by apply writes_getId|]. intros oid.
    destruct (cid =? oid); [|apply IH].
    apply writes_bind; try exact _; [by apply writes_set|]. intros _.
    apply writes_ret; exact _.
Qed.

(** What holds across the direct writes of an operation to its vertex and
    across every recomputation holds across the operation, however it
    ends. *)
Lemma writes_call fuel op : writes R (call debug fuel v op).
Proof.
  destruct (query_operation op) eqn:Hq; [by apply (writes_query R _)|].
  destruct op; try discriminate Hq; cbn [call];
    unfold returning, addParent, removeParent, addChild, removeChild,
      markNew, markOld, markExpandedToSamples, markUnexpandedToSamples,
      markExpandedToVertices, markUnexpandedToVertices, markPruned,
      markUnpruned, hasParent, isRoot, ASSERT_NOT_PRUNED, assertNotPruned;
    repeat first [ apply writes_updateCostAndDepth
                 | apply writes_scanChildren
                 | apply writes_set; by intros []
                 | apply writes_bind; try exact _; [|intros ?]
                 | progress writes_tac ].
Qed.

End Operations.

(** Property X1: an operation that returns a value (a getter or the query
    of a flag) leaves every vertex as it was, also when it throws. *)
Theorem query_keeps_heap fuel v op h h' r :
  query_operation op = true → call debug fuel v op h = (h', r) → h' = h.
Proof.
  intros Hop E. symmetry. revert E. by apply (writes_query eq fuel v op).
Qed.

Lemma footprint_preorder v : PreOrder (footprint (Cost := Cost) v).
Proof.
  split.
  - intros h q. destruct (h !! q) as [X|]; [|done].
    repeat split; try done. intros _. apply same_links_refl.
  - intros h1 h2 h3 H12 H23 q. specialize (H12 q). specialize (H23 q).
    destruct (h1 !! q) as [X1|], (h2 !! q) as [X2|], (h3 !! q) as [X3|];
      try done.
    destruct H12 as (? & ? & ? & L12), H23 as (? & ? & ? & L23).
    repeat split; try congruence.
    intros Hne. specialize (L12 Hne). specialize (L23 Hne).
    unfold same_links in *. rewrite L23, L12. by destruct X1.
Qed.

(** The footprint of a call on the heap of the model. *)
Lemma call_footprint fuel v op h h' r :
  call debug fuel v op h = (h', r) → footprint v h h'.
Proof.
  pose proof (footprint_preorder v) as Hpre.
  apply (writes_call (footprint v) v).
  - intros h0 V V' HV (Hid & Hst & Hr & _) q.
    destruct (decide (q = v)) as [->|Hne].
    + rewrite HV, lookup_insert_eq. done.
    + rewrite lookup_insert_ne by done.
      destruct (h0 !! q) as [X|]; [|done].
      repeat split; try done. intros _. apply same_links_refl.
  - intros w b h0 h1 r0 E.
    apply recompute_cases in E as [[-> _]|(W & c & d & HW & -> & _)];
      [reflexivity|].
    intros q. destruct (decide (q = w)) as [->|Hne].
    + rewrite HW, lookup_insert_eq. repeat split; try done.
    + rewrite lookup_insert_ne by done.
      destruct (h0 !! q) as [X|]; [|done].
      repeat split; try done. intros _. apply same_links_refl.
Qed.

(** Property X2: whatever operation is called on a vertex [v] and however
    the call ends, a vertex that is alive before and after the call has
    the id, the state and the root flag it had, and, when it is not [v],
    also its parent, edge cost, children and flags: a call on [v] changes
    the other vertices in cost and depth at most. *)
Theorem operation_footprint fuel v op h h' r q X X' :
  call debug fuel v op h = (h', r) →
  h !! q = Some X → h' !! q = Some X' →
  vId_ X' = vId_ X ∧ state_ X' = state_ X ∧ isRoot_ X' = isRoot_ X
  ∧ (q ≠ v → same_links X X').
Proof.
  intros E HX HX'. apply call_footprint in E. specialize (E q).
  by rewrite HX, HX' in E.
Qed.

Lemma keeps_preorder (J : gmap ptr (Vertex Cost) → Prop) :
  PreOrder (λ h h', J h → J h').
Proof. split; [by intros h|]. intros h1 h2 h3 H12 H23 Hj. auto. Qed.

(** Property X3: when every root carries the identity cost and depth 0,
    every root does so after any operation on any vertex, however the call
    ends and whatever parent a root has been given. *)
Theorem roots_stay_normal fuel v op h h' r :
  call debug fuel v op h = (h', r) → roots_normal h → roots_normal h'.
Proof.
  pose proof (keeps_preorder roots_normal) as Hpre.
  apply (writes_call (λ h h', roots_normal h → roots_normal h') v).
  - intros h0 V V' HV (_ & _ & Hr & Hc & Hd) Hj w W HW Hroot.
    destruct (decide (w = v)) as [->|Hne].
    + rewrite lookup_insert_eq in HW. injection HW as <-.
      rewrite Hc, Hd. apply (Hj v V HV). congruence.
    + rewrite lookup_insert_ne in HW by done. eauto.
  - intros w b h0 h1 r0 E Hj.
    apply recompute_cases in E as [[-> _]|(W & c & d & HW & -> & Hcase)];
      [done|].
    intros q Q HQ Hroot. destruct (decide (q = w)) as [->|Hne].
    + rewrite lookup_insert_eq in HQ. injection HQ as <-.
      cbn in Hroot |- *.
      destruct Hcase as [Hexp|(_ & Hnr & _)]; [|congruence].
      unfold expected in Hexp. by rewrite Hroot in Hexp.
    + rewrite lookup_insert_ne in HQ by done. eauto.
Qed.

Lemma same_tree_refl V : same_tree V V.
Proof. by repeat split. Qed.

Lemma flags_only_preorder v : PreOrder (flags_only (Cost := Cost) v).
Proof.
  split.
  - intros h q. destruct (h !! q) as [X|]; [|done].
    split; [apply same_tree_refl|done].
  - intros h1 h2 h3 H12 H23 q. specialize (H12 q). specialize (H23 q).
    destruct (h1 !! q) as [X1|], (h2 !! q) as [X2|], (h3 !! q) as [X3|];
      try done.
    destruct H12 as [T12 E12], H23 as [T23 E23]. split.
    + unfold same_tree in *. intuition congruence.
    + intros Hne. rewrite (E23 Hne). auto.
Qed.

Lemma flags_only_write v h V V' :
  h !! v = Some V → same_tree V V' → flags_only v h (<[v := V']> h).
Proof.
  intros HV Ht q. destruct (decide (q = v)) as [->|Hne].
  - rewrite HV, lookup_insert_eq. done.
  - rewrite lookup_insert_ne by done.
    destruct (h !! q) as [X|]; [|done]. split; [apply same_tree_refl|done].
Qed.

Lemma flags_only_invariant v h h' w :
  flags_only v h h' →
  cost_cascade_invariant_at h w ↔ cost_cascade_invariant_at h' w.
Proof.
  intros Hf. pose proof (Hf w) as Hq. unfold cost_cascade_invariant_at.
  destruct (h !! w) as [X|] eqn:Hw, (h' !! w) as [X'|] eqn:Hw'; try done.
  assert (Hexp : consistent h X ↔ consistent h' X').
  { destruct Hq as [(_ & _ & Hr & Hd & Hp & He & Hc & _) _].
    unfold consistent, expected. rewrite Hr, Hd, Hp, He, Hc.
    destruct (isRoot_ X); [done|].
    destruct (parentSPtr_ X) as [p|]; [|done].
    pose proof (Hf p) as Hq.
    destruct (h !! p) as [P|], (h' !! p) as [P'|]; try done.
    destruct Hq as [(_ & _ & _ & HdP & _ & _ & HcP & _) _].
    split; intros (P0 & [= <-] & Hx); eexists; (split; [done|]);
      [rewrite HcP, HdP|rewrite <- HcP, <- HdP]; done. }
  split; intros Hx Y [= <-]; apply Hexp; by apply Hx.
Qed.

(** Property X4: the operations that set or clear a lifecycle flag
    ([markNew], [markOld], [markExpandedToSamples],
    [markUnexpandedToSamples], [markExpandedToVertices],
    [markUnexpandedToVertices], [markPruned], [markUnpruned]) change
    nothing but flags of their own vertex; the cost-cascade invariant holds
    at a vertex afterwards exactly when it held before. *)
Theorem mark_keeps_tree fuel v op h h' r :
  mark_operation op = true → call debug fuel v op h = (h', r) →
  flags_only v h h'
  ∧ ∀ w, cost_cascade_invariant_at h w ↔ cost_cascade_invariant_at h' w.
Proof.
  intros Hop E. pose proof (flags_only_preorder v) as Hpre.
  assert (Hf : flags_only v h h').
  { revert h h' r E.
    change (writes (flags_only v) (call debug fuel v op)).
    destruct op; try discriminate Hop; cbn [call];
      unfold returning, markNew, markOld, markExpandedToSamples,
        markUnexpandedToSamples, markExpandedToVertices,
        markUnexpandedToVertices, markPruned, markUnpruned,
        ASSERT_NOT_PRUNED, assertNotPruned;
      repeat first
        [ apply writes_bind; try exact _; [|intros ?]
        | progress writes_tac ].
    all: apply (writes_modify (flags_only v)).
    all: intros h0 V0 HV0; apply (flags_only_write v h0 V0); [exact HV0|].
    all: by repeat split. }
  split; [exact Hf|]. intros w. by eapply flags_only_invariant.
Qed.

End FootprintProofs.

(** ** More on the cost propagator *)

Section QueryValues.

Context {Cost : Type} `{CostHelper Cost}.
Variable debug : bool.

Implicit Types (h : gmap ptr (Vertex Cost)) (V W P : Vertex Cost).

(** What the queries return on a live vertex (not pruned where
    [BITSTAR_DEBUG] is defined). *)
Lemma query_values v h V :
  h !! v = Some V → (debug = true → isPruned_ V = false) →
  hasParent debug v h = (h, Ok (engaged (parentSPtr_ V)))
  ∧ isInTree debug v h = (h, Ok (isRoot_ V || engaged (parentSPtr_ V)))
  ∧ getCost debug v h = (h, Ok (cost_ V))
  ∧ getDepth debug v h
    = (h, if debug && negb (isRoot_ V || engaged (parentSPtr_ V))
          then Fail (Exception DepthOfDisconnected) else Ok (depth_ V))
  ∧ getParent debug v h
    = (h, if debug && negb (engaged (parentSPtr_ V))
          then Fail (Exception (if isRoot_ V then ParentOfRoot
                                else ParentOfOrphan))
          else Ok (parentSPtr_ V))
  ∧ getParentConst debug v h = getParent debug v h
  ∧ getEdgeInCost debug v h
    = (h, if debug && negb (engaged (parentSPtr_ V))
          then Fail (Exception EdgeCostWithoutParent) else Ok (edgeCost_ V))
  ∧ hasChildren debug v h = (h, Ok (negb (empty (childWPtrs_ V)))).
Proof.
  intros HV Hp.
  unfold getParentConst, getParent, getEdgeInCost. run_ops.
  destruct debug; [specialize (Hp eq_refl)|clear Hp];
    destruct (isRoot_ V) eqn:Hr, (parentSPtr_ V) eqn:Hpar; mred;
    repeat split; reflexivity.
Qed.

End QueryValues.

Section CascadeProofs.

Context {Cost : Type} `{CostHelper Cost}.
Variable debug : bool.

Implicit Types (h : gmap ptr (Vertex Cost)) (V W P : Vertex Cost).

Lemma forEach_keeps_in (J : gmap ptr (Vertex Cost) → Prop)
    (body : ptr → M Cost unit) l :
  (∀ c h h' r, c ∈ l → body c h = (h', r) → J h → J h') →
  ∀ h h' r, forEach body l h = (h', r) → J h → J h'.
Proof.
  induction l as [|c l IH]; intros Hbody h h' r E Hj.
  - by injection E as <- <-.
  - cbn [forEach] in E.
    apply bind_inv in E as [(f & E1 & ->)|(h0 & [] & E1 & E)].
    + eapply Hbody; [left|exact E1|exact Hj].
    + eapply IH; [|exact E|].
      * intros c' h1 h1' r1 Hc'. apply Hbody. by right.
      * eapply Hbody; [left|exact E1|exact Hj].
Qed.

(** A property of the heaps of one shape that every recomputation of a
    vertex below [u0] keeps is kept by the cascade from a vertex below
    [u0]. *)
Lemma updateCostAndDepth_keeps_reached h0 u0
    (J : gmap ptr (Vertex Cost) → Prop) :
  (∀ h, J h → same_shape h0 h) →
  (∀ w b h h1 r, reaches h0 u0 w →
                 recompute debug w b h = (h1, r) → J h → J h1) →
  ∀ fuel u b h h' r,
    reaches h0 u0 u →
    updateCostAndDepth debug fuel u b h = (h', r) → J h → J h'.
Proof.
  intros Hshape Hrec.
  induction fuel as [|fuel IH]; intros u b h h' r Hu E Hj;
    cbn [updateCostAndDepth] in E; unfold updateCostAndDepth_body in E.
  all: apply bind_inv in E as [(f & E1 & ->)|(h1 & [] & E1 & E)];
       apply ASSERT_NOT_PRUNED_inv in E1 as [-> _]; [done|].
  all: apply bind_inv in E as [(f & E1 & ->)|(h1 & [] & E1 & E)];
       [by eapply Hrec|].
  all: pose proof (Hrec _ _ _ _ _ Hu E1 Hj) as Hj1.
  all: destruct b; [|by injection E as <- _].
  all: apply bind_inv in E as [(f & E2 & ->)|(h2 & U & E2 & E)];
       apply deref_inv in E2 as [-> HU]; [done|].
  all: specialize (HU _ eq_refl).
  all: pose proof (same_shape_sym _ _ (Hshape _ Hj1)) as Hs.
  all: destruct (same_shape_lookup _ _ _ _ Hs HU) as (U0 & HU0 & Hl).
  all: apply same_links_fields in Hl as (_ & _ & Hch & _).
  all: revert E Hj1; apply forEach_keeps_in.
  all: intros c hc hc' rc Hc Ec Hjc.
  all: apply bind_inv in Ec as [(f & E1' & ->)|(h1' & [] & E1' & Ec)];
       (apply when_inv in E1' as [(_ & -> & _)|[_ E1']];
        [|apply check_expired_inv in E1' as [-> _]]); try done.
  1,2: by injection Ec as <- _.
  all: eapply IH; [|exact Ec|exact Hjc].
  all: eapply reaches_trans; [exact Hu|].
  all: eapply reaches_child; [exact HU0| |constructor].
  all: by rewrite Hch.
Qed.

(** [recompute], with the cost it had written when it failed on the way. *)
Lemma recompute_partial w b h h1 r :
  recompute debug w b h = (h1, r) →
  h1 = h
  ∨ ∃ W c d, h !! w = Some W
      ∧ h1 = <[w := set_depth d (set_cost c W)]> h
      ∧ (expected h W c d
         ∨ (isRoot_ W = false ∧ d = depth_ W
            ∧ ∃ p P, parentSPtr_ W = Some p ∧ h !! p = Some P
                     ∧ c = combineCosts (cost_ P) (edgeCost_ W))).
Proof.
  intros E. unfold recompute in E.
  apply bind_inv in E as [(f & E1 & ->)|(h0 & r0 & E1 & E)];
    apply isRoot_inv in E1 as [-> Hr].
  { by left. }
  destruct (Hr _ eq_refl) as (W & Hw & ->). clear Hr.
  destruct (isRoot_ W) eqn:Hroot.
  { right. exists W, identityCost, 0.
    unfold bind, modify in E. rewrite Hw in E. cbn in E.
    rewrite lookup_insert_eq, insert_insert_eq in E.
    injection E as <- <-. repeat split; [done|].
    left. unfold expected. rewrite Hroot. done. }
  apply bind_inv in E as [(f & E1 & ->)|(h0 & p0 & E1 & E)];
    apply hasParent_inv in E1 as [-> Hp].
  { by left. }
  destruct (Hp _ eq_refl) as (W' & Hw' & ->). clear Hp.
  assert (W' = W) as -> by congruence. clear Hw'.
  destruct (parentSPtr_ W) as [p|] eqn:Hpar; cbn [engaged negb] in E.
  - apply bind_inv in E as [(f & E1 & ->)|(h0 & pc & E1 & E)].
    { apply bind_inv in E1 as [(f' & E1 & _)|(h0 & p' & E1 & E2)].
      - apply arrow_parentSPtr_inv in E1 as [-> _]. by left.
      - apply arrow_parentSPtr_inv in E1 as [-> _].
        apply getCost_inv in E2 as [-> _]. by left. }
    apply bind_ok_inv in E1 as (h0' & p' & E1 & E2).
    apply arrow_parentSPtr_inv in E1 as [-> Hp'].
    destruct (Hp' _ eq_refl) as (W' & Hw' & Hpar'). clear Hp'.
    assert (W' = W) as -> by congruence. clear Hw'.
    assert (p' = p) as -> by congruence. clear Hpar'.
    apply getCost_inv in E2 as [-> Hc].
    destruct (Hc _ eq_refl) as (P & HP & ->). clear Hc.
    right. exists W, (combineCosts (cost_ P) (edgeCost_ W)).
    unfold bind at 1 in E. unfold modify at 1 in E. rewrite Hw in E.
    set (W1 := set_cost (combineCosts (cost_ P) (edgeCost_ W)) W) in *.
    assert (Hw1 : <[w := W1]> h !! w = Some W1) by apply lookup_insert_eq.
    apply bind_inv in E as [(f & E1 & ->)|(h0 & pd & E1 & E)].
    { exists (depth_ W). split; [done|]. split.
      - apply bind_inv in E1 as [(f' & E1 & _)|(h0 & p' & E1 & E2)].
        + apply arrow_parentSPtr_inv in E1 as [-> _]. done.
        + apply arrow_parentSPtr_inv in E1 as [-> _].
          apply getDepth_inv in E2 as [-> _]. done.
      - right. split; [done|]. split; [done|]. exists p, P. done. }
    apply bind_ok_inv in E1 as (h0' & p' & E1 & E2).
    apply arrow_parentSPtr_inv in E1 as [-> Hp'].
    destruct (Hp' _ eq_refl) as (W' & Hw' & Hpar'). clear Hp'.
    assert (W' = W1) as -> by congruence.
    assert (p' = p) as -> by (cbn in Hpar'; congruence).
    apply getDepth_inv in E2 as [-> Hd].
    destruct (Hd _ eq_refl) as (P2 & HP2 & ->). clear Hd.
    unfold modify in E. rewrite Hw1 in E. injection E as <- <-.
    rewrite insert_insert_eq.
    exists (uint_succ (depth_ P2)). split; [done|]. split; [done|].
    left. unfold expected. rewrite Hroot, Hpar. exists P.
    split; [done|]. split; [done|].
    destruct (decide (p = w)) as [->|Hne].
    + rewrite Hw1 in HP2. injection HP2 as <-.
      assert (P = W) as -> by congruence. done.
    + rewrite lookup_insert_ne in HP2 by congruence.
      assert (P2 = P) as -> by congruence. done.
  - right. exists W, infiniteCost, 0. split; [done|].
    unfold bind at 1 2 in E. unfold modify in E. rewrite Hw in E. cbn in E.
    rewrite lookup_insert_eq, insert_insert_eq in E.
    split.
    + apply when_inv in E as [(_ & -> & _)|[_ E]]; [done|].
      apply bind_inv in E as [(f & E1 & ->)|(h0 & c & E1 & E)];
        apply hasChildren_inv in E1 as [-> _]; [done|].
      destruct (c && b); by injection E as <- <-.
    + left. unfold expected. rewrite Hroot, Hpar. done.
Qed.

Lemma expected_functional h W c d c' d' :
  expected h W c d → expected h W c' d' → c = c' ∧ d = d'.
Proof.
  unfold expected. destruct (isRoot_ W); [intuition congruence|].
  destruct (parentSPtr_ W); [|intuition congruence].
  intros (P & HP & -> & ->) (P' & HP' & -> & ->).
  assert (P' = P) as -> by congruence. done.
Qed.

Lemma recompute_consistent w b h h1 r :
  cost_cascade_invariant_at h w →
  recompute debug w b h = (h1, r) → h1 = h.
Proof.
  intros Hinv E.
  apply recompute_partial in E as [->|(W & c & d & HW & -> & Hcase)]; [done|].
  specialize (Hinv W HW).
  assert (c = cost_ W ∧ d = depth_ W) as [-> ->].
  { destruct Hcase as [Hexp|(Hroot & -> & p & P & Hpar & HP & ->)].
    - eapply expected_functional; eauto.
    - split; [|done]. unfold consistent, expected in Hinv.
      rewrite Hroot, Hpar in Hinv. destruct Hinv as (P' & HP' & -> & _).
      congruence. }
  apply insert_id. rewrite HW. by destruct W.
Qed.

Lemma cascade_noop fuel u b h h' r :
  (∀ w, reaches h u w → cost_cascade_invariant_at h w) →
  updateCostAndDepth debug fuel u b h = (h', r) → h' = h.
Proof.
  intros Hinv E.
  eapply (updateCostAndDepth_keeps_reached h u (λ h1, h1 = h));
    [| |constructor|exact E|done].
  - intros h1 ->. apply same_shape_refl.
  - intros w b0 h1 h2 r0 Hw E0 ->.
    eapply recompute_consistent; [|exact E0]. by apply Hinv.
Qed.

(** Property X5: [updateCostAndDepth] changes nothing when the
    cost-cascade invariant holds at every vertex it can reach through the
    child lists; so, after a cascade that returned, on child lists that
    list every vertex with its parent, a second run of
    [updateCostAndDepth] from the same vertex changes nothing. *)
Theorem cascade_idempotent fuel u h :
  (∀ b h' r,
     (∀ w, reaches h u w → cost_cascade_invariant_at h w) →
     updateCostAndDepth debug fuel u b h = (h', r) → h' = h)
  ∧ (∀ h1 fuel' b h2 r,
       registered h u →
       updateCostAndDepth debug fuel u true h = (h1, Ok tt) →
       updateCostAndDepth debug fuel' u b h1 = (h2, r) → h2 = h1).
Proof.
  split; [intros b h' r; apply cascade_noop|].
  intros h1 fuel' b h2 r Hreg E1 E2.
  pose proof (updateCostAndDepth_same_shape _ _ _ _ _ _ _ E1) as Hs.
  eapply cascade_noop; [|exact E2].
  intros w Hw.
  eapply (updateCostAndDepth_cascades debug fuel); [exact Hreg|exact E1|].
  right. eapply reaches_same_shape; [by apply same_shape_sym|exact Hw].
Qed.

(** Property X6: [updateCostAndDepth] writes costs and depths only; a
    vertex that cannot be reached from the start through the child lists
    is left as it was, and without the cascade flag so is every vertex but
    the start, however the call ends. *)
Theorem cascade_frame fuel u b h h' r :
  updateCostAndDepth debug fuel u b h = (h', r) →
  same_shape h h'
  ∧ (∀ w, ¬ reaches h u w → h' !! w = h !! w)
  ∧ (b = false → ∀ w, w ≠ u → h' !! w = h !! w).
Proof.
  intros E. split; [by eapply updateCostAndDepth_same_shape|]. split.
  - eapply (updateCostAndDepth_keeps_reached h u
              (λ h1, same_shape h h1
                     ∧ ∀ w, ¬ reaches h u w → h1 !! w = h !! w));
      [| |constructor|exact E|].
    + by intros h1 [? _].
    + intros w b0 h1 h2 r0 Hw E0 [Hs Hout]. split.
      * by eapply recompute_same_shape.
      * intros q Hq.
        apply recompute_cases in E0 as [[-> _]|(W & c & d & HW & -> & _)];
          [by apply Hout|].
        rewrite lookup_insert_ne; [by apply Hout|]. by intros ->.
    + split; [apply same_shape_refl|done].
  - intros -> w Hne.
    assert (E' : (ASSERT_NOT_PRUNED debug u ;;; recompute debug u false ;;;
                  ret tt) h = (h', r)) by (by destruct fuel).
    clear E.
    apply bind_inv in E' as [(f & E1 & ->)|(h1 & [] & E1 & E)];
      apply ASSERT_NOT_PRUNED_inv in E1 as [-> _]; [done|].
    assert (∃ r1, recompute debug u false h = (h', r1)) as [r1 E1].
    { apply bind_inv in E as [(f & E1 & ->)|(h1 & [] & E1 & E)]; [eauto|].
      injection E as <- _. eauto. }
    apply recompute_cases in E1 as [[-> _]|(W & c & d & HW & -> & _)];
      [done|].
    by rewrite lookup_insert_ne.
Qed.

(** *** Cycles in the child lists *)

Lemma forEach_ok_in (self : ptr → M Cost unit) l :
  (∀ c h1 h2 r, self c h1 = (h2, r) → same_shape h1 h2) →
  ∀ h h',
    forEach (λ childWPtr,
               when debug
                 (x <- expired childWPtr ;;
                  if x then throw ExpiredWhileUpdating else ret tt) ;;;
               self childWPtr) l h = (h', Ok tt) →
    ∀ c, c ∈ l → ∃ h1 h2, same_shape h h1 ∧ self c h1 = (h2, Ok tt).
Proof.
  intros Hself. induction l as [|a l IH]; intros h h' E c Hc.
  - by apply elem_of_nil in Hc.
  - cbn [forEach] in E. apply bind_ok_inv in E as (h2 & [] & E1 & E).
    apply bind_ok_inv in E1 as (h1 & [] & E0 & E1).
    assert (h1 = h) as ->.
    { apply when_inv in E0 as [(_ & -> & _)|[_ E0]]; [done|].
      by apply check_expired_inv in E0 as [-> _]. }
    apply elem_of_cons in Hc as [->|Hc].
    + exists h, h2. split; [apply same_shape_refl|done].
    + destruct (IH _ _ E c Hc) as (h3 & h4 & Hs & E3).
      exists h3, h4. split; [|done].
      eapply same_shape_trans; [|exact Hs]. by eapply Hself.
Qed.

(** A cascade that returns has run, with less fuel, the cascade of every
    child. *)
Lemma cascade_ok_child fuel u h h' U c :
  updateCostAndDepth debug fuel u true h = (h', Ok tt) →
  h !! u = Some U → c ∈ childWPtrs_ U →
  ∃ f hx hy, fuel = S f ∧ same_shape h hx
             ∧ updateCostAndDepth debug f c true hx = (hy, Ok tt).
Proof.
  intros E HU Hc.
  assert (E' : updateCostAndDepth_body debug
                 match fuel with
                 | O => λ _, failM FuelExhausted
                 | S fuel' => λ child, updateCostAndDepth debug fuel' child true
                 end u true h = (h', Ok tt)) by (by destruct fuel).
  clear E. unfold updateCostAndDepth_body in E'.
  apply bind_ok_inv in E' as (h0 & [] & E0 & E).
  apply ASSERT_NOT_PRUNED_inv in E0 as [-> _].
  apply bind_ok_inv in E as (h1 & [] & E1 & E).
  pose proof (recompute_same_shape debug h _ _ _ _ _ E1 (same_shape_refl h))
    as Hs1.
  apply bind_ok_inv in E as (h2 & U1 & E2 & E).
  apply deref_inv in E2 as [-> HU1]. specialize (HU1 _ eq_refl).
  destruct (same_shape_lookup _ _ _ _ Hs1 HU) as (U1' & HU1' & Hl).
  assert (U1' = U1) as -> by congruence.
  apply same_links_fields in Hl as (_ & _ & Hch & _).
  eapply forEach_ok_in in E as (hx & hy & Hsx & Ex);
    [| |rewrite Hch; exact Hc].
  - destruct fuel as [|f]; [discriminate Ex|].
    exists f, hx, hy. split; [done|]. split; [|done].
    by eapply same_shape_trans.
  - intros c0 ha hb r0. destruct fuel as [|f].
    + intros [= <- _]. apply same_shape_refl.
    + apply updateCostAndDepth_same_shape.
Qed.

Lemma cascade_ok_descends h0 c u :
  reaches h0 c u →
  ∀ fuel h h',
    same_shape h0 h →
    updateCostAndDepth debug fuel c true h = (h', Ok tt) →
    ∃ fuel' h1 h2, (fuel' ≤ fuel)%nat ∧ same_shape h0 h1
                   ∧ updateCostAndDepth debug fuel' u true h1 = (h2, Ok tt).
Proof.
  induction 1 as [u|c C c1 u HC Hc1 _ IH]; intros fuel h h' Hs E.
  - exists fuel, h, h'. done.
  - destruct (same_shape_lookup _ _ _ _ Hs HC) as (C' & HC' & Hl).
    apply same_links_fields in Hl as (_ & _ & Hch & _).
    destruct (cascade_ok_child fuel c h h' C' c1 E HC')
      as (f & hx & hy & -> & Hsx & Ex); [by rewrite Hch|].
    destruct (IH f hx hy) as (fuel' & h1 & h2 & Hle & Hs1 & E1);
      [by eapply same_shape_trans|exact Ex|].
    exists fuel', h1, h2. split; [lia|done].
Qed.

Lemma on_cycle_same_shape h h' u :
  same_shape h h' → on_cycle h u → on_cycle h' u.
Proof.
  intros Hs (U & c & HU & Hc & Hr).
  destruct (same_shape_lookup _ _ _ _ Hs HU) as (U' & HU' & Hl).
  apply same_links_fields in Hl as (_ & _ & Hch & _).
  exists U', c. split; [done|]. split; [by rewrite Hch|].
  by eapply reaches_same_shape.
Qed.

(** Property X7: when a vertex can be reached from one of its own
    children through the child lists, [updateCostAndDepth(true)] on it
    never returns normally, however deep the recursion is allowed to
    go. *)
Theorem cascade_never_returns_on_cycle fuel u h h' r :
  on_cycle h u →
  updateCostAndDepth debug fuel u true h = (h', r) → r ≠ Ok tt.
Proof.
  revert u h h' r.
  induction fuel as [fuel IH] using lt_wf_ind.
  intros u h h' r Hcyc E ->.
  destruct Hcyc as (U & c & HU & Hc & Hr).
  destruct (cascade_ok_child fuel u h h' U c E HU Hc)
    as (f & hx & hy & -> & Hsx & Ex).
  destruct (cascade_ok_descends hx c u
              (reaches_same_shape _ _ _ _ Hsx Hr) f hx hy
              (same_shape_refl hx) Ex)
    as (fuel' & h1 & h2 & Hle & Hs1 & E1).
  refine (IH fuel' _ u h1 h2 (Ok tt) _ E1 eq_refl); [lia|].
  apply (on_cycle_same_shape h h1 u (same_shape_trans _ _ _ Hsx Hs1)).
  exists U, c. done.
Qed.

(** *** Trees *)

Lemma cascadable_mono h n u : cascadable debug h n u → cascadable debug h (S n) u.
Proof.
  revert u. induction n as [|n IH]; intros u (U & HU & Hp & Hrec & Hch);
    exists U; (split; [done|]); (split; [done|]); (split; [done|]).
  - rewrite Hch. constructor.
  - eapply Forall_impl; [exact Hch|]. exact IH.
Qed.

Lemma cascadable_le h n m u :
  (n ≤ m)%nat → cascadable debug h n u → cascadable debug h m u.
Proof.
  induction 1 as [|m _ IH]; [done|]. intros Hc. by apply cascadable_mono, IH.
Qed.

(** A cascade that returns has recomputed a live vertex. *)
Lemma recompute_ok_recomputable u h h1 :
  recompute debug u true h = (h1, Ok tt) →
  ∃ U, h !! u = Some U ∧ recomputable debug h U.
Proof.
  intros E. unfold recompute in E.
  apply bind_ok_inv in E as (h0 & r0 & E1 & E).
  apply isRoot_inv in E1 as [-> Hr].
  destruct (Hr _ eq_refl) as (U & HU & ->). clear Hr.
  exists U. split; [done|].
  destruct (isRoot_ U) eqn:Hroot; [by left|]. right.
  apply bind_ok_inv in E as (h0 & p0 & E1 & E).
  apply hasParent_inv in E1 as [-> Hp].
  destruct (Hp _ eq_refl) as (U' & HU' & ->). clear Hp.
  assert (U' = U) as -> by congruence. clear HU'.
  destruct (parentSPtr_ U) as [p|] eqn:Hpar; cbn [engaged negb] in E.
  - right.
    apply bind_ok_inv in E as (h0 & pc & E1 & E).
    apply bind_ok_inv in E1 as (h0' & p' & E1 & E2).
    apply arrow_parentSPtr_inv in E1 as [-> Hp'].
    destruct (Hp' _ eq_refl) as (U' & HU' & Hpar'). clear Hp'.
    assert (U' = U) as -> by congruence. clear HU'.
    assert (p' = p) as -> by congruence. clear Hpar'.
    pose proof E2 as E2'.
    apply getCost_inv in E2 as [-> Hc].
    destruct (Hc _ eq_refl) as (P & HP & ->). clear Hc.
    exists p, P. split; [done|]. split; [done|]. intros ->.
    assert (HprP : isPruned_ P = false).
    { destruct (isPruned_ P) eqn:HprP; [|done].
      unfold getCost in E2'.
      rewrite (guarded_pruned p h P _ HP HprP) in E2'. discriminate. }
    split; [done|].
    apply bind_ok_inv in E as (h1' & [] & E1 & E).
    apply modify_inv in E1 as [(U' & HU' & -> & _)|(_ & _ & ?)]; [|done].
    assert (U' = U) as -> by congruence. clear HU'.
    apply bind_ok_inv in E as (h2 & pd & E1 & E).
    apply bind_ok_inv in E1 as (h2' & p' & E1 & E2).
    apply arrow_parentSPtr_inv in E1 as [-> Hp'].
    destruct (Hp' _ eq_refl) as (U' & HU' & Hpar'). clear Hp'.
    rewrite lookup_insert_eq in HU'. injection HU' as <-.
    assert (p' = p) as -> by (cbn in Hpar'; congruence). clear Hpar'.
    set (U1 := set_cost (combineCosts (cost_ P) (edgeCost_ U)) U) in *.
    assert (∃ P1, <[u := U1]> h !! p = Some P1 ∧ isPruned_ P1 = false
                  ∧ isRoot_ P1 = isRoot_ P
                  ∧ parentSPtr_ P1 = parentSPtr_ P)
      as (P1 & HP1 & Hpr1 & Hr1 & Hp1).
    { destruct (decide (p = u)) as [->|Hne].
      - exists U1. rewrite lookup_insert_eq.
        assert (P = U) as -> by congruence. done.
      - exists P. by rewrite lookup_insert_ne. }
    destruct (query_values true p _ P1 HP1 (λ _, Hpr1))
      as (_ & _ & _ & Q4 & _).
    rewrite Q4 in E2. cbn [andb] in E2.
    rewrite Hr1, Hp1 in E2.
    destruct (isRoot_ P); [by left|]. right.
    destruct (parentSPtr_ P); [by eexists|]. discriminate E2.
  - left. split; [done|]. intros ->.
    unfold bind at 1 2 in E. unfold modify in E. rewrite HU in E. cbn in E.
    rewrite lookup_insert_eq, insert_insert_eq in E.
    unfold hasChildren in E. unfold bind at 1 2 in E.
    destruct (ASSERT_NOT_PRUNED true u _) as [hx [[]|f]] eqn:Ea in E;
      [|discriminate E].
    apply (ASSERT_NOT_PRUNED_inv true) in Ea as [-> _].
    unfold bind, deref, ret in E. rewrite lookup_insert_eq in E. cbn in E.
    destruct (childWPtrs_ U); [done|]. discriminate E.
Qed.

Lemma upd_ok_live fuel u b h h' :
  updateCostAndDepth debug fuel u b h = (h', Ok tt) →
  ∃ U, h !! u = Some U ∧ (debug = true → isPruned_ U = false).
Proof.
  intros E.
  assert (E' : ∃ self, updateCostAndDepth_body debug self u b h = (h', Ok tt))
    by (destruct fuel; eexists; exact E).
  destruct E' as [self E']. unfold updateCostAndDepth_body in E'.
  apply bind_ok_inv in E' as (h0 & [] & E0 & E1).
  apply ASSERT_NOT_PRUNED_inv in E0 as [-> Hp]. specialize (Hp eq_refl).
  apply bind_ok_inv in E1 as (h1 & [] & E1 & _).
  unfold recompute in E1. apply bind_ok_inv in E1 as (h2 & r0 & E1 & _).
  apply isRoot_inv in E1 as [-> Hr].
  destruct (Hr _ eq_refl) as (U & HU & _). exists U. split; [done|].
  intros Hd. destruct (Hp Hd) as (U' & HU' & ?). congruence.
Qed.

Lemma forEach_ok_all (self : ptr → M Cost unit) (Q : ptr → Prop) h0 :
  (∀ c h1 h2 r, self c h1 = (h2, r) → same_shape h1 h2) →
  (∀ c h1 h2, same_shape h0 h1 → self c h1 = (h2, Ok tt) → Q c) →
  ∀ l h h',
    same_shape h0 h →
    forEach (λ childWPtr,
               when debug
                 (x <- expired childWPtr ;;
                  if x then throw ExpiredWhileUpdating else ret tt) ;;;
               self childWPtr) l h = (h', Ok tt) →
    Forall Q l.
Proof.
  intros Hshape Hself. induction l as [|a l IH]; intros h h' Hs E;
    [constructor|].
  cbn [forEach] in E. apply bind_ok_inv in E as (h2 & [] & E1 & E).
  apply bind_ok_inv in E1 as (h1 & [] & E0 & E1).
  assert (h1 = h) as ->.
  { apply when_inv in E0 as [(_ & -> & _)|[_ E0]]; [done|].
    by apply check_expired_inv in E0 as [-> _]. }
  constructor; [by eapply Hself|].
  eapply IH; [|exact E]. eapply same_shape_trans; [exact Hs|].
  by eapply Hshape.
Qed.

Lemma upd_ok_cascadable fuel :
  ∀ u h h', updateCostAndDepth debug fuel u true h = (h', Ok tt) →
            cascadable debug h fuel u.
Proof.
  induction fuel as [|fuel IH]; intros u h h' E;
    destruct (upd_ok_live _ _ _ _ _ E) as (U & HU & Hp);
    cbn [updateCostAndDepth] in E; unfold updateCostAndDepth_body in E;
    apply bind_ok_inv in E as (h0 & [] & E0 & E);
    apply ASSERT_NOT_PRUNED_inv in E0 as [-> _];
    apply bind_ok_inv in E as (h1 & [] & E1 & E);
    pose proof (recompute_same_shape debug h _ _ _ _ _ E1 (same_shape_refl h))
      as Hs1;
    destruct (recompute_ok_recomputable _ _ _ E1) as (U' & HU' & Hrec);
    assert (U' = U) as -> by congruence;
    apply bind_ok_inv in E as (h2 & U1 & E2 & E);
    apply deref_inv in E2 as [-> HU1]; specialize (HU1 _ eq_refl);
    destruct (same_shape_lookup _ _ _ _ Hs1 HU) as (U1' & HU1' & Hl);
    assert (U1' = U1) as -> by congruence;
    apply same_links_fields in Hl as (_ & _ & Hch & _);
    rewrite Hch in E;
    exists U; (split; [done|]); (split; [done|]); (split; [done|]).
  - destruct (childWPtrs_ U) as [|c l]; [done|].
    cbn [forEach] in E. apply bind_ok_inv in E as (h2 & [] & E & _).
    apply bind_ok_inv in E as (h3 & [] & _ & E). discriminate E.
  - eapply (forEach_ok_all _ _ h); [| |exact Hs1|exact E].
    + intros c ha hb r. apply updateCostAndDepth_same_shape.
    + intros c ha hb Hsa Ec.
      eapply cascadable_same_shape; [by apply same_shape_sym|].
      by eapply IH.
Qed.

(** The bound on the recursion plays no role in what a cascade that
    returns has done. *)
Lemma upd_fuel_mono fuel :
  ∀ fuel' u b h h', (fuel ≤ fuel')%nat →
    updateCostAndDepth debug fuel u b h = (h', Ok tt) →
    updateCostAndDepth debug fuel' u b h = (h', Ok tt).
Proof.
  assert (Hbody : ∀ (self self' : ptr → M Cost unit),
            (∀ c h h', self c h = (h', Ok tt) → self' c h = (h', Ok tt)) →
            ∀ u b h h',
              updateCostAndDepth_body debug self u b h = (h', Ok tt) →
              updateCostAndDepth_body debug self' u b h = (h', Ok tt)).
  { intros self self' Hs u b h h' E. unfold updateCostAndDepth_body in *.
    apply bind_ok_inv in E as (h0 & [] & E0 & E). unfold bind at 1.
    rewrite E0.
    apply bind_ok_inv in E as (h1 & [] & E1 & E). unfold bind at 1.
    rewrite E1. destruct b; [|exact E].
    apply bind_ok_inv in E as (h2 & U & E2 & E). unfold bind at 1.
    rewrite E2. clear -Hs E. revert h2 E.
    induction (childWPtrs_ U) as [|c l IH]; intros h2 E; [exact E|].
    cbn [forEach] in *.
    apply bind_ok_inv in E as (h3 & [] & E1 & E).
    apply bind_ok_inv in E1 as (h4 & [] & E0 & E1).
    unfold bind at 1 2. rewrite E0. rewrite (Hs _ _ _ E1). by apply IH. }
  induction fuel as [|fuel IH]; intros fuel' u b h h' Hle E;
    destruct fuel' as [|fuel']; try lia; cbn [updateCostAndDepth] in *;
    try exact E; revert E; apply Hbody.
  - intros c h0 h0' [=].
  - intros c h0 h0'. apply IH. lia.
Qed.

(** Property X8: [updateCostAndDepth(true)] returns normally within
    [fuel] levels of recursion exactly when the child lists below the
    vertex form a tree of height at most [fuel] of live vertices that can
    be recomputed (none pruned, none disconnected with children, and every
    parent in the tree, where [BITSTAR_DEBUG] is defined); the heap it
    returns is the same for every larger bound. *)
Theorem cascade_returns_exactly_on_trees fuel u h :
  ((∃ h', updateCostAndDepth debug fuel u true h = (h', Ok tt))
   ↔ cascadable debug h fuel u)
  ∧ (∀ h' fuel', updateCostAndDepth debug fuel u true h = (h', Ok tt) →
                 (fuel ≤ fuel')%nat →
                 updateCostAndDepth debug fuel' u true h = (h', Ok tt)).
Proof.
  split; [split|].
  - intros [h' E]. by eapply upd_ok_cascadable.
  - apply updateCostAndDepth_returns.
  - intros h' fuel' E Hle. by eapply upd_fuel_mono.
Qed.

Lemma descends_reaches h r w n c : descends h r w n c → reaches h r w.
Proof.
  induction 1 as [|u U w W n c _ IH HU Hw _ _ _]; [constructor|].
  eapply reaches_trans; [exact IH|].
  eapply reaches_child; [exact HU|exact Hw|constructor].
Qed.

(** Property X9: after [updateCostAndDepth(true)] on a root has returned,
    on child lists that list every vertex with its parent, a vertex [n]
    levels below the root has depth [n] modulo 2^32 and carries the
    identity cost combined with the edge costs on the way down to it. *)
Theorem cascade_from_root_measures fuel r h h' w n c :
  registered h r →
  updateCostAndDepth debug fuel r true h = (h', Ok tt) →
  descends h' r w n c →
  ∃ W, h' !! w = Some W ∧ cost_ W = c
       ∧ depth_ W = Z.of_nat n mod UINT_MODULUS.
Proof.
  intros Hreg E Hd.
  pose proof (updateCostAndDepth_same_shape _ _ _ _ _ _ _ E) as Hs.
  assert (Hinv : ∀ q, reaches h' r q → cost_cascade_invariant_at h' q).
  { intros q Hq.
    eapply (updateCostAndDepth_cascades debug fuel); [exact Hreg|exact E|].
    right. eapply reaches_same_shape; [by apply same_shape_sym|exact Hq]. }
  induction Hd as [R HR Hroot|u U w W n c Hu IH HU Hw HW Hpar Hroot].
  - exists R. split; [done|].
    specialize (Hinv r (reaches_refl _ _) R HR).
    unfold consistent, expected in Hinv. rewrite Hroot in Hinv.
    destruct Hinv as [-> ->]. done.
  - destruct IH as (U' & HU' & Hc & Hdp).
    assert (U' = U) as -> by congruence.
    exists W. split; [done|].
    assert (Hr : reaches h' r w).
    { eapply reaches_trans; [by eapply descends_reaches|].
      eapply reaches_child; [exact HU|exact Hw|constructor]. }
    specialize (Hinv w Hr W HW). unfold consistent, expected in Hinv.
    rewrite Hroot, Hpar in Hinv. destruct Hinv as (P & HP & -> & ->).
    assert (P = U) as -> by congruence. rewrite Hc, Hdp. split; [done|].
    unfold uint_succ. rewrite Nat2Z.inj_succ, <- Z.add_1_r.
    by rewrite Zplus_mod_idemp_l.
Qed.

End CascadeProofs.

(** ** More on the parent and child bookkeeping *)

Section BookkeepingProofs.

Context {Cost : Type} `{CostHelper Cost}.
Variable debug : bool.

Implicit Types (h : gmap ptr (Vertex Cost)) (V W P : Vertex Cost).

Lemma addParent_checks_read v :
  writes (Cost := Cost) eq
            (p <- hasParent debug v ;;
             (if p then throw AddParentHasParent else ret tt) ;;;
             r <- isRoot debug v ;;
             if r then throw AddParentToRoot else ret tt).
Proof.
  unfold hasParent, isRoot, ASSERT_NOT_PRUNED, assertNotPruned.
  writes_tac.
Qed.

(** [addParent] up to its call of the propagator. *)
Lemma addParent_inv fuel v p e b h h' r :
  addParent debug fuel v p e b h = (h', r) →
  (h' = h ∧ r ≠ Ok tt)
  ∨ ∃ V, h !! v = Some V
         ∧ (debug = true → isPruned_ V = false)
         ∧ updateCostAndDepth debug fuel v b
             (<[v := set_edgeCost e
                       (set_parentSPtr (if engaged (h !! p) then Some p
                                        else None) V)]> h) = (h', r).
Proof.
  intros E. unfold addParent in E.
  apply bind_inv in E as [(f & E0 & ->)|(h0 & [] & E0 & E)];
    apply ASSERT_NOT_PRUNED_inv in E0 as [-> Hp]; [by left|].
  specialize (Hp eq_refl).
  apply bind_inv in E as [(f & E0 & ->)|(h0 & [] & E0 & E)].
  { left. split; [|done].
    apply when_inv in E0 as [(_ & _ & ?)|[_ E0]]; [done|].
    by apply addParent_checks_read in E0 as <-. }
  assert (h0 = h) as ->.
  { apply when_inv in E0 as [(_ & -> & _)|[_ E0]]; [done|].
    by apply addParent_checks_read in E0 as <-. }
  apply bind_inv in E as [(f & E1 & ->)|(h0 & np & Enp & E)];
    [discriminate E1|].
  injection Enp as <- <-.
  apply bind_inv in E as [(f & E1 & ->)|(h1 & [] & E1 & E)];
    apply modify_inv in E1 as [(V & HV & -> & ?)|(HV & -> & ?)];
    try discriminate.
  { left. split; [done|]. congruence. }
  apply bind_inv in E as [(f & E2 & ->)|(h2 & [] & E2 & E)];
    apply modify_inv in E2 as [(V' & HV' & -> & ?)|(HV' & -> & ?)];
    try discriminate.
  { by rewrite lookup_insert_eq in HV'. }
  rewrite lookup_insert_eq in HV'. injection HV' as <-.
  rewrite insert_insert_eq in E.
  right. exists V. split; [done|]. split; [|exact E].
  intros Hd. destruct (Hp Hd) as (V0 & HV0 & ?). congruence.
Qed.

(** Property X10: after [addParent(p, e)] with a live [p] has returned
    normally, [getParent] and [getParentConst] return [p], [hasParent] and
    [isInTree] return true and [getEdgeInCost] returns [e]. *)
Theorem addParent_then_queries fuel v p e b h h' :
  is_Some (h !! p) →
  addParent debug fuel v p e b h = (h', Ok tt) →
  getParent debug v h' = (h', Ok (Some p))
  ∧ getParentConst debug v h' = (h', Ok (Some p))
  ∧ hasParent debug v h' = (h', Ok true)
  ∧ isInTree debug v h' = (h', Ok true)
  ∧ getEdgeInCost debug v h' = (h', Ok e).
Proof.
  intros [P HP] E.
  apply addParent_inv in E as [[_ ?]|(V & HV & Hp & E)]; [done|].
  rewrite HP in E. cbn [engaged] in E.
  apply updateCostAndDepth_same_shape in E as Hs.
  destruct (same_shape_lookup _ _ v _ Hs (lookup_insert_eq _ _ _))
    as (V' & HV' & Hl).
  apply same_links_fields in Hl as (_ & Hpar & _ & He & _ & Hpr).
  cbn in Hpar, He, Hpr.
  destruct (query_values debug v h' V' HV') as (Q1 & Q2 & _ & _ & Q5 & Q6 & Q7 & _).
  { intros Hd. rewrite Hpr. auto. }
  rewrite Q6, Q5, Q1, Q2, Q7, Hpar, He. cbn [engaged negb].
  rewrite andb_false_r, orb_true_r. done.
Qed.

Lemma addParent_unfold fuel v p e b h V :
  h !! v = Some V →
  (debug = true →
   isPruned_ V = false ∧ parentSPtr_ V = None ∧ isRoot_ V = false) →
  addParent debug fuel v p e b h
  = updateCostAndDepth debug fuel v b
      (<[v := set_edgeCost e
                (set_parentSPtr (if engaged (h !! p) then Some p else None)
                                V)]> h).
Proof.
  intros HV Hpre. unfold addParent. unfold bind at 1.
  rewrite (ASSERT_NOT_PRUNED_live debug v h V HV)
    by (intros Hd; by destruct (Hpre Hd)).
  assert (Hchk : when debug
                   (p <- hasParent debug v ;;
                    (if p then throw AddParentHasParent else ret tt) ;;;
                    r <- isRoot debug v ;;
                    if r then throw AddParentToRoot else ret tt) h
                 = (h, Ok tt)).
  { destruct debug; [|done]. destruct (Hpre eq_refl) as (Hpr & Hpar & Hr).
    cbn [when]. run_ops. mred. done. }
  unfold bind at 1. rewrite Hchk.
  unfold bind, shared, modify. rewrite HV. cbn.
  by rewrite lookup_insert_eq, insert_insert_eq.
Qed.

(** Property X11: [addParent] with an empty pointer as the new parent, on
    a vertex that is not the root, leaves the vertex without parent, with
    the infinite cost and depth 0, and returns normally when no cascade is
    asked for. *)
Theorem addParent_empty_pointer fuel v p e b h h' r V :
  h !! v = Some V → isRoot_ V = false → h !! p = None →
  (debug = true → isPruned_ V = false ∧ parentSPtr_ V = None) →
  addParent debug fuel v p e b h = (h', r) →
  pinned v h' ∧ (b = false → r = Ok tt).
Proof.
  intros HV Hroot Hnull Hpre E.
  rewrite (addParent_unfold fuel v p e b h V HV) in E
    by (intros Hd; destruct (Hpre Hd); done).
  rewrite Hnull in E. cbn [engaged] in E.
  assert (Hp : debug = true → isPruned_ V = false)
    by (intros Hd; by destruct (Hpre Hd)).
  split.
  - eapply (updateCostAndDepth_from_orphan debug);
      [apply lookup_insert_eq|..|exact E]; done.
  - intros ->.
    destruct (updateCostAndDepth_no_cascade_returns debug fuel v
                (<[v := set_edgeCost e (set_parentSPtr None V)]> h)
                (set_edgeCost e (set_parentSPtr None V)))
      as (h'' & E''); [apply lookup_insert_eq|done..|].
    congruence.
Qed.

(** Property X12: after [removeParent] on a vertex that had a parent and
    is not the root, [hasParent] and [isInTree] return false and [getCost]
    returns the infinite cost; where [BITSTAR_DEBUG] is defined [getDepth],
    [getParent] and [getEdgeInCost] throw, and where it is not they return
    0, an empty pointer and the edge cost the vertex had, which
    [removeParent] does not reset. *)
Theorem removeParent_then_queries fuel v b h h' r V :
  h !! v = Some V → isRoot_ V = false → is_Some (parentSPtr_ V) →
  (debug = true → isPruned_ V = false) →
  removeParent debug fuel v b h = (h', r) →
  hasParent debug v h' = (h', Ok false)
  ∧ isInTree debug v h' = (h', Ok false)
  ∧ getCost debug v h' = (h', Ok infiniteCost)
  ∧ getDepth debug v h'
    = (h', if debug then Fail (Exception DepthOfDisconnected) else Ok 0)
  ∧ getParent debug v h'
    = (h', if debug then Fail (Exception ParentOfOrphan) else Ok None)
  ∧ getEdgeInCost debug v h'
    = (h', if debug then Fail (Exception EdgeCostWithoutParent)
           else Ok (edgeCost_ V)).
Proof.
  intros HV Hroot Hpar Hp E.
  rewrite (removeParent_unfold debug fuel v b h V HV Hroot Hpar Hp) in E.
  assert (Hpin : pinned v h').
  { eapply (updateCostAndDepth_from_orphan debug);
      [apply lookup_insert_eq|..|exact E]; done. }
  apply updateCostAndDepth_same_shape in E as Hs.
  destruct (same_shape_lookup _ _ v _ Hs (lookup_insert_eq _ _ _))
    as (V' & HV' & Hl).
  apply same_links_fields in Hl as (_ & _ & _ & He & _ & Hpr).
  cbn in He, Hpr.
  destruct Hpin as (V'' & HV'' & Hr' & Hpar' & Hc' & Hd').
  assert (V'' = V') as -> by congruence.
  destruct (query_values debug v h' V' HV')
    as (Q1 & Q2 & Q3 & Q4 & Q5 & _ & Q7 & _).
  { intros Hd. rewrite Hpr. auto. }
  rewrite Q1, Q2, Q3, Q4, Q5, Q7, Hr', Hpar', Hc', Hd', He.
  cbn [engaged negb orb]. rewrite !andb_true_r. done.
Qed.

(** Property X13: where [BITSTAR_DEBUG] is defined, [removeParent] on a
    vertex without parent, and on a root that has one, throws and changes
    nothing; where it is not defined, [removeParent] on a vertex without
    parent that is not the root returns normally and leaves it with the
    infinite cost and depth 0. *)
Theorem removeParent_without_parent fuel v b h V :
  h !! v = Some V → isPruned_ V = false →
  (parentSPtr_ V = None →
   removeParent true fuel v b h
   = (h, Fail (Exception RemoveParentNoParent)))
  ∧ (is_Some (parentSPtr_ V) → isRoot_ V = true →
     removeParent true fuel v b h
     = (h, Fail (Exception RemoveParentOfRoot)))
  ∧ (debug = false → parentSPtr_ V = None → isRoot_ V = false →
     removeParent debug fuel v false h
     = (<[v := set_depth 0 (set_cost infiniteCost V)]> h, Ok tt)).
Proof.
  intros HV Hpr. split; [|split].
  - intros Hpar. run_ops. mred. done.
  - intros [p Hpar] Hroot. run_ops. mred. done.
  - intros -> Hpar Hroot. unfold removeParent.
    destruct fuel; cbn [updateCostAndDepth];
      unfold updateCostAndDepth_body, recompute; run_ops; mred;
      repeat (rewrite ?lookup_insert_eq, ?insert_insert_eq;
              cbn [isRoot_ parentSPtr_ set_parentSPtr set_cost set_depth];
              mred).
    all: replace (set_parentSPtr None V) with V
           by (destruct V; unfold set_parentSPtr; cbn in *; congruence).
    all: done.
Qed.

End BookkeepingProofs.

Section BuildsCompared.

Context {Cost : Type} `{CostHelper Cost}.

Implicit Types (h : gmap ptr (Vertex Cost)) (V W P : Vertex Cost).


End BuildsCompared.

(** *** Swap-and-pop, slot by slot *)

Lemma swap_and_pop_spec (l : list ptr) i x :
  l !! i = Some x →
  length (swap_and_pop i l) = pred (length l)
  ∧ swap_and_pop i l ≡ₚ delete i l
  ∧ (∀ j, (j < pred (length l))%nat → j ≠ i →
          swap_and_pop i l !! j = l !! j)
  ∧ ((i < pred (length l))%nat → swap_and_pop i l !! i = last l).
Proof.
  intros Hi. pose proof (lookup_lt_Some _ _ _ Hi) as Hlt.
  destruct l as [|z l0 _] using rev_ind; [cbn in Hlt; lia|].
  rewrite length_app in *. cbn [length] in *.
  replace (pred (length l0 + 1))%nat with (length l0) by lia.
  rewrite last_snoc.
  destruct (decide (i = length l0)) as [->|Hne].
  - rewrite swap_and_pop_last. split; [done|]. split.
    + rewrite delete_take_drop, take_app_length.
      rewrite drop_ge by (rewrite length_app; cbn; lia).
      by rewrite app_nil_r.
    + split; [|lia]. intros j Hj _. by rewrite lookup_app_l.
  - assert (Hi0 : l0 !! i = Some x) by (rewrite lookup_app_l in Hi by lia; done).
    assert (Hlt0 : (i < length l0)%nat) by lia.
    rewrite (swap_and_pop_inner l0 z i x Hi0).
    split; [by rewrite length_insert|]. split.
    + rewrite delete_take_drop, insert_take_drop by done.
      rewrite take_app_le, drop_app_le by lia.
      rewrite <- Permutation_middle.
      by rewrite (Permutation_app_comm (drop (S i) l0) [z]), app_assoc,
           <- Permutation_cons_append.
    + split.
      * intros j Hj Hji. rewrite list_lookup_insert_ne by done.
        by rewrite lookup_app_l.
      * intros _. by rewrite list_lookup_insert_eq.
Qed.

Section ChildListMore.

Context {Cost : Type} `{CostHelper Cost}.
Variable debug : bool.

Implicit Types (h : gmap ptr (Vertex Cost)) (V W P : Vertex Cost).

(** Property X15: [removeChild] removes one entry of the child list, the
    first whose vertex carries the id of the given child, by moving the
    last entry into its slot: the list is one shorter, the other entries
    are kept (as a multiset), the slots before the last keep their entries
    except the slot of the match, which holds the former last entry. *)
Theorem removeChild_pops_first_match fuel v c h V Cc i :
  h !! v = Some V → (debug = true → isPruned_ V = false) →
  h !! c = Some Cc → (debug = true → isPruned_ Cc = false) →
  Forall (inspectable debug h) (childWPtrs_ V) →
  first_match h (vId_ Cc) (childWPtrs_ V) = Some i →
  removeChild debug fuel v c false h
  = (<[v := set_childWPtrs (swap_and_pop i (childWPtrs_ V)) V]> h, Ok tt)
  ∧ length (swap_and_pop i (childWPtrs_ V)) = pred (length (childWPtrs_ V))
  ∧ swap_and_pop i (childWPtrs_ V) ≡ₚ delete i (childWPtrs_ V)
  ∧ (∀ j, (j < pred (length (childWPtrs_ V)))%nat → j ≠ i →
          swap_and_pop i (childWPtrs_ V) !! j = childWPtrs_ V !! j)
  ∧ ((i < pred (length (childWPtrs_ V)))%nat →
     swap_and_pop i (childWPtrs_ V) !! i = last (childWPtrs_ V)).
Proof.
  intros HV Hp HC HpC HF Hi.
  destruct (first_match_Some _ _ _ _ Hi) as (x & X & Hx & _ & _).
  split; [|by eapply swap_and_pop_spec].
  unfold removeChild. unfold bind at 1.
  rewrite (ASSERT_NOT_PRUNED_live debug v h V HV Hp).
  unfold bind at 1, deref. rewrite HV.
  unfold bind at 1.
  rewrite (scanChildren_run debug v c Cc h HC HpC _ 0%nat HF), Hi.
  unfold bind at 1, modify. rewrite HV. cbn [Nat.add ret when bind].
  by destruct debug.
Qed.

(** The scan passes the children that carry another id. *)
Lemma scanChildren_skip v c Cc h l1 rest :
  h !! c = Some Cc → (debug = true → isPruned_ Cc = false) →
  Forall (λ y, inspectable debug h y ∧ vId_ <$> h !! y ≠ Some (vId_ Cc)) l1 →
  ∀ i, scanChildren debug v c i (l1 ++ rest) h
       = scanChildren debug v c (i + length l1) rest h.
Proof.
  intros HC HpC. induction 1 as [|y l1 [(Y & HY & HpY) Hne] _ IH]; intros i.
  - by rewrite Nat.add_0_r.
  - cbn [app scanChildren length].
    unfold bind at 1. rewrite (check_expired_live debug _ y h Y HY).
    unfold bind at 1. rewrite (getId_ok debug y h Y HY HpY).
    unfold bind at 1. rewrite (getId_ok debug c h Cc HC HpC).
    destruct (Z.eqb_spec (vId_ Y) (vId_ Cc)) as [Heq|_].
    + destruct Hne. by rewrite HY, <- Heq.
    + rewrite IH. f_equal. lia.
Qed.

(** Property X16: when [removeChild] meets an expired child pointer
    before it finds the child, it throws where [BITSTAR_DEBUG] is defined
    and calls a member function through an empty pointer where it is not;
    nothing is removed and the cost of the child is not updated. *)
Theorem removeChild_expired_child fuel v c b h V Cc l1 x l2 :
  h !! v = Some V → (debug = true → isPruned_ V = false) →
  h !! c = Some Cc → (debug = true → isPruned_ Cc = false) →
  childWPtrs_ V = l1 ++ x :: l2 → h !! x = None →
  Forall (λ y, inspectable debug h y ∧ vId_ <$> h !! y ≠ Some (vId_ Cc)) l1 →
  removeChild debug fuel v c b h
  = (h, Fail (if debug then Exception ExpiredWhileRemoving
              else NullDereference)).
Proof.
  intros HV Hp HC HpC Hl Hx HF.
  unfold removeChild. unfold bind at 1.
  rewrite (ASSERT_NOT_PRUNED_live debug v h V HV Hp).
  unfold bind at 1, deref. rewrite HV, Hl.
  unfold bind at 1.
  rewrite (scanChildren_skip v c Cc h l1 (x :: l2) HC HpC HF).
  cbn [scanChildren]. destruct debug; run_ops; mred; done.
Qed.

Lemma collectChildren_live l h :
  (debug = true → Forall (λ x, is_Some (h !! x)) l) →
  collectChildren debug l h = (h, Ok l).
Proof.
  induction l as [|x l IH]; intros HF; [done|].
  cbn [collectChildren].
  assert (Hchk : when debug
                   (b <- expired x ;;
                    if b then throw ExpiredWhileCollecting else ret tt) h
                 = (h, Ok tt)).
  { destruct debug; [|done]. specialize (HF eq_refl).
    apply Forall_cons in HF as [[X HX] _]. cbn [when].
    unfold bind, expired. by rewrite HX. }
  unfold bind at 1. rewrite Hchk. unfold bind.
  rewrite IH; [done|]. intros Hd. specialize (HF Hd).
  by apply Forall_cons in HF as [_ ?].
Qed.

Lemma collectChildren_expired l1 x l2 h :
  Forall (λ y, is_Some (h !! y)) l1 → h !! x = None →
  collectChildren true (l1 ++ x :: l2) h
  = (h, Fail (Exception ExpiredWhileCollecting)).
Proof.
  intros HF Hx. induction HF as [|y l1 [Y HY] _ IH]; cbn [app collectChildren].
  - cbn [when]. unfold bind, expired. by rewrite Hx.
  - cbn [when]. unfold bind at 1 2, expired. rewrite HY. cbn.
    unfold bind. by rewrite IH.
Qed.

(** Property X17: after [addChild(c)] has returned, [getChildren] and
    [getChildrenConst] return the children the vertex had, in their order,
    followed by [c] (also when [c] was a child already), and
    [hasChildren] returns true. *)
Theorem addChild_then_getChildren fuel v c b h h1 V :
  h !! v = Some V → addChild debug fuel v c b h = (h1, Ok tt) →
  (debug = true → Forall (λ x, is_Some (h !! x)) (childWPtrs_ V ++ [c])) →
  getChildren debug v h1 = (h1, Ok (childWPtrs_ V ++ [c]))
  ∧ getChildrenConst debug v h1 = (h1, Ok (childWPtrs_ V ++ [c]))
  ∧ hasChildren debug v h1 = (h1, Ok true).
Proof.
  intros HV E HF. unfold addChild in E.
  apply bind_ok_inv in E as (h0 & [] & E0 & E).
  apply ASSERT_NOT_PRUNED_inv in E0 as [-> HpV]. specialize (HpV eq_refl).
  apply bind_ok_inv in E as (ha & [] & E1 & E).
  unfold modify in E1. rewrite HV in E1. injection E1 as <-.
  set (Va := set_childWPtrs (childWPtrs_ V ++ [c]) V) in *.
  assert (Hs : same_shape (<[v := Va]> h) h1).
  { destruct b; cbn [when] in E.
    - by eapply updateCostAndDepth_same_shape.
    - injection E as <-. apply same_shape_refl. }
  destruct (same_shape_lookup _ _ v Va Hs (lookup_insert_eq _ _ _))
    as (V1 & HV1 & Hl).
  apply same_links_fields in Hl as (_ & _ & Hch & _ & _ & Hpr).
  cbn in Hch, Hpr.
  assert (Hp1 : debug = true → isPruned_ V1 = false).
  { intros Hd. rewrite Hpr. destruct (HpV Hd) as (V' & ? & ?). congruence. }
  assert (Hlive : debug = true →
                  Forall (λ x, is_Some (h1 !! x)) (childWPtrs_ V ++ [c])).
  { intros Hd. eapply Forall_impl; [exact (HF Hd)|]. intros y [Y HY].
    destruct (decide (y = v)) as [->|Hne]; [eauto|].
    destruct (same_shape_lookup _ _ y Y Hs) as (Y1 & HY1 & _); [|eauto].
    by rewrite lookup_insert_ne. }
  assert (Hget : getChildren debug v h1 = (h1, Ok (childWPtrs_ V ++ [c]))).
  { unfold getChildren. unfold bind at 1.
    rewrite (ASSERT_NOT_PRUNED_live debug v h1 V1 HV1 Hp1).
    unfold bind, deref. rewrite HV1, Hch.
    by apply collectChildren_live. }
  split; [exact Hget|]. split; [exact Hget|].
  destruct (query_values debug v h1 V1 HV1 Hp1) as (_ & _ & _ & _ & _ & _ & _ & Q).
  rewrite Q, Hch. by destruct (childWPtrs_ V).
Qed.

End ChildListMore.

Section ExpiredChildren.

Context {Cost : Type} `{CostHelper Cost}.

(** Property X18: when a child pointer has expired, [getChildren] and
    [getChildrenConst] throw where [BITSTAR_DEBUG] is defined; where it is
    not they return every entry of the child list, the expired one as an
    empty pointer. *)
Theorem getChildren_expired_child v h (V : Vertex Cost) l1 x l2 :
  h !! v = Some V → isPruned_ V = false →
  childWPtrs_ V = l1 ++ x :: l2 → h !! x = None →
  Forall (λ y, is_Some (h !! y)) l1 →
  getChildren true v h = (h, Fail (Exception ExpiredWhileCollecting))
  ∧ getChildrenConst true v h = (h, Fail (Exception ExpiredWhileCollecting))
  ∧ getChildren false v h = (h, Ok (childWPtrs_ V))
  ∧ getChildrenConst false v h = (h, Ok (childWPtrs_ V)).
Proof.
  intros HV Hp Hl Hx HF.
  assert (E1 : getChildren true v h
               = (h, Fail (Exception ExpiredWhileCollecting))).
  { unfold getChildren. unfold bind at 1.
    rewrite (ASSERT_NOT_PRUNED_live true v h V HV) by done.
    unfold bind, deref. rewrite HV, Hl.
    by rewrite collectChildren_expired. }
  assert (E2 : getChildren false v h = (h, Ok (childWPtrs_ V))).
  { unfold getChildren, bind at 1. cbn. unfold bind, deref. rewrite HV.
    by rewrite collectChildren_live. }
  done.
Qed.

End ExpiredChildren.

(** ** The constructor and the lifecycle flags *)

Section ConstructorProofs.

Context {Cost : Type} `{CostHelper Cost}.
Variable debug : bool.

Implicit Types (h : gmap ptr (Vertex Cost)) (V W P : Vertex Cost).

(** Property X19: the constructor returns normally (where
    [BITSTAR_DEBUG] is defined: when the default of [isPruned_] is false)
    with a vertex that has no parent, no children, the infinite edge cost,
    and the identity cost if it is a root and the infinite cost if not.
    When the default depth is 0 the new vertex satisfies the cost-cascade
    invariant, the invariant is kept at the other vertices, and roots
    still carry the identity cost and depth 0. *)
Theorem Vertex_Vertex_consistent inits this newId newState root h :
  h !! this = None →
  (debug = true → init_isPruned inits = false) →
  ∃ V, Vertex_Vertex debug inits this newId newState root h
       = (<[this := V]> h, Ok tt)
       ∧ V = set_cost (if root then identityCost else infiniteCost)
               (initialized inits newId newState root)
       ∧ (init_depth inits = 0 →
          cost_cascade_invariant_at (<[this := V]> h) this
          ∧ (∀ w, cost_cascade_invariant_at h w →
                  cost_cascade_invariant_at (<[this := V]> h) w)
          ∧ (roots_normal h → roots_normal (<[this := V]> h))).
Proof.
  intros Hfresh Hp.
  set (V := set_cost (if root then identityCost else infiniteCost)
              (initialized inits newId newState root)).
  exists V. split; [|split; [done|]].
  - unfold Vertex_Vertex. run_ops. cbn beta.
    destruct debug; [specialize (Hp eq_refl)|]; destruct root;
      repeat (rewrite ?lookup_insert_eq, ?insert_insert_eq;
              cbn [isPruned_ isRoot_ initialized]; rewrite ?Hp; cbn beta iota).
    all: done.
  - intros Hd.
    assert (Hthis : consistent (<[this := V]> h) V).
    { unfold consistent, expected, V. destruct root; cbn; done. }
    split; [|split].
    + intros V' HV'. rewrite lookup_insert_eq in HV'. by injection HV' as <-.
    + intros w Hw W HW. destruct (decide (w = this)) as [->|Hne].
      * rewrite lookup_insert_eq in HW. by injection HW as <-.
      * rewrite lookup_insert_ne in HW by done.
        specialize (Hw W HW). unfold consistent, expected in *.
        destruct (isRoot_ W); [done|].
        destruct (parentSPtr_ W) as [p|]; [|done].
        destruct Hw as (P & HP & Hw). exists P. split; [|done].
        rewrite lookup_insert_ne; [done|]. intros <-. congruence.
    + intros Hj w W HW Hroot. destruct (decide (w = this)) as [->|Hne].
      * rewrite lookup_insert_eq in HW. injection HW as <-.
        unfold V in *. cbn in Hroot |- *. by rewrite Hroot.
      * rewrite lookup_insert_ne in HW by done. eauto.
Qed.

End ConstructorProofs.

Section FlagProofs.

Context {Cost : Type} `{CostHelper Cost}.
Variable debug : bool.

Implicit Types (h : gmap ptr (Vertex Cost)) (V W P : Vertex Cost).

(** Property X20: on a vertex that is not pruned, each of [isNew],
    [hasBeenExpandedToSamples] and [hasBeenExpandedToVertices] returns what
    its pair of mark functions set last ([b] stands for the function of the
    pair that was called) and is not changed by the other pairs;
    [markPruned] followed by [markUnpruned] gives back the heap. *)
Theorem lifecycle_flags_round_trip v h V (b : bool) :
  h !! v = Some V → isPruned_ V = false →
  (∃ h1, (if b then markNew debug v else markOld debug v) h = (h1, Ok tt)
         ∧ isNew debug v h1 = (h1, Ok b)
         ∧ hasBeenExpandedToSamples debug v h1
           = (h1, Ok (hasBeenExpandedToSamples_ V))
         ∧ hasBeenExpandedToVertices debug v h1
           = (h1, Ok (hasBeenExpandedToVertices_ V)))
  ∧ (∃ h1, (if b then markExpandedToSamples debug v
            else markUnexpandedToSamples debug v) h = (h1, Ok tt)
           ∧ hasBeenExpandedToSamples debug v h1 = (h1, Ok b)
           ∧ isNew debug v h1 = (h1, Ok (isNew_ V))
           ∧ hasBeenExpandedToVertices debug v h1
             = (h1, Ok (hasBeenExpandedToVertices_ V)))
  ∧ (∃ h1, (if b then markExpandedToVertices debug v
            else markUnexpandedToVertices debug v) h = (h1, Ok tt)
           ∧ hasBeenExpandedToVertices debug v h1 = (h1, Ok b)
           ∧ isNew debug v h1 = (h1, Ok (isNew_ V))
           ∧ hasBeenExpandedToSamples debug v h1
             = (h1, Ok (hasBeenExpandedToSamples_ V)))
  ∧ (markPruned debug v ;;; markUnpruned v) h = (h, Ok tt).
Proof.
  intros HV Hp.
  unfold markNew, markOld, markExpandedToSamples, markUnexpandedToSamples,
    markExpandedToVertices, markUnexpandedToVertices, isNew,
    hasBeenExpandedToSamples, hasBeenExpandedToVertices.
  split; [exists (<[v := set_isNew b V]> h)|].
  2: split; [exists (<[v := set_hasBeenExpandedToSamples b V]> h)|].
  3: split; [exists (<[v := set_hasBeenExpandedToVertices b V]> h)|].
  1-3: destruct b, debug; run_ops; mred;
       repeat (rewrite lookup_insert_eq;
               cbn [isPruned_ set_isNew set_hasBeenExpandedToSamples
                    set_hasBeenExpandedToVertices isNew_
                    hasBeenExpandedToSamples_ hasBeenExpandedToVertices_];
               rewrite ?Hp; mred);
       done.
  destruct debug; run_ops; mred; rewrite ?lookup_insert_eq, ?insert_insert_eq.
  all: f_equal; apply insert_id; rewrite HV; f_equal;
       destruct V; unfold set_isPruned; cbn in *; congruence.
Qed.

End FlagProofs.

(** ** More on the time-indexed validity check *)

Section ValidityMore.

Context {State SpaceInformationPtr : Type}.

Implicit Types (c : StateValidityChecker State SpaceInformationPtr)
  (s : State) (t : double).

(** Property X21: [clearDynamicObstacles] leaves the table empty, so that
    [isValid(state, time)] is [isValid(state)] for every state and time
    afterwards; the states it frees are the states stored under some key;
    a second call frees nothing. *)
Theorem clearDynamicObstacles_clears c :
  dynObstacles_ (clearDynamicObstacles c).2 = ∅
  ∧ (∀ s t, isValid_time (clearDynamicObstacles c).2 s t
            = Some (isValid c s))
  ∧ (∀ st, st ∈ (clearDynamicObstacles c).1
           ↔ ∃ k obs, dynObstacles_ c !! k = Some obs ∧ st ∈ obs)
  ∧ (clearDynamicObstacles (clearDynamicObstacles c).2).1 = [].
Proof.
  split; [done|]. split; [|split].
  - intros s t. unfold isValid_time, clearDynamicObstacles. cbn.
    by rewrite bool_decide_eq_true_2.
  - intros st. unfold clearDynamicObstacles. cbn [fst].
    rewrite list_elem_of_join. split.
    + intros (obs & Hst & Hobs).
      apply list_elem_of_fmap in Hobs as ([k obs'] & -> & Hin).
      apply elem_of_map_to_list in Hin. eauto.
    + intros (k & obs & Hk & Hst). exists obs. split; [done|].
      apply list_elem_of_fmap. exists (k, obs). split; [done|].
      by apply elem_of_map_to_list.
  - unfold clearDynamicObstacles. cbn. by rewrite map_to_list_empty.
Qed.

(** Property X22: a state that [isValid(state)] rejects is rejected by
    [isValid(state, time)] at every time, also at a time that has no key;
    a state that [isValid(state, time)] accepts passes [isValid(state)]:
    dynamic obstacles only take validity away. *)
Theorem isValid_time_static_first c s t :
  (isValid c s = false → isValid_time c s t = Some false)
  ∧ (isValid_time c s t = Some true → isValid c s = true).
Proof.
  unfold isValid_time. destruct (bool_decide _), (isValid c s); split;
    try done; intros; congruence.
Qed.

Lemma t_key_not_finite c t :
  finite_double t = false ∨ finite_double (scalingFactor_ c) = false → t_key c t = None.
Proof.
  unfold t_key, double_mul.
  destruct t as [| | |? ? ?], (scalingFactor_ c) as [| | |? ? ?];
    cbn; intros [|]; try discriminate; reflexivity.
Qed.

(** Property X23: when the time or the scaling factor is NaN or infinite
    the key [round(time * scalingFactor_)] has no [int] value; with a
    non-empty table and a state that passes the static check, the result
    of [isValid(state, time)] is then undefined. *)
Theorem isValid_time_undefined_key c s t :
  finite_double t = false ∨ finite_double (scalingFactor_ c) = false →
  t_key c t = None
  ∧ (dynObstacles_ c ≠ ∅ → isValid c s = true → isValid_time c s t = None).
Proof.
  intros Hnf. pose proof (t_key_not_finite c t Hnf) as Hk.
  split; [exact Hk|]. intros Hne Hs. unfold isValid_time.
  by rewrite bool_decide_eq_false_2, Hs, Hk.
Qed.

Lemma obstaclesValid_ext c c' s obs :
  areStatesValid c' = areStatesValid c →
  obstaclesValid c' s obs = obstaclesValid c s obs.
Proof.
  intros He. induction obs as [|st obs IH]; [done|].
  cbn [obstaclesValid]. by rewrite He, IH.
Qed.

(** Property X24: [isValid(state, time)] depends on the table only
    through the entry under the key of the time: two checkers with the same
    virtual functions and scaling factor that agree on that entry
    agree on the result, whatever they store under other keys. *)
Theorem isValid_time_other_keys c c' s t k :
  isValid c' = isValid c → areStatesValid c' = areStatesValid c →
  scalingFactor_ c' = scalingFactor_ c →
  t_key c t = Some k → dynObstacles_ c' !! k = dynObstacles_ c !! k →
  isValid_time c' s t = isValid_time c s t.
Proof.
  intros Hv Ha Hsc Hk Hlook.
  assert (Hk' : t_key c' t = Some k) by (unfold t_key in *; by rewrite Hsc).
  unfold isValid_time. rewrite Hv, Hk, Hk', Hlook.
  destruct (isValid c s); [|by destruct (bool_decide _), (bool_decide _)].
  destruct (dynObstacles_ c !! k) as [obs|] eqn:Hobs.
  - rewrite !bool_decide_eq_false_2.
    + by rewrite (obstaclesValid_ext c c').
    + intros He. by rewrite He, lookup_empty in Hobs.
    + intros He. by rewrite He, lookup_empty in Hlook.
  - by destruct (bool_decide _), (bool_decide _).
Qed.

End ValidityMore.

Section DemoChecker.

Context {SpaceInformationPtr : Type}.
Variable component : ptr → nat → ptr.

(** Property X25: with the checker of the multi-robot demo, whose
    [areStatesValid] compares the addresses of the two states, a state
    whose components lie at different addresses is rejected by
    [isValid(state, time)] exactly when the state object itself is stored
    as an obstacle under the key of the time; every other state is
    accepted, whatever the obstacles are. *)
Theorem MyDemo_rejects_stored_state
    (table : gmap Z (list (SpaceInformationPtr * ptr))) factor state t k :
  component state 1 ≠ component state 0 →
  t_key (MyDemoStateValidityChecker component table factor) t = Some k →
  isValid (MyDemoStateValidityChecker component table factor) state = true
  ∧ (isValid_time (MyDemoStateValidityChecker component table factor) state t
     = Some false
     ↔ ∃ si, (si, state) ∈ default [] (table !! k))
  ∧ (isValid_time (MyDemoStateValidityChecker component table factor) state t
     = Some true
     ↔ ¬ ∃ si, (si, state) ∈ default [] (table !! k)).
Proof.
  intros Hcomp Hk.
  set (c := MyDemoStateValidityChecker component table factor) in *.
  assert (Hv : isValid c state = true).
  { cbn. unfold MyDemo_isValid. apply negb_true_iff.
    by apply Nat.eqb_neq. }
  assert (Hrun : isValid_time c state t
                 = Some (obstaclesValid c state (default [] (table !! k)))).
  { unfold isValid_time. rewrite Hv, Hk.
    change (dynObstacles_ c) with table.
    destruct (bool_decide (table = ∅)) eqn:He.
    - apply bool_decide_eq_true in He. by rewrite He, lookup_empty.
    - by destruct (table !! k). }
  assert (Hiff : obstaclesValid c state (default [] (table !! k)) = false
                 ↔ ∃ si, (si, state) ∈ default [] (table !! k)).
  { rewrite obstaclesValid_false. split.
    - intros ([si st] & Hin & Hst). exists si.
      cbn in Hst. unfold MyDemo_areStatesValid in Hst.
      apply negb_false_iff, Nat.eqb_eq in Hst. cbn in Hst. by subst.
    - intros (si & Hin). exists (si, state). split; [done|].
      cbn. unfold MyDemo_areStatesValid. cbn.
      by rewrite Nat.eqb_refl. }
  split; [exact Hv|]. rewrite Hrun. split.
  - rewrite <- Hiff. split; congruence.
  - rewrite <- Hiff.
    destruct (obstaclesValid _ _ _); split; try done; congruence.
Qed.

End DemoChecker.

(** ** Concrete runs *)

Lemma fully_registered_sound {Cost} (h : gmap ptr (Vertex Cost)) u :
  fully_registered h = true → registered h u.
Proof.
  intros Hf x X p Hx Hp _. unfold fully_registered in Hf.
  rewrite forallb_forall in Hf.
  specialize (Hf (x, X)). cbn in Hf. rewrite Hp in Hf.
  assert (Hin : In (x, X) (map_to_list h)).
  { apply list_elem_of_In. by apply elem_of_map_to_list. }
  specialize (Hf Hin). destruct (h !! p) as [P|]; [|done].
  exists P. split; [done|]. by apply bool_decide_eq_true in Hf.
Qed.

(** The vertex cascade of the planner: costs 3 and 7 and depth 2 after the
    tree is built, costs 1 and 5 after the subtree is moved, in both
    builds. *)
Example vertex_cascade_scenario :
  build_tree true fresh_heap = (tree_heap, Ok tt)
  ∧ build_tree false fresh_heap = (tree_heap, Ok tt)
  ∧ rewire true tree_heap = (reparented_heap, Ok tt)
  ∧ rewire false tree_heap = (reparented_heap, Ok tt).
Proof. repeat split; vm_compute; reflexivity. Qed.

(** *** Runs that contradict a claim *)

(** Against C1: the vertex at 3 names the vertex at 2 as its parent without
    being listed by it.  [addParent] with cascade on the vertex at 2
    returns in both builds and gives it cost 1 and depth 1; the vertex at 3
    keeps the infinite cost and depth 1. *)
Lemma cost_cascade_unregistered_child :
  (mutate true 5 (MutAddParent 2%nat 4%nat (Finite 1)) unregistered_heap
     = (unregistered_after, Ok tt)
   ∧ mutate false 5 (MutAddParent 2%nat 4%nat (Finite 1)) unregistered_heap
     = (unregistered_after, Ok tt))
  ∧ ∃ A B, unregistered_after !! 2%nat = Some A
           ∧ unregistered_after !! 3%nat = Some B
           ∧ isRoot_ B = false ∧ parentSPtr_ B = Some 2%nat
           ∧ cost_ B ≠ combineCosts (cost_ A) (edgeCost_ B)
           ∧ depth_ B ≠ depth_ A + 1.
Proof.
  split; [split; vm_compute; reflexivity|].
  eexists _, _. split; [vm_compute; reflexivity|].
  split; [vm_compute; reflexivity|]. vm_compute. repeat split; discriminate.
Qed.

(** Against C2: without [BITSTAR_DEBUG], [getCost], [getChildren] and
    [addParent] on a pruned vertex return normally. *)
Lemma pruned_vertex_answers_in_release :
  markPruned false 2%nat tree_heap = (pruned_heap, Ok tt)
  ∧ call false 5 2%nat OpGetCost pruned_heap
    = (pruned_heap, Ok (VCost (Finite 3)))
  ∧ call false 5 2%nat OpGetChildren pruned_heap
    = (pruned_heap, Ok (VPtrs [3%nat]))
  ∧ snd (call false 5 2%nat (OpAddParent 4%nat (Finite 1) true) pruned_heap)
    = Ok VVoid.
Proof. repeat split; vm_compute; reflexivity. Qed.


(** Against C7: without [BITSTAR_DEBUG], [addParent] replaces the parent of
    a vertex that has one and attaches a parent to a root, and returns
    normally. *)
Lemma addParent_replaces_parent_in_release :
  (∃ h', addParent false 5 2%nat 4%nat (Finite 1) true tree_heap = (h', Ok tt)
         ∧ (parentSPtr_ <$> tree_heap !! 2%nat) = Some (Some 1%nat)
         ∧ (parentSPtr_ <$> h' !! 2%nat) = Some (Some 4%nat))
  ∧ (∃ h', addParent false 5 1%nat 4%nat (Finite 1) true tree_heap = (h', Ok tt)
           ∧ (isRoot_ <$> h' !! 1%nat) = Some true
           ∧ (parentSPtr_ <$> h' !! 1%nat) = Some (Some 4%nat)).
Proof.
  split; eexists; (split; [vm_compute; reflexivity|]);
    split; vm_compute; reflexivity.
Qed.


(** Against C9: without [BITSTAR_DEBUG], [markPruned] on a pruned vertex
    returns normally and changes nothing. *)
Lemma markPruned_idempotent_in_release :
  markPruned false 2%nat tree_heap = (pruned_heap, Ok tt)
  ∧ markPruned false 2%nat pruned_heap = (pruned_heap, Ok tt).
Proof. split; vm_compute; reflexivity. Qed.

(** *** The theorems at concrete heaps *)

(** C1 at the subtree moved below the root at 4. *)
Lemma cost_cascade_after_mutation_witness :
  mutate true 5 (MutAddParent 2%nat 4%nat (Finite 1)) reparent_heap
  = (reparented_heap, Ok tt)
  ∧ registered reparented_heap 2%nat
  ∧ cost_cascade_invariant_at reparented_heap 3%nat
  ∧ ∃ V' P', reparented_heap !! 2%nat = Some V'
             ∧ reparented_heap !! 4%nat = Some P'
             ∧ parentSPtr_ V' = Some 4%nat
             ∧ cost_ V' = combineCosts (cost_ P') (Finite 1)
             ∧ depth_ V' = uint_succ (depth_ P').
Proof.
  assert (E : mutate true 5 (MutAddParent 2%nat 4%nat (Finite 1)) reparent_heap
              = (reparented_heap, Ok tt)) by (vm_compute; reflexivity).
  assert (R : registered reparented_heap 2%nat)
    by (apply fully_registered_sound; vm_compute; reflexivity).
  destruct (cost_cascade_after_mutation true 5 _ _ _ E R) as [Hinv Hadd].
  split; [exact E|]. split; [exact R|]. split.
  - apply Hinv. right.
    eapply reaches_child; [vm_compute; reflexivity| |constructor].
    apply list_elem_of_here.
  - eapply Hadd; [reflexivity|vm_compute; reflexivity|reflexivity
                  |vm_compute; reflexivity].
Defined.

(** C2 at the search tree with the vertex at 2 pruned. *)
Lemma pruned_vertex_inert_debug_witness :
  markPruned true 2%nat tree_heap = (pruned_heap, Ok tt)
  ∧ call true 5 2%nat OpGetCost pruned_heap
    = (pruned_heap, Fail (Exception PrunedVertex))
  ∧ call true 5 2%nat (OpAddParent 4%nat (Finite 1) true) pruned_heap
    = (pruned_heap, Fail (Exception PrunedVertex))
  ∧ call true 5 2%nat OpGetChildren pruned_heap
    = (pruned_heap, Fail (Exception PrunedVertex))
  ∧ call true 5 2%nat OpMarkPruned pruned_heap
    = (pruned_heap, Fail (Exception PrunedVertex))
  ∧ call true 5 2%nat OpIsPruned pruned_heap = (pruned_heap, Ok (VBool true))
  ∧ call true 5 2%nat OpMarkUnpruned pruned_heap = (tree_heap, Ok VVoid).
Proof.
  assert (Hv : pruned_heap !! 2%nat
               = Some (example_vertex 2 false (Some 1%nat) (Finite 3)
                                      (Finite 3) 1 [3%nat] true))
    by (vm_compute; reflexivity).
  destruct (pruned_vertex_inert_debug 5 2%nat pruned_heap _ Hv eq_refl)
    as (Hall & His & Hun).
  split; [vm_compute; reflexivity|].
  repeat (split; [by apply Hall|]).
  split; [exact His|]. rewrite Hun. vm_compute. reflexivity.
Defined.



(** C6 at the root of the search tree, for a child that is already
    listed: the scan stops at the first copy. *)
Lemma addChild_removeChild_restores_witness :
  addChild true 5 1%nat 2%nat true tree_heap
  = (<[1%nat := example_vertex 1 true None Infinite (Finite 0) 0
                               [2%nat; 2%nat] false]> tree_heap, Ok tt)
  ∧ removeChild true 5 1%nat 2%nat true
      (<[1%nat := example_vertex 1 true None Infinite (Finite 0) 0
                                 [2%nat; 2%nat] false]> tree_heap)
    = (tree_heap, Ok tt)
  ∧ children_restored tree_heap tree_heap 1%nat
  ∧ Forall (inspectable true tree_heap) [2%nat]
  ∧ child_ids tree_heap [2%nat] = [Some 2].
Proof.
  set (h1 := <[1%nat := example_vertex 1 true None Infinite (Finite 0) 0
                                      [2%nat; 2%nat] false]> tree_heap).
  assert (E1 : addChild true 5 1%nat 2%nat true tree_heap = (h1, Ok tt))
    by (vm_compute; reflexivity).
  assert (E2 : removeChild true 5 1%nat 2%nat true h1 = (tree_heap, Ok tt))
    by (vm_compute; reflexivity).
  assert (HV : tree_heap !! 1%nat
               = Some (example_vertex 1 true None Infinite (Finite 0) 0
                                      [2%nat] false))
    by (vm_compute; reflexivity).
  split; [exact E1|]. split; [exact E2|].
  destruct (addChild_removeChild_restores true 5 1%nat 2%nat true true
              tree_heap h1 tree_heap (Ok tt) _ HV E1 E2) as [HA HB].
  assert (HF : Forall (inspectable true tree_heap) [2%nat]).
  { apply Forall_singleton. eexists. split; [vm_compute; reflexivity|done]. }
  split; [exact (proj1 (HB HF (Forall_inv HF)))|].
  split; [exact HF|vm_compute; reflexivity].
Defined.

(** C7 at the vertex at 2, which has a parent. *)
Lemma addParent_precondition_debug_witness :
  ∃ e, addParent true 5 2%nat 4%nat (Finite 1) true tree_heap
       = (tree_heap, Fail (Exception e))
       ∧ (e = PrunedVertex ∨ e = AddParentHasParent ∨ e = AddParentToRoot).
Proof.
  apply (addParent_precondition_debug 5 2%nat 4%nat (Finite 1) true tree_heap
           (example_vertex 2 false (Some 1%nat) (Finite 3) (Finite 3) 1
                           [3%nat] false)).
  - vm_compute. reflexivity.
  - right. by eexists.
Defined.


(** C9 at the pruned vertex at 2. *)
Lemma markPruned_guarded_debug_witness :
  markPruned true 2%nat pruned_heap
  = (pruned_heap, Fail (Exception PrunedVertex))
  ∧ markUnpruned 2%nat pruned_heap = (tree_heap, Ok tt)
  ∧ markUnpruned 2%nat tree_heap = (tree_heap, Ok tt).
Proof.
  destruct (markPruned_guarded_debug 2%nat pruned_heap
              (example_vertex 2 false (Some 1%nat) (Finite 3) (Finite 3) 1
                              [3%nat] true))
    as (Hp & _ & Hu); [vm_compute; reflexivity|].
  split; [by apply Hp|]. split.
  - rewrite Hu. vm_compute. reflexivity.
  - vm_compute. reflexivity.
Defined.


(** *** Further properties at concrete heaps and checkers *)

(** [getDepth] on a vertex that is not in the tree throws where
    [BITSTAR_DEBUG] is defined, and the heap is as before. *)
Lemma query_keeps_heap_witness :
  ∃ h', call true 5 2%nat OpGetDepth fresh_heap
        = (h', Fail (Exception DepthOfDisconnected))
        ∧ h' = fresh_heap.
Proof.
  exists fresh_heap.
  assert (E : call true 5 2%nat OpGetDepth fresh_heap
              = (fresh_heap, Fail (Exception DepthOfDisconnected)))
    by (vm_compute; reflexivity).
  split; [exact E|].
  exact (query_keeps_heap true 5 2%nat OpGetDepth fresh_heap _ _ eq_refl E).
Defined.

(** [removeParent] with cascade on the vertex at 2 of the search tree,
    without [BITSTAR_DEBUG]: the vertex at 3 below it changes in cost and
    depth only. *)
Lemma operation_footprint_witness :
  call false 5 2%nat (OpRemoveParent true) tree_heap = (tree_after, Ok VVoid)
  ∧ same_links
      (example_vertex 3 false (Some 2%nat) (Finite 4) (Finite 7) 2 [] false)
      (example_vertex 3 false (Some 2%nat) (Finite 4) Infinite 1 [] false).
Proof.
  assert (E : call false 5 2%nat (OpRemoveParent true) tree_heap
              = (tree_after, Ok VVoid)) by (vm_compute; reflexivity).
  split; [exact E|].
  refine (proj2 (proj2 (proj2
            (operation_footprint false 5 2%nat _ tree_heap _ _ 3%nat _ _ E
               _ _))) _); [vm_compute; reflexivity..|discriminate].
Defined.

Lemma roots_normal_fresh_heap : roots_normal fresh_heap.
Proof.
  intros w W HW Hroot. unfold fresh_heap in HW.
  repeat (apply lookup_insert_Some in HW as [[<- <-]|[_ HW]];
          [by (vm_compute; try discriminate Hroot)|]).
  by rewrite lookup_empty in HW.
Qed.

(** Without [BITSTAR_DEBUG], [addParent] attaches a parent to the root at
    1; the root keeps the identity cost and depth 0. *)
Lemma roots_stay_normal_witness :
  ∃ h', call false 5 1%nat (OpAddParent 4%nat (Finite 9) true) fresh_heap
        = (h', Ok VVoid)
        ∧ (parentSPtr_ <$> h' !! 1%nat) = Some (Some 4%nat)
        ∧ roots_normal fresh_heap ∧ roots_normal h'.
Proof.
  eexists. 
  assert (E : call false 5 1%nat (OpAddParent 4%nat (Finite 9) true) fresh_heap
              = (<[1%nat := example_vertex 1 true (Some 4%nat) (Finite 9)
                                           (Finite 0) 0 [] false]> fresh_heap,
                 Ok VVoid)) by (vm_compute; reflexivity).
  split; [exact E|]. split; [vm_compute; reflexivity|].
  split; [exact roots_normal_fresh_heap|].
  exact (roots_stay_normal false 5 1%nat _ fresh_heap _ _ E
           roots_normal_fresh_heap).
Defined.

(** Pruning the vertex at 2 of the search tree. *)
Lemma mark_keeps_tree_witness :
  call true 5 2%nat OpMarkPruned tree_heap = (pruned_heap, Ok VVoid)
  ∧ flags_only 2%nat tree_heap pruned_heap
  ∧ (cost_cascade_invariant_at tree_heap 3%nat
     ↔ cost_cascade_invariant_at pruned_heap 3%nat).
Proof.
  assert (E : call true 5 2%nat OpMarkPruned tree_heap
              = (pruned_heap, Ok VVoid)) by (vm_compute; reflexivity).
  destruct (mark_keeps_tree true 5 2%nat OpMarkPruned tree_heap _ _ eq_refl E)
    as [Hf Hinv].
  split; [exact E|]. split; [exact Hf|]. apply Hinv.
Defined.

(** The cascade from the root repairs the out-of-date cost at 3; a second
    cascade, or an update of one vertex, changes nothing. *)
Lemma cascade_idempotent_witness :
  updateCostAndDepth true 5 1%nat true stale_heap = (tree_heap, Ok tt)
  ∧ registered stale_heap 1%nat
  ∧ ∀ fuel' b h2 r,
      updateCostAndDepth true fuel' 1%nat b tree_heap = (h2, r) →
      h2 = tree_heap.
Proof.
  assert (E : updateCostAndDepth true 5 1%nat true stale_heap
              = (tree_heap, Ok tt)) by (vm_compute; reflexivity).
  assert (R : registered stale_heap 1%nat)
    by (apply fully_registered_sound; vm_compute; reflexivity).
  split; [exact E|]. split; [exact R|].
  intros fuel' b h2 r.
  exact (proj2 (cascade_idempotent true 5 1%nat stale_heap)
           tree_heap fuel' b h2 r R E).
Defined.

(** An update of the vertex at 3 alone. *)
Lemma cascade_frame_witness :
  updateCostAndDepth true 5 3%nat false stale_heap = (tree_heap, Ok tt)
  ∧ same_shape stale_heap tree_heap
  ∧ ∀ w, w ≠ 3%nat → tree_heap !! w = stale_heap !! w.
Proof.
  assert (E : updateCostAndDepth true 5 3%nat false stale_heap
              = (tree_heap, Ok tt)) by (vm_compute; reflexivity).
  destruct (cascade_frame true 5 3%nat false stale_heap _ _ E)
    as (Hs & _ & Hrest).
  split; [exact E|]. split; [exact Hs|]. exact (Hrest eq_refl).
Defined.

(** The root at 1 is a child of its own child. *)
Lemma cascade_never_returns_on_cycle_witness :
  on_cycle cyclic_heap 1%nat
  ∧ snd (updateCostAndDepth false 7 1%nat true cyclic_heap)
    = Fail FuelExhausted
  ∧ ∀ fuel h' r,
      updateCostAndDepth false fuel 1%nat true cyclic_heap = (h', r) →
      r ≠ Ok tt.
Proof.
  assert (C : on_cycle cyclic_heap 1%nat).
  { eexists _, 2%nat. split; [vm_compute; reflexivity|].
    split; [apply list_elem_of_here|].
    eapply reaches_child; [vm_compute; reflexivity| |constructor].
    apply list_elem_of_here. }
  split; [exact C|]. split; [vm_compute; reflexivity|].
  intros fuel h' r.
  exact (cascade_never_returns_on_cycle false fuel 1%nat cyclic_heap h' r C).
Defined.

(** The search tree below the root at 1 has height 2. *)
Lemma cascade_returns_exactly_on_trees_witness :
  updateCostAndDepth true 2 1%nat true tree_heap = (tree_heap, Ok tt)
  ∧ cascadable true tree_heap 2 1%nat
  ∧ updateCostAndDepth true 9 1%nat true tree_heap = (tree_heap, Ok tt)
  ∧ snd (updateCostAndDepth true 1 1%nat true tree_heap) = Fail FuelExhausted
  ∧ ¬ cascadable true tree_heap 1 1%nat.
Proof.
  assert (E : updateCostAndDepth true 2 1%nat true tree_heap
              = (tree_heap, Ok tt)) by (vm_compute; reflexivity).
  destruct (cascade_returns_exactly_on_trees true 2 1%nat tree_heap)
    as [Hiff Hmono].
  destruct (cascade_returns_exactly_on_trees true 1 1%nat tree_heap)
    as [Hiff1 _].
  split; [exact E|]. split; [apply Hiff; eauto|].
  split; [apply Hmono; [exact E|lia]|].
  assert (E1 : snd (updateCostAndDepth true 1 1%nat true tree_heap)
               = Fail FuelExhausted) by (vm_compute; reflexivity).
  split; [exact E1|].
  intros Hc. apply Hiff1 in Hc as [h' E']. rewrite E' in E1. discriminate E1.
Defined.

(** The vertex at 2 is attached below the root at 4 with edge cost 1. *)
Lemma addParent_then_queries_witness :
  addParent true 5 2%nat 4%nat (Finite 1) true reparent_heap
  = (reparented_heap, Ok tt)
  ∧ getParent true 2%nat reparented_heap = (reparented_heap, Ok (Some 4%nat))
  ∧ isInTree true 2%nat reparented_heap = (reparented_heap, Ok true)
  ∧ getEdgeInCost true 2%nat reparented_heap
    = (reparented_heap, Ok (Finite 1)).
Proof.
  assert (E : addParent true 5 2%nat 4%nat (Finite 1) true reparent_heap
              = (reparented_heap, Ok tt)) by (vm_compute; reflexivity).
  assert (L : is_Some (reparent_heap !! 4%nat))
    by (eexists; vm_compute; reflexivity).
  destruct (addParent_then_queries true 5 2%nat 4%nat (Finite 1) true
              reparent_heap reparented_heap L E) as (Q1 & _ & _ & Q4 & Q5).
  done.
Defined.

(** [addParent] on the disconnected vertex at 2 with a pointer to no
    vertex. *)
Lemma addParent_empty_pointer_witness :
  fresh_heap !! 9%nat = None
  ∧ addParent true 5 2%nat 9%nat (Finite 1) true fresh_heap
    = (<[2%nat := example_vertex 2 false None (Finite 1) Infinite 0 []
                                 false]> fresh_heap, Ok tt)
  ∧ pinned 2%nat (<[2%nat := example_vertex 2 false None (Finite 1) Infinite
                                            0 [] false]> fresh_heap).
Proof.
  assert (N : fresh_heap !! 9%nat = None) by (vm_compute; reflexivity).
  assert (E : addParent true 5 2%nat 9%nat (Finite 1) true fresh_heap
              = (<[2%nat := example_vertex 2 false None (Finite 1) Infinite 0
                                           [] false]> fresh_heap, Ok tt))
    by (vm_compute; reflexivity).
  assert (HV : fresh_heap !! 2%nat
               = Some (example_vertex 2 false None Infinite Infinite 0 []
                                      false)) by (vm_compute; reflexivity).
  destruct (addParent_empty_pointer true 5 2%nat 9%nat (Finite 1) true
              fresh_heap _ _ _ HV eq_refl N (λ _, conj eq_refl eq_refl) E)
    as [Hpin _].
  done.
Defined.

(** [removeParent] on the leaf at 3 of the search tree, where
    [BITSTAR_DEBUG] is defined. *)
Lemma removeParent_then_queries_witness :
  ∃ h', removeParent true 5 3%nat true tree_heap = (h', Ok tt)
        ∧ isInTree true 3%nat h' = (h', Ok false)
        ∧ getCost true 3%nat h' = (h', Ok Infinite)
        ∧ getDepth true 3%nat h'
          = (h', Fail (Exception DepthOfDisconnected))
        ∧ getEdgeInCost true 3%nat h'
          = (h', Fail (Exception EdgeCostWithoutParent)).
Proof.
  eexists.
  assert (E : removeParent true 5 3%nat true tree_heap
              = (<[3%nat := example_vertex 3 false None (Finite 4) Infinite 0
                                           [] false]> tree_heap, Ok tt))
    by (vm_compute; reflexivity).
  assert (HV : tree_heap !! 3%nat
               = Some (example_vertex 3 false (Some 2%nat) (Finite 4)
                                      (Finite 7) 2 [] false))
    by (vm_compute; reflexivity).
  destruct (removeParent_then_queries true 5 3%nat true tree_heap _ _ _ HV
              eq_refl (ex_intro _ 2%nat eq_refl) (λ _, eq_refl) E)
    as (_ & Q2 & Q3 & Q4 & _ & Q6).
  split; [exact E|]. done.
Defined.

(** [removeParent] on the disconnected vertex at 2. *)
Lemma removeParent_without_parent_witness :
  removeParent true 5 2%nat true fresh_heap
  = (fresh_heap, Fail (Exception RemoveParentNoParent))
  ∧ removeParent false 5 2%nat false fresh_heap = (fresh_heap, Ok tt).
Proof.
  assert (HV : fresh_heap !! 2%nat
               = Some (example_vertex 2 false None Infinite Infinite 0 []
                                      false)) by (vm_compute; reflexivity).
  destruct (removeParent_without_parent false 5 2%nat true fresh_heap _ HV
              eq_refl) as (E1 & _ & _).
  destruct (removeParent_without_parent false 5 2%nat false fresh_heap _ HV
              eq_refl) as (_ & _ & E3).
  split; [exact (E1 eq_refl)|].
  rewrite (E3 eq_refl eq_refl eq_refl). vm_compute. reflexivity.
Defined.


Lemma star_heap_inspectable debug :
  Forall (inspectable debug star_heap) [2%nat; 3%nat; 4%nat].
Proof.
  repeat constructor; (eexists; split; [vm_compute; reflexivity|done]).
Qed.

(** The first of three children is removed: the last one takes its slot. *)
Lemma removeChild_pops_first_match_witness :
  first_match star_heap 2 [2%nat; 3%nat; 4%nat] = Some 0%nat
  ∧ removeChild true 5 1%nat 2%nat false star_heap
    = (<[1%nat := example_vertex 1 true None Infinite (Finite 0) 0
                                 [4%nat; 3%nat] false]> star_heap, Ok tt)
  ∧ swap_and_pop 0 [2%nat; 3%nat; 4%nat] = [4%nat; 3%nat]
  ∧ swap_and_pop 0 [2%nat; 3%nat; 4%nat] ≡ₚ [3%nat; 4%nat].
Proof.
  assert (HV : star_heap !! 1%nat
               = Some (example_vertex 1 true None Infinite (Finite 0) 0
                                      [2%nat; 3%nat; 4%nat] false))
    by (vm_compute; reflexivity).
  assert (HC : star_heap !! 2%nat
               = Some (example_vertex 2 false (Some 1%nat) (Finite 3)
                                      (Finite 3) 1 [] false))
    by (vm_compute; reflexivity).
  assert (F : first_match star_heap 2 [2%nat; 3%nat; 4%nat] = Some 0%nat)
    by (vm_compute; reflexivity).
  destruct (removeChild_pops_first_match true 5 1%nat 2%nat star_heap _ _
              0%nat HV (λ _, eq_refl) HC (λ _, eq_refl)
              (star_heap_inspectable true) F) as (E & _ & Hperm & _).
  split; [exact F|]. split; [rewrite E; vm_compute; reflexivity|].
  split; [vm_compute; reflexivity|exact Hperm].
Defined.

(** The root lists the destroyed vertex at 3 before the vertex at 4. *)
Lemma removeChild_expired_child_witness :
  dangling_heap !! 3%nat = None
  ∧ removeChild true 5 1%nat 4%nat true dangling_heap
    = (dangling_heap, Fail (Exception ExpiredWhileRemoving))
  ∧ removeChild false 5 1%nat 4%nat true dangling_heap
    = (dangling_heap, Fail NullDereference).
Proof.
  assert (HV : dangling_heap !! 1%nat
               = Some (example_vertex 1 true None Infinite (Finite 0) 0
                                      [2%nat; 3%nat; 4%nat] false))
    by (vm_compute; reflexivity).
  assert (HC : dangling_heap !! 4%nat
               = Some (example_vertex 4 false (Some 1%nat) (Finite 5)
                                      (Finite 5) 1 [] false))
    by (vm_compute; reflexivity).
  assert (N : dangling_heap !! 3%nat = None) by (vm_compute; reflexivity).
  assert (F : ∀ debug,
             Forall (λ y, inspectable debug dangling_heap y
                          ∧ vId_ <$> dangling_heap !! y ≠ Some 4)
                    [2%nat]).
  { intros debug. apply Forall_singleton. split.
    - eexists. split; [vm_compute; reflexivity|done].
    - vm_compute. discriminate. }
  split; [exact N|]. split.
  - exact (removeChild_expired_child true 5 1%nat 4%nat true dangling_heap
             _ _ [2%nat] 3%nat [4%nat] HV (λ _, eq_refl) HC (λ _, eq_refl)
             eq_refl N (F true)).
  - exact (removeChild_expired_child false 5 1%nat 4%nat true dangling_heap
             _ _ [2%nat] 3%nat [4%nat] HV (λ _, eq_refl) HC (λ _, eq_refl)
             eq_refl N (F false)).
Defined.

(** The vertex at 3 is listed a second time, by the root. *)
Lemma addChild_then_getChildren_witness :
  ∃ h1, addChild true 5 1%nat 3%nat false tree_heap = (h1, Ok tt)
        ∧ getChildren true 1%nat h1 = (h1, Ok [2%nat; 3%nat])
        ∧ hasChildren true 1%nat h1 = (h1, Ok true).
Proof.
  eexists.
  assert (E : addChild true 5 1%nat 3%nat false tree_heap
              = (<[1%nat := example_vertex 1 true None Infinite (Finite 0) 0
                                           [2%nat; 3%nat] false]> tree_heap,
                 Ok tt)) by (vm_compute; reflexivity).
  assert (HV : tree_heap !! 1%nat
               = Some (example_vertex 1 true None Infinite (Finite 0) 0
                                      [2%nat] false))
    by (vm_compute; reflexivity).
  destruct (addChild_then_getChildren true 5 1%nat 3%nat false tree_heap _ _
              HV E) as (Q1 & _ & Q3).
  - intros _. repeat constructor; eexists; vm_compute; reflexivity.
  - split; [exact E|]. split; [exact Q1|exact Q3].
Defined.

(** The children of the root with the vertex at 3 destroyed. *)
Lemma getChildren_expired_child_witness :
  getChildren true 1%nat dangling_heap
  = (dangling_heap, Fail (Exception ExpiredWhileCollecting))
  ∧ getChildren false 1%nat dangling_heap
    = (dangling_heap, Ok [2%nat; 3%nat; 4%nat]).
Proof.
  assert (HV : dangling_heap !! 1%nat
               = Some (example_vertex 1 true None Infinite (Finite 0) 0
                                      [2%nat; 3%nat; 4%nat] false))
    by (vm_compute; reflexivity).
  destruct (getChildren_expired_child 1%nat dangling_heap _ [2%nat] 3%nat
              [4%nat] HV eq_refl eq_refl) as (E1 & _ & E2 & _).
  - vm_compute. reflexivity.
  - apply Forall_singleton. eexists. vm_compute. reflexivity.
  - split; [exact E1|exact E2].
Defined.

(** A root and a vertex that is not one are constructed at the free
    address 9. *)
Lemma Vertex_Vertex_consistent_witness :
  tree_heap !! 9%nat = None
  ∧ Vertex_Vertex true example_initializers 9%nat 17 0%nat true tree_heap
    = (<[9%nat := example_vertex 17 true None Infinite (Finite 0) 0 [] false]>
         tree_heap, Ok tt)
  ∧ Vertex_Vertex true example_initializers 9%nat 17 0%nat false tree_heap
    = (<[9%nat := example_vertex 17 false None Infinite Infinite 0 [] false]>
         tree_heap, Ok tt)
  ∧ cost_cascade_invariant_at
      (<[9%nat := example_vertex 17 false None Infinite Infinite 0 [] false]>
         tree_heap) 9%nat.
Proof.
  assert (N : tree_heap !! 9%nat = None) by (vm_compute; reflexivity).
  destruct (Vertex_Vertex_consistent true example_initializers 9%nat 17 0%nat
              true tree_heap N (λ _, eq_refl)) as (V1 & E1 & -> & _).
  destruct (Vertex_Vertex_consistent true example_initializers 9%nat 17 0%nat
              false tree_heap N (λ _, eq_refl)) as (V2 & E2 & -> & Hinv).
  destruct (Hinv eq_refl) as (Hthis & _).
  split; [exact N|]. split; [exact E1|]. split; [exact E2|exact Hthis].
Defined.

(** The flags of the vertex at 2 of the search tree. *)
Lemma lifecycle_flags_round_trip_witness :
  (∃ h1, markOld true 2%nat tree_heap = (h1, Ok tt)
         ∧ isNew true 2%nat h1 = (h1, Ok false)
         ∧ hasBeenExpandedToSamples true 2%nat h1 = (h1, Ok false))
  ∧ (markPruned true 2%nat ;;; markUnpruned 2%nat) tree_heap
    = (tree_heap, Ok tt).
Proof.
  assert (HV : tree_heap !! 2%nat
               = Some (example_vertex 2 false (Some 1%nat) (Finite 3)
                                      (Finite 3) 1 [3%nat] false))
    by (vm_compute; reflexivity).
  destruct (lifecycle_flags_round_trip true 2%nat tree_heap _ false HV
              eq_refl) as ((h1 & E & Q1 & Q2 & _) & _ & _ & Hround).
  split; [|exact Hround]. exists h1. done.
Defined.

(** The obstacle at key 4 is freed, and every state is valid at every time
    afterwards. *)
Lemma clearDynamicObstacles_clears_witness :
  (clearDynamicObstacles example_checker).1 = [(1%nat, 7)]
  ∧ isValid_time example_checker 7 double_0_37 = Some false
  ∧ isValid_time (clearDynamicObstacles example_checker).2 7 double_0_37
    = Some true.
Proof.
  destruct (clearDynamicObstacles_clears example_checker) as (_ & Hv & _).
  split; [vm_compute; reflexivity|]. split; [vm_compute; reflexivity|].
  rewrite Hv. reflexivity.
Defined.

(** A state that fails the static check, at a time that has no key. *)
Lemma isValid_time_static_first_witness :
  isValid static_checker (-5) = false
  ∧ isValid_time static_checker (-5) S754_nan = Some false.
Proof.
  destruct (isValid_time_static_first static_checker (-5) S754_nan)
    as [H1 _].
  split; [reflexivity|]. apply H1. reflexivity.
Defined.

Lemma example_checker_nonempty : dynObstacles_ example_checker ≠ ∅.
Proof.
  intros E. apply (f_equal (lookup 4)) in E. vm_compute in E. discriminate.
Qed.

(** A time that is not a number and an infinite time. *)
Lemma isValid_time_undefined_key_witness :
  isValid_time example_checker 7 S754_nan = None
  ∧ isValid_time example_checker 7 (S754_infinity false) = None.
Proof.
  destruct (isValid_time_undefined_key example_checker 7 S754_nan
              (or_introl eq_refl)) as [_ H1].
  destruct (isValid_time_undefined_key example_checker 7
              (S754_infinity false) (or_introl eq_refl)) as [_ H2].
  split; [apply H1|apply H2]; (exact example_checker_nonempty || reflexivity).
Defined.

(** One more obstacle, under key 9, does not change the answer at key 4. *)
Lemma isValid_time_other_keys_witness :
  t_key example_checker double_0_37 = Some 4
  ∧ isValid_time crowded_checker 7 double_0_37
    = isValid_time example_checker 7 double_0_37
  ∧ isValid_time crowded_checker 8 double_0_37 = Some true.
Proof.
  assert (K : t_key example_checker double_0_37 = Some 4)
    by (vm_compute; reflexivity).
  assert (L : dynObstacles_ crowded_checker !! 4
              = dynObstacles_ example_checker !! 4)
    by (vm_compute; reflexivity).
  split; [exact K|]. split.
  - exact (isValid_time_other_keys example_checker crowded_checker 7
             double_0_37 4 eq_refl eq_refl eq_refl K L).
  - rewrite (isValid_time_other_keys example_checker crowded_checker 8
               double_0_37 4 eq_refl eq_refl eq_refl K L).
    vm_compute. reflexivity.
Defined.

(** The search tree after a cascade from its root: the vertex at 3 is at
    depth 2 and carries the cost 0 + 3 + 4. *)
Lemma cascade_from_root_measures_witness :
  updateCostAndDepth true 5 1%nat true stale_heap = (tree_heap, Ok tt)
  ∧ descends tree_heap 1%nat 3%nat 2 (Finite 7)
  ∧ ∃ W, tree_heap !! 3%nat = Some W ∧ cost_ W = Finite 7
         ∧ depth_ W = 2 mod UINT_MODULUS.
Proof.
  assert (E : updateCostAndDepth true 5 1%nat true stale_heap
              = (tree_heap, Ok tt)) by (vm_compute; reflexivity).
  assert (R : registered stale_heap 1%nat)
    by (apply fully_registered_sound; vm_compute; reflexivity).
  assert (D : descends tree_heap 1%nat 3%nat 2 (Finite 7)).
  { refine (descends_child tree_heap 1%nat 2%nat
              (example_vertex 2 false (Some 1%nat) (Finite 3) (Finite 3) 1
                              [3%nat] false)
              3%nat
              (example_vertex 3 false (Some 2%nat) (Finite 4) (Finite 7) 2
                              [] false)
              1 (Finite 3) _ _ _ _ eq_refl eq_refl);
      [|vm_compute; reflexivity|apply list_elem_of_here
       |vm_compute; reflexivity].
    refine (descends_child tree_heap 1%nat 1%nat
              (example_vertex 1 true None Infinite (Finite 0) 0 [2%nat] false)
              2%nat
              (example_vertex 2 false (Some 1%nat) (Finite 3) (Finite 3) 1
                              [3%nat] false)
              0 (Finite 0) _ _ _ _ eq_refl eq_refl);
      [|vm_compute; reflexivity|apply list_elem_of_here
       |vm_compute; reflexivity].
    refine (descends_root tree_heap 1%nat
              (example_vertex 1 true None Infinite (Finite 0) 0 [2%nat] false)
              _ eq_refl).
    vm_compute. reflexivity. }
  split; [exact E|]. split; [exact D|].
  exact (cascade_from_root_measures true 5 1%nat stale_heap tree_heap 3%nat 2
           (Finite 7) R E D).
Defined.

(** The state object at address 7 is stored under key 4; the one at
    address 8 is not. *)
Lemma MyDemo_rejects_stored_state_witness :
  t_key (MyDemoStateValidityChecker (λ s i, (s + i)%nat)
           {[ 4 := [(1%nat, 7%nat)] ]} double_10) double_0_37 = Some 4
  ∧ isValid_time (MyDemoStateValidityChecker (λ s i, (s + i)%nat)
                    {[ 4 := [(1%nat, 7%nat)] ]} double_10) 7%nat double_0_37
    = Some false
  ∧ isValid_time (MyDemoStateValidityChecker (λ s i, (s + i)%nat)
                    {[ 4 := [(1%nat, 7%nat)] ]} double_10) 8%nat double_0_37
    = Some true.
Proof.
  assert (K : t_key (MyDemoStateValidityChecker (λ s i, (s + i)%nat)
                       {[ 4 := [(1%nat, 7%nat)] ]} double_10) double_0_37
              = Some 4) by (vm_compute; reflexivity).
  destruct (MyDemo_rejects_stored_state (λ s i, (s + i)%nat)
              {[ 4 := [(1%nat, 7%nat)] ]} double_10 7%nat double_0_37 4)
    as (_ & H7 & _); [cbn; lia|exact K|].
  destruct (MyDemo_rejects_stored_state (λ s i, (s + i)%nat)
              {[ 4 := [(1%nat, 7%nat)] ]} double_10 8%nat double_0_37 4)
    as (_ & _ & H8); [cbn; lia|exact K|].
  split; [exact K|]. split.
  - apply H7. exists 1%nat. vm_compute. apply list_elem_of_here.
  - apply H8. intros (si & Hin). vm_compute in Hin.
    apply list_elem_of_singleton in Hin. discriminate Hin.
Defined.
